(** * HyperScan JS-Core: a shallow embedding of the emulator core

    The development follows the JavaScript sources of the emulator:
    - [hyperscan/cpu.js]                      (module [CPU])
    - [hyperscan/memory/arraymemoryregion.js] (module [ArrayMemoryRegion])
    - [hyperscan/memory/segmentedmemoryregion.js] (module [MIU])
    - [hyperscan/io/io.js]                    (module [IOMemoryRegion])
    - [hyperscan/io/uart.js], UART part       (module [UART])
    - [hyperscan/io/uart.js], timer part      (module [Timer])
    - [hyperscan/io/uart.js], timer controller (module [TimerController])
    - [hyperscan/io/uart.js], display registers (module [VDU])
    - the interrupt controller                (module [INTC])
    - [main.js], engine                       (modules [Engine], [Machine])

    JavaScript numbers that the code keeps integral are integers of [Z];
    every 32-bit conversion the code performs ([>>> 0], [| 0], the bitwise
    operators, stores into a [Uint32Array]) is written out.  Objects become
    records, mutation becomes state passing, callbacks become events that
    are appended to a trace.  Console output is not modelled. *)

From Stdlib Require Import ZArith Lia Bool List.
From stdpp Require Import base option list gmap.

Local Open Scope Z_scope.

(** ** JavaScript 32-bit integer arithmetic *)

Module JS.

(** [x >>> 0]: ToUint32. *)
Definition u32 (x : Z) : Z := x mod 4294967296.

(** [x | 0]: ToInt32. *)
Definition i32 (x : Z) : Z := (x + 2147483648) mod 4294967296 - 2147483648.

(** [a & b], [a | b], [a ^ b], [~a]: operands go through ToInt32, the
    result is an int32. *)
Definition band (a b : Z) : Z := Z.land (i32 a) (i32 b).
Definition bor (a b : Z) : Z := Z.lor (i32 a) (i32 b).
Definition bxor (a b : Z) : Z := Z.lxor (i32 a) (i32 b).
Definition bnot (a : Z) : Z := Z.lnot (i32 a).

(** Shift counts are taken modulo 32. *)
Definition shcount (n : Z) : Z := Z.land (u32 n) 31.

(** [a << n] (int32 result), [a >> n] (sign-propagating),
    [a >>> n] (uint32 result). *)
Definition shl (a n : Z) : Z := i32 (Z.shiftl (i32 a) (shcount n)).
Definition sar (a n : Z) : Z := Z.shiftr (i32 a) (shcount n).
Definition shr (a n : Z) : Z := Z.shiftr (u32 a) (shcount n).

(** [b ? 1 : 0]. *)
Definition of_bool (b : bool) : Z := if b then 1 else 0.

(** Truthiness of a number used as a condition. *)
Definition truthy (x : Z) : bool := negb (x =? 0).

(** A [Uint32Array]: reads of a slot, and stores that wrap to 32 bits and
    are dropped out of range, as typed arrays do. *)
Definition aget (a : list Z) (i : Z) : Z := default 0 (a !! Z.to_nat i).
Definition aset (a : list Z) (i v : Z) : list Z :=
  if (0 <=? i) then <[Z.to_nat i := u32 v]> a else a.

Definition Uint32Array (n : nat) : list Z := replicate n 0.

End JS.

(** ** The memory interface ([MemoryRegion])

    Every region offers the six accesses.  Reads return the new region as
    well: an MMIO read may change the peripheral behind it. *)

Class MemoryRegion (M : Type) := {
  readU8 : M -> Z -> Z * M;
  readU16 : M -> Z -> Z * M;
  readU32 : M -> Z -> Z * M;
  writeU8 : M -> Z -> Z -> M;
  writeU16 : M -> Z -> Z -> M;
  writeU32 : M -> Z -> Z -> M
}.

(** ** The CPU ([hyperscan/cpu.js]) *)

Module CPU.

Import JS.

Record t := mk {
  r : list Z;
  cr : list Z;
  sr : list Z;
  CEL : Z;
  CEH : Z;
  pc : Z;
  flagN : Z;
  flagZ : Z;
  flagC : Z;
  flagV : Z;
  flagT : Z;
  cycles : Z;
  instructions : Z;
  halted : bool
}.

Definition reset : t :=
  mk (Uint32Array 32) (Uint32Array 32) (Uint32Array 32)
     0 0 0 0 0 0 0 0 0 0 false.

(** Field updates. *)
Definition with_r (c : t) (x : list Z) : t :=
  mk x (cr c) (sr c) (CEL c) (CEH c) (pc c) (flagN c) (flagZ c) (flagC c)
     (flagV c) (flagT c) (cycles c) (instructions c) (halted c).
Definition with_cr (c : t) (x : list Z) : t :=
  mk (r c) x (sr c) (CEL c) (CEH c) (pc c) (flagN c) (flagZ c) (flagC c)
     (flagV c) (flagT c) (cycles c) (instructions c) (halted c).
Definition with_sr (c : t) (x : list Z) : t :=
  mk (r c) (cr c) x (CEL c) (CEH c) (pc c) (flagN c) (flagZ c) (flagC c)
     (flagV c) (flagT c) (cycles c) (instructions c) (halted c).
Definition with_CEL (c : t) (x : Z) : t :=
  mk (r c) (cr c) (sr c) x (CEH c) (pc c) (flagN c) (flagZ c) (flagC c)
     (flagV c) (flagT c) (cycles c) (instructions c) (halted c).
Definition with_CEH (c : t) (x : Z) : t :=
  mk (r c) (cr c) (sr c) (CEL c) x (pc c) (flagN c) (flagZ c) (flagC c)
     (flagV c) (flagT c) (cycles c) (instructions c) (halted c).
Definition with_pc (c : t) (x : Z) : t :=
  mk (r c) (cr c) (sr c) (CEL c) (CEH c) x (flagN c) (flagZ c) (flagC c)
     (flagV c) (flagT c) (cycles c) (instructions c) (halted c).
Definition with_N (c : t) (x : Z) : t :=
  mk (r c) (cr c) (sr c) (CEL c) (CEH c) (pc c) x (flagZ c) (flagC c)
     (flagV c) (flagT c) (cycles c) (instructions c) (halted c).
Definition with_Z (c : t) (x : Z) : t :=
  mk (r c) (cr c) (sr c) (CEL c) (CEH c) (pc c) (flagN c) x (flagC c)
     (flagV c) (flagT c) (cycles c) (instructions c) (halted c).
Definition with_C (c : t) (x : Z) : t :=
  mk (r c) (cr c) (sr c) (CEL c) (CEH c) (pc c) (flagN c) (flagZ c) x
     (flagV c) (flagT c) (cycles c) (instructions c) (halted c).
Definition with_V (c : t) (x : Z) : t :=
  mk (r c) (cr c) (sr c) (CEL c) (CEH c) (pc c) (flagN c) (flagZ c) (flagC c)
     x (flagT c) (cycles c) (instructions c) (halted c).
Definition with_T (c : t) (x : Z) : t :=
  mk (r c) (cr c) (sr c) (CEL c) (CEH c) (pc c) (flagN c) (flagZ c) (flagC c)
     (flagV c) x (cycles c) (instructions c) (halted c).
Definition with_cycles (c : t) (x : Z) : t :=
  mk (r c) (cr c) (sr c) (CEL c) (CEH c) (pc c) (flagN c) (flagZ c) (flagC c)
     (flagV c) (flagT c) x (instructions c) (halted c).
Definition with_instructions (c : t) (x : Z) : t :=
  mk (r c) (cr c) (sr c) (CEL c) (CEH c) (pc c) (flagN c) (flagZ c) (flagC c)
     (flagV c) (flagT c) (cycles c) x (halted c).
Definition with_halted (c : t) (x : bool) : t :=
  mk (r c) (cr c) (sr c) (CEL c) (CEH c) (pc c) (flagN c) (flagZ c) (flagC c)
     (flagV c) (flagT c) (cycles c) (instructions c) x.

(** [this.r[i]], [this.r[i] = v] and the like. *)
Definition R (c : t) (i : Z) : Z := aget (r c) i.
Definition setR (c : t) (i v : Z) : t := with_r c (aset (r c) i v).
Definition CR (c : t) (i : Z) : Z := aget (cr c) i.
Definition setCR (c : t) (i v : Z) : t := with_cr c (aset (cr c) i v).
Definition SR (c : t) (i : Z) : Z := aget (sr c) i.
Definition setSR (c : t) (i v : Z) : t := with_sr c (aset (sr c) i v).

Definition getPC (c : t) : Z := pc c.
Definition setPC (c : t) (addr : Z) : t := with_pc c (u32 addr).

Definition in_bank (idx : Z) : bool := (0 <=? idx) && (idx <? 32).

Definition getRegister (c : t) (idx : Z) : Z :=
  if in_bank idx then u32 (R c idx) else 0.
Definition setRegister (c : t) (idx value : Z) : t :=
  if in_bank idx then setR c idx (u32 value) else c.
Definition getControlRegister (c : t) (idx : Z) : Z :=
  if in_bank idx then u32 (CR c idx) else 0.
Definition setControlRegister (c : t) (idx value : Z) : t :=
  if in_bank idx then setCR c idx (u32 value) else c.

Definition signExtend (x b : Z) : Z :=
  if 32 <=? b then u32 x
  else
    let m := shl 1 (b - 1) in
    let x := band x (shl 1 b - 1) in
    u32 (bxor x m - m).

Definition updateBasicFlags (c : t) (res : Z) : t :=
  let res := u32 res in
  let c := with_N c (band (shr res 31) 1) in
  with_Z c (of_bool (res =? 0)).

Definition packSR0 (c : t) : t :=
  setSR c 0
    (bor (bor (bor (bor (shl (band (flagN c) 1) 31) (shl (band (flagZ c) 1) 30))
                (shl (band (flagC c) 1) 29))
            (shl (band (flagV c) 1) 28))
        (band (flagT c) 1)).

Definition unpackSR0 (c : t) : t :=
  let v := u32 (SR c 0) in
  let c := with_N c (band (shr v 31) 1) in
  let c := with_Z c (band (shr v 30) 1) in
  let c := with_C c (band (shr v 29) 1) in
  let c := with_V c (band (shr v 28) 1) in
  with_T c (band (shr v 0) 1).

Definition getSystemRegister (c : t) (idx : Z) : Z :=
  if in_bank idx then u32 (SR c idx) else 0.
Definition setSystemRegister (c : t) (idx value : Z) : t :=
  if in_bank idx then
    let c := setSR c idx (u32 value) in
    if idx =? 0 then unpackSR0 c else c
  else c.

(** *** ALU helpers: each returns the result and the CPU with its flags *)

Definition add (c : t) (a b : Z) (updateFlags : bool) : Z * t :=
  let a := u32 a in
  let b := u32 b in
  let res := u32 (a + b) in
  if updateFlags then
    let c := updateBasicFlags c res in
    let c := with_C c (of_bool (4294967295 - a <? b)) in
    let c := with_V c (band (shr (band (bnot (bxor a b)) (bxor a res)) 31) 1) in
    (res, c)
  else (res, c).

Definition addc (c : t) (a b : Z) (updateFlags : bool) : Z * t :=
  let a := u32 a in
  let b := u32 b in
  let res := u32 (a + b + flagC c) in
  if updateFlags then
    let c0 := c in
    let c := updateBasicFlags c res in
    let c := with_C c (of_bool (4294967295 - a <? b + flagC c0)) in
    let c := with_V c (band (shr (band (bnot (bxor a b)) (bxor a res)) 31) 1) in
    (res, c)
  else (res, c).

Definition sub (c : t) (a b : Z) (updateFlags : bool) : Z * t :=
  let a := u32 a in
  let b := u32 b in
  let res := u32 (a - b) in
  if updateFlags then
    let c := updateBasicFlags c res in
    let c := with_C c (of_bool (b <=? a)) in
    let c := with_V c (band (shr (band (bxor a b) (bnot (bxor res b))) 31) 1) in
    (res, c)
  else (res, c).

Definition subc (c : t) (a b : Z) (updateFlags : bool) : Z * t :=
  let a := u32 a in
  let b := u32 b in
  let borrow := of_bool (flagC c =? 0) in
  let res := u32 (a - b - borrow) in
  if updateFlags then
    let c := updateBasicFlags c res in
    let c := with_C c (of_bool (b + borrow <=? a)) in
    let c := with_V c (band (shr (band (bxor a b) (bnot (bxor res b))) 31) 1) in
    (res, c)
  else (res, c).

Definition neg (c : t) (a : Z) (updateFlags : bool) : Z * t :=
  let a := u32 a in
  let res := u32 (0 - a) in
  if updateFlags then
    let c := updateBasicFlags c res in
    let c := with_C c (of_bool (a =? 0)) in
    let c := with_V c (of_bool (a =? 2147483648)) in
    (res, c)
  else (res, c).

Inductive bitop := op_and | op_or | op_xor | op_not.

Definition bitOp (c : t) (a b : Z) (type : bitop) (updateFlags : bool)
  : Z * t :=
  let res :=
    match type with
    | op_and => u32 (band a b)
    | op_or => u32 (bor a b)
    | op_xor => u32 (bxor a b)
    | op_not => u32 (bnot a)
    end in
  (res, if updateFlags then updateBasicFlags c res else c).

Definition sll (c : t) (a sa : Z) (updateFlags : bool) : Z * t :=
  let a := u32 a in
  let sa := band sa 31 in
  let res := u32 (shl a sa) in
  if updateFlags then
    let c := updateBasicFlags c res in
    let c := if 0 <? sa then with_C c (band (shr a (32 - sa)) 1) else c in
    (res, c)
  else (res, c).

Definition srl (c : t) (a sa : Z) (updateFlags : bool) : Z * t :=
  let a := u32 a in
  let sa := band sa 31 in
  let res := u32 (shr a sa) in
  if updateFlags then
    let c := updateBasicFlags c res in
    let c := if 0 <? sa then with_C c (band (shr a (sa - 1)) 1) else c in
    (res, c)
  else (res, c).

Definition sra (c : t) (a sa : Z) (updateFlags : bool) : Z * t :=
  let a := u32 a in
  let sa := band sa 31 in
  let res := u32 (sar (i32 a) sa) in
  if updateFlags then
    let c := updateBasicFlags c res in
    let c := if 0 <? sa then with_C c (band (shr a (sa - 1)) 1) else c in
    (res, c)
  else (res, c).

Definition ror (c : t) (a sa : Z) (updateFlags : bool) : Z * t :=
  let a := u32 a in
  let sa := band sa 31 in
  if sa =? 0 then (a, c)
  else
    let res := u32 (bor (shr a sa) (shl a (32 - sa))) in
    if updateFlags then
      let c := updateBasicFlags c res in
      let c := with_C c (band (shr a (sa - 1)) 1) in
      (res, c)
    else (res, c).

Definition rol (c : t) (a sa : Z) (updateFlags : bool) : Z * t :=
  let a := u32 a in
  let sa := band sa 31 in
  if sa =? 0 then (a, c)
  else
    let res := u32 (bor (shl a sa) (shr a (32 - sa))) in
    if updateFlags then
      let c := updateBasicFlags c res in
      let c := with_C c (band (shr a (32 - sa)) 1) in
      (res, c)
    else (res, c).

Definition rorc (c : t) (a : Z) (updateFlags : bool) : Z * t :=
  let a := u32 a in
  let res := u32 (bor (shr a 1) (shl (band (flagC c) 1) 31)) in
  if updateFlags then
    let c := updateBasicFlags c res in
    let c := with_C c (band a 1) in
    (res, c)
  else (res, c).

Definition rolc (c : t) (a : Z) (updateFlags : bool) : Z * t :=
  let a := u32 a in
  let res := u32 (bor (shl a 1) (band (flagC c) 1)) in
  if updateFlags then
    let c := updateBasicFlags c res in
    let c := with_C c (band (shr a 31) 1) in
    (res, c)
  else (res, c).

Definition extsb (c : t) (a : Z) (updateFlags : bool) : Z * t :=
  let res := band (i32 a) 255 in
  let res := if truthy (band res 128) then bor res 4294967040 else res in
  let res := u32 res in
  (res, if updateFlags then updateBasicFlags c res else c).

Definition extsh (c : t) (a : Z) (updateFlags : bool) : Z * t :=
  let res := band (i32 a) 65535 in
  let res := if truthy (band res 32768) then bor res 4294901760 else res in
  let res := u32 res in
  (res, if updateFlags then updateBasicFlags c res else c).

Definition extzb (c : t) (a : Z) (updateFlags : bool) : Z * t :=
  let res := band a 255 in
  (res, if updateFlags then updateBasicFlags c res else c).

Definition extzh (c : t) (a : Z) (updateFlags : bool) : Z * t :=
  let res := band a 65535 in
  (res, if updateFlags then updateBasicFlags c res else c).

Definition bitclr (c : t) (a bitIdx : Z) (updateFlags : bool) : Z * t :=
  let bitIdx := band bitIdx 31 in
  let res := u32 (band a (bnot (shl 1 bitIdx))) in
  (res, if updateFlags then updateBasicFlags c res else c).

Definition bitset (c : t) (a bitIdx : Z) (updateFlags : bool) : Z * t :=
  let bitIdx := band bitIdx 31 in
  let res := u32 (bor a (shl 1 bitIdx)) in
  (res, if updateFlags then updateBasicFlags c res else c).

Definition bittst (c : t) (a bitIdx : Z) : t :=
  let bitIdx := band bitIdx 31 in
  let c := with_T c (of_bool (negb (band a (shl 1 bitIdx) =? 0))) in
  with_Z c (if truthy (flagT c) then 0 else 1).

Definition bittgl (c : t) (a bitIdx : Z) (updateFlags : bool) : Z * t :=
  let bitIdx := band bitIdx 31 in
  let res := u32 (bxor a (shl 1 bitIdx)) in
  (res, if updateFlags then updateBasicFlags c res else c).

Definition conditional (c : t) (cond : Z) : bool :=
  match band cond 15 with
  | 0 => flagC c =? 1
  | 1 => flagC c =? 0
  | 2 => (flagC c =? 1) && (flagZ c =? 0)
  | 3 => (flagC c =? 0) || (flagZ c =? 1)
  | 4 => flagZ c =? 1
  | 5 => flagZ c =? 0
  | 6 => (flagN c =? flagV c) && (flagZ c =? 0)
  | 7 => negb (flagN c =? flagV c) || (flagZ c =? 1)
  | 8 => flagN c =? flagV c
  | 9 => negb (flagN c =? flagV c)
  | 10 => flagN c =? 1
  | 11 => flagN c =? 0
  | 12 => flagV c =? 1
  | 13 => flagV c =? 0
  | 14 => flagT c =? 1
  | 15 => true
  | _ => false
  end.

(** *** The custom multiply/divide engine *)

Definition execMul (c : t) (a b : Z) : t :=
  let res := i32 a * i32 b in
  let c := with_CEL c (u32 (Z.land res 4294967295)) in
  with_CEH c (u32 (Z.land (Z.shiftr res 32) 4294967295)).

Definition execMulu (c : t) (a b : Z) : t :=
  let res := u32 a * u32 b in
  let c := with_CEL c (u32 (Z.land res 4294967295)) in
  with_CEH c (u32 (Z.land (Z.shiftr res 32) 4294967295)).

Definition execDiv (c : t) (a b : Z) : t :=
  let sA := i32 a in
  let sB := i32 b in
  if negb (sB =? 0) then
    let c := with_CEL c (u32 (Z.quot sA sB)) in
    with_CEH c (u32 (Z.rem sA sB))
  else c.

Definition execDivu (c : t) (a b : Z) : t :=
  let uA := u32 a in
  let uB := u32 b in
  if negb (uB =? 0) then
    let c := with_CEL c (u32 (uA / uB)) in
    with_CEH c (u32 (uA mod uB))
  else c.

Definition moveFromCE (c : t) (rD rB : Z) : t :=
  match band rB 3 with
  | 1 => setR c rD (CEL c)
  | 2 => setR c rD (CEH c)
  | 3 =>
      let c := setR c rD (CEL c) in
      if rD <? 31 then setR c (rD + 1) (CEH c) else c
  | _ => c
  end.

Definition moveToCE (c : t) (rD rB : Z) : t :=
  match band rB 3 with
  | 1 => with_CEL c (R c rD)
  | 2 => with_CEH c (R c rD)
  | 3 =>
      let c := with_CEL c (R c rD) in
      if rD <? 31 then with_CEH c (R c (rD + 1)) else c
  | _ => c
  end.

(** *** Exception entry and return *)

Definition exception (c : t) (cause : Z) : t :=
  let c := packSR0 c in
  let c := setCR c 1 (SR c 0) in
  let c := setCR c 2 (bor (band (CR c 2) (bnot 16515072))
                         (shl (band cause 63) 18)) in
  let c := setCR c 5 (pc c) in
  let c := setCR c 0 (band (CR c 0) (bnot 1)) in
  with_pc c (u32 (CR c 3 + cause * 4)).

Definition rte (c : t) : t :=
  let c := setSR c 0 (CR c 1) in
  let c := unpackSR0 c in
  with_pc c (CR c 5).

(** *** Instruction execution

    The CPU holds a handle [this.miu] to the memory interface unit, or
    [null]; the unit's state is threaded next to the CPU's.  Every
    executor returns the number of bytes by which [step] advances the
    program counter, [0] when the instruction has set it. *)

Section Exec.

Context {M : Type} `{MemoryRegion M}.

(** [if (this.miu) k(this.miu.read(addr))]. *)
Definition miu_load (rd : M -> Z -> Z * M) (c : t) (m : option M)
    (addr : Z) (k : t -> Z -> t) : t * option M :=
  match m with
  | Some mem => let '(v, mem') := rd mem addr in (k c v, Some mem')
  | None => (c, None)
  end.

(** [if (this.miu) this.miu.write(addr, v)]. *)
Definition miu_store (wr : M -> Z -> Z -> M) (c : t) (m : option M)
    (addr v : Z) : t * option M :=
  match m with
  | Some mem => (c, Some (wr mem addr v))
  | None => (c, None)
  end.

(** [this.r[rD] = f(...)] for an ALU helper [f]. *)
Definition alu (rD : Z) (x : Z * t) : t := setR (snd x) rD (fst x).

Definition execSpForm (c : t) (m : option M) (insn : Z)
  : Z * (t * option M) :=
  let rD := band (shr insn 22) 31 in
  let rA := band (shr insn 17) 31 in
  let rB := band (shr insn 12) 31 in
  let func6 := band (shr insn 1) 63 in
  let CU := band insn 1 in
  let cu := CU =? 1 in
  match func6 with
  | 0 => (4, (c, m))
  | 1 => (4, (c, m))
  | 2 => (4, (if conditional c rB then exception c 2 else c, m))
  | 3 => (4, (exception c 3, m))
  | 4 =>
      if conditional c rB then
        let c := if truthy CU then setR c 3 (u32 (pc c + 4)) else c in
        (0, (with_pc c (R c rA), m))
      else (4, (c, m))
  | 5 => (4, (c, m))
  | 6 => (4, miu_load readU32 c m (R c rA) (fun c v => setR c rD v))
  | 7 => (4, miu_store writeU32 c m (R c rA) (R c rD))
  | 8 => (4, (alu rD (add c (R c rA) (R c rB) cu), m))
  | 9 => (4, (alu rD (addc c (R c rA) (R c rB) cu), m))
  | 10 => (4, (alu rD (sub c (R c rA) (R c rB) cu), m))
  | 11 => (4, (alu rD (subc c (R c rA) (R c rB) cu), m))
  | 12 =>
      let c := snd (sub c (R c rA) (R c rB) true) in
      (4, (with_T c (of_bool (conditional c rD)), m))
  | 13 =>
      let c := snd (sub c (R c rA) 0 true) in
      (4, (with_T c (of_bool (conditional c rD)), m))
  | 15 => (4, (alu rD (neg c (R c rA) cu), m))
  | 16 => (4, (alu rD (bitOp c (R c rA) (R c rB) op_and cu), m))
  | 17 => (4, (alu rD (bitOp c (R c rA) (R c rB) op_or cu), m))
  | 18 => (4, (alu rD (bitOp c (R c rA) 0 op_not cu), m))
  | 19 => (4, (alu rD (bitOp c (R c rA) (R c rB) op_xor cu), m))
  | 20 => (4, (alu rD (bitclr c (R c rA) rB cu), m))
  | 21 => (4, (alu rD (bitset c (R c rA) rB cu), m))
  | 22 => (4, (bittst c (R c rA) rB, m))
  | 23 => (4, (alu rD (bittgl c (R c rA) rB cu), m))
  | 24 => (4, (alu rD (sll c (R c rA) (R c rB) cu), m))
  | 26 => (4, (alu rD (srl c (R c rA) (R c rB) cu), m))
  | 27 => (4, (alu rD (sra c (R c rA) (R c rB) cu), m))
  | 28 => (4, (alu rD (ror c (R c rA) (R c rB) cu), m))
  | 29 => (4, (alu rD (rorc c (R c rA) cu), m))
  | 30 => (4, (alu rD (rol c (R c rA) (R c rB) cu), m))
  | 31 => (4, (alu rD (rolc c (R c rA) cu), m))
  | 32 => (4, (execMul c (R c rA) (R c rB), m))
  | 33 => (4, (execMulu c (R c rA) (R c rB), m))
  | 34 => (4, (execDiv c (R c rA) (R c rB), m))
  | 35 => (4, (execDivu c (R c rA) (R c rB), m))
  | 36 => (4, (moveFromCE c rD rB, m))
  | 37 => (4, (moveToCE c rD rB, m))
  | 40 => (4, (setR c rD (SR c rB), m))
  | 41 =>
      let c := setSR c rB (R c rA) in
      (4, (if rB =? 0 then unpackSR0 c else c, m))
  | 42 => (4, (with_T c (of_bool (conditional c rB)), m))
  | 43 => (4, (if conditional c rB then setR c rD (R c rA) else c, m))
  | 44 => (4, (alu rD (extsb c (R c rA) cu), m))
  | 45 => (4, (alu rD (extsh c (R c rA) cu), m))
  | 46 => (4, (alu rD (extzb c (R c rA) cu), m))
  | 47 => (4, (alu rD (extzh c (R c rA) cu), m))
  | 48 => (4, miu_load readU8 c m (R c rA) (fun c v => setR c rD v))
  | 49 => (4, miu_load readU32 c m (R c rA) (fun c v => setR c rD v))
  | 52 => (4, miu_store writeU8 c m (R c rA) (band (R c rD) 255))
  | 53 => (4, miu_store writeU32 c m (R c rA) (R c rD))
  | 56 => (4, (alu rD (sll c (R c rA) rB cu), m))
  | 58 => (4, (alu rD (srl c (R c rA) rB cu), m))
  | 59 => (4, (alu rD (sra c (R c rA) rB cu), m))
  | 60 => (4, (alu rD (ror c (R c rA) rB cu), m))
  | 61 => (4, (alu rD (rorc c (R c rA) true), m))
  | 62 => (4, (alu rD (rol c (R c rA) rB cu), m))
  | 63 => (4, (alu rD (rolc c (R c rA) true), m))
  | _ => (4, (c, m))
  end.

Definition execIForm (c : t) (m : option M) (insn : Z)
  : Z * (t * option M) :=
  let OP := band (shr insn 27) 31 in
  let rD := band (shr insn 22) 31 in
  let func3 := band (shr insn 19) 7 in
  let imm16 := signExtend (band (shr insn 1) 65535) 16 in
  match OP with
  | 1 =>
      match func3 with
      | 0 => (4, (alu rD (add c (R c rD) imm16 false), m))
      | 2 => (4, (snd (sub c (R c rD) imm16 true), m))
      | 4 => (4, (alu rD (bitOp c (R c rD) imm16 op_and false), m))
      | 5 => (4, (alu rD (bitOp c (R c rD) imm16 op_or false), m))
      | 6 => (4, (setR c rD imm16, m))
      | _ => (4, (c, m))
      end
  | 5 =>
      match func3 with
      | 0 => (4, (alu rD (add c (R c rD) (shl imm16 16) false), m))
      | 2 => (4, (snd (sub c (R c rD) (shl imm16 16) true), m))
      | 4 => (4, (alu rD (bitOp c (R c rD) (shl imm16 16) op_and false), m))
      | 5 => (4, (alu rD (bitOp c (R c rD) (shl imm16 16) op_or false), m))
      | 6 => (4, (setR c rD (u32 (shl imm16 16)), m))
      | _ => (4, (c, m))
      end
  | _ => (4, (c, m))
  end.

Definition execJForm (c : t) (m : option M) (insn : Z)
  : Z * (t * option M) :=
  let LK := band insn 1 in
  let disp24 := band (shr insn 1) 16777215 in
  let target := u32 (bor (band (pc c) 4261412864) (shl disp24 1)) in
  let c := if truthy LK then setR c 3 (u32 (pc c + 4)) else c in
  (0, (with_pc c target, m)).

Definition execBForm (c : t) (m : option M) (insn : Z)
  : Z * (t * option M) :=
  let LK := band insn 1 in
  let BC := band (shr insn 23) 15 in
  let disp_high := band (shr insn 9) 16383 in
  let disp_low := band (shr insn 1) 255 in
  let disp22 := bor (shl disp_high 8) disp_low in
  let signed_disp := signExtend disp22 22 in
  let target := u32 (pc c + shl signed_disp 1) in
  if conditional c BC then
    let c := if truthy LK then setR c 3 (u32 (pc c + 4)) else c in
    (0, (with_pc c target, m))
  else (4, (c, m)).

(** The load/store selection shared by the RIX form (on [func3]) and the
    memory form (on the low bits of [OP]). *)
Definition loadstore (sel : Z) (c : t) (mem : M) (rD addr : Z) : t * M :=
  match sel with
  | 0 => let '(v, mem) := readU32 mem addr in (setR c rD v, mem)
  | 1 => let '(v, mem) := readU16 mem addr in
         (setR c rD (signExtend v 16), mem)
  | 2 => let '(v, mem) := readU16 mem addr in (setR c rD v, mem)
  | 3 => let '(v, mem) := readU8 mem addr in
         (setR c rD (signExtend v 8), mem)
  | 4 => (c, writeU32 mem addr (R c rD))
  | 5 => (c, writeU16 mem addr (R c rD))
  | 6 => let '(v, mem) := readU8 mem addr in (setR c rD v, mem)
  | 7 => (c, writeU8 mem addr (R c rD))
  | _ => (c, mem)
  end.

Definition execRixForm (c : t) (m : option M) (insn : Z)
  : Z * (t * option M) :=
  let OP := band (shr insn 27) 31 in
  let rD := band (shr insn 22) 31 in
  let rA := band (shr insn 17) 31 in
  let imm12 := signExtend (band (shr insn 5) 4095) 12 in
  let func3 := band (shr insn 2) 7 in
  let addr := u32 (R c rA + imm12) in
  match m with
  | None => (4, (c, None))
  | Some mem =>
      let '(c, mem) := loadstore func3 c mem rD addr in
      let c := if OP =? 3 then setR c rA addr else c in
      (4, (c, Some mem))
  end.

Definition execMemoryForm (c : t) (m : option M) (insn : Z)
  : Z * (t * option M) :=
  let OP := band (shr insn 27) 31 in
  let rD := band (shr insn 22) 31 in
  let rA := band (shr insn 17) 31 in
  let imm15 := signExtend (band (shr insn 2) 32767) 15 in
  let addr := u32 (R c rA + imm15) in
  match m with
  | None => (4, (c, None))
  | Some mem =>
      let '(c, mem) :=
        if (16 <=? OP) && (OP <=? 23) then loadstore (OP - 16) c mem rD addr
        else (c, mem) in
      (4, (c, Some mem))
  end.

Definition exec16 (c : t) (m : option M) (insn : Z)
  : Z * (t * option M) :=
  let OP := band (shr insn 13) 7 in
  let rD := band (shr insn 1) 15 in
  let rA := band (shr insn 5) 15 in
  match OP with
  | 0 =>
      let func4 := band (shr insn 9) 15 in
      match func4 with
      | 3 => (2, (setR c rD (R c rA), m))
      | 4 => (0, (with_pc c (R c rA), m))
      | 5 =>
          let c := setR c 3 (u32 (pc c + 2)) in
          (0, (with_pc c (R c rA), m))
      | _ => (2, (c, m))
      end
  | 2 =>
      let func4 := band (shr insn 9) 15 in
      let H := band (shr insn 5) 1 in
      let targetReg := rD + (if truthy H then 16 else 0) in
      let spIdx := band (shr insn 6) 7 in
      match func4 with
      | 0 => (2, (alu rD (add c (R c rD) (R c rA) true), m))
      | 1 =>
          let imm5 := band (shr insn 5) 31 in
          (2, (alu rD (add c (R c rD) imm5 true), m))
      | 2 =>
          let imm5 := band (shr insn 5) 31 in
          (2, (snd (sub c (R c rD) imm5 true), m))
      | 10 =>
          (2, miu_load readU32 c m (R c spIdx)
                (fun c v =>
                   let c := setR c targetReg v in
                   setR c spIdx (u32 (R c spIdx + 4))))
      | 14 =>
          let c := setR c spIdx (u32 (R c spIdx - 4)) in
          (2, miu_store writeU32 c m (R c spIdx) (R c targetReg))
      | _ => (2, (c, m))
      end
  | 3 =>
      let imm5 := band (shr insn 4) 31 in
      let addr := u32 (R c rA + shl imm5 2) in
      if truthy (band (shr insn 12) 1) then
        (2, miu_store writeU32 c m addr (R c rD))
      else (2, miu_load readU32 c m addr (fun c v => setR c rD v))
  | 7 =>
      let imm5 := band (shr insn 5) 31 in
      let addr := u32 (R c 2 + shl imm5 2) in
      if truthy (band (shr insn 10) 1) then
        (2, miu_store writeU32 c m addr (R c rD))
      else (2, miu_load readU32 c m addr (fun c v => setR c rD v))
  | _ => (2, (c, m))
  end.

(** *** The execution cycle *)

(** Which executor the [switch (OP)] of [step] selects; [None] is its
    [default:] branch. *)
Inductive form := SpForm | IForm | JForm | RixForm | BForm | MemoryForm
                | Compact16.

Definition dispatch (OP : Z) : option form :=
  match OP with
  | 0 => Some SpForm
  | 1 | 5 => Some IForm
  | 2 => Some JForm
  | 3 | 7 => Some RixForm
  | 4 => Some BForm
  | 16 | 17 | 18 | 19 | 20 | 21 | 22 | 23 => Some MemoryForm
  | 8 | 9 | 10 | 11 | 12 | 13 | 14 | 15
  | 24 | 25 | 26 | 27 | 28 | 29 | 30 | 31 => Some Compact16
  | _ => None
  end.

Definition execute (f : option form) (c : t) (m : option M) (encoded : Z)
  : Z * (t * option M) :=
  match f with
  | Some SpForm => execSpForm c m encoded
  | Some IForm => execIForm c m encoded
  | Some JForm => execJForm c m encoded
  | Some RixForm => execRixForm c m encoded
  | Some BForm => execBForm c m encoded
  | Some MemoryForm => execMemoryForm c m encoded
  | Some Compact16 => exec16 c m (band encoded 65535)
  | None => (4, (c, m))
  end.

Definition step (c : t) (m : option M) : bool * (t * option M) :=
  if halted c then (false, (c, m))
  else
    match m with
    | None => (false, (c, m))
    | Some mem =>
        let '(encoded, mem) := readU32 mem (pc c) in
        let OP := band (shr encoded 27) 31 in
        let '(result, (c, m)) :=
          execute (dispatch OP) c (Some mem) encoded in
        let c :=
          if negb (result =? 0) then with_pc c (u32 (pc c + result))
          else c in
        let c := with_cycles c (cycles c + 1) in
        let c := with_instructions c (instructions c + 1) in
        (true, (c, m))
    end.

(** [run(maxSteps)]: the number of steps taken. *)
Fixpoint run (maxSteps : nat) (c : t) (m : option M)
  : Z * (t * option M) :=
  match maxSteps with
  | O => (0, (c, m))
  | S k =>
      if halted c then (0, (c, m))
      else
        let '(ok, (c', m')) := step c m in
        if ok then
          let '(n, cm) := run k c' m' in (n + 1, cm)
        else (0, (c', m'))
  end.

End Exec.

End CPU.

(** ** Backing-array regions ([hyperscan/memory/arraymemoryregion.js])

    One [ArrayBuffer] seen through 8, 16 and 32-bit views.  The buffer is
    kept as a finite map from byte index to byte, a byte that was never
    written being zero; the views are little-endian.  Access statistics and
    the debugging hooks are not modelled. *)

Module ArrayMemoryRegion.

Import JS.

Record t := mk {
  u8 : gmap Z Z;
  byteLength : Z;
  size : Z;
  writable : bool
}.

(** The constructor; [None] is its [TypeError]. *)
Definition create (sizeBytes : Z) : option t :=
  if sizeBytes <=? 0 then None
  else Some (mk ∅ (band (sizeBytes + 3) (bnot 3)) sizeBytes true).

Definition u8_length (a : t) : Z := byteLength a.
Definition u16_length (a : t) : Z := byteLength a / 2.
Definition u32_length (a : t) : Z := byteLength a / 4.

(** Element [i] of each view. *)
Definition byte (a : t) (i : Z) : Z := default 0 (u8 a !! i).
Definition half (a : t) (i : Z) : Z :=
  byte a (2 * i) + 256 * byte a (2 * i + 1).
Definition word (a : t) (i : Z) : Z :=
  byte a (4 * i) + 256 * byte a (4 * i + 1) + 65536 * byte a (4 * i + 2)
  + 16777216 * byte a (4 * i + 3).

Definition with_u8 (a : t) (x : gmap Z Z) : t :=
  mk x (byteLength a) (size a) (writable a).

Definition set_byte (a : t) (i v : Z) : t :=
  with_u8 a (<[i := v mod 256]> (u8 a)).
Definition set_half (a : t) (i v : Z) : t :=
  let a := set_byte a (2 * i) v in
  set_byte a (2 * i + 1) (v / 256).
Definition set_word (a : t) (i v : Z) : t :=
  let a := set_byte a (4 * i) v in
  let a := set_byte a (4 * i + 1) (v / 256) in
  let a := set_byte a (4 * i + 2) (v / 65536) in
  set_byte a (4 * i + 3) (v / 16777216).

Definition readU8 (a : t) (offset : Z) : Z * t :=
  let offset := u32 offset in
  (byte a (band offset (u8_length a - 1)), a).

Definition readU16 (a : t) (offset : Z) : Z * t :=
  let offset := shl (shr offset 1) 1 in
  let index := band (shr offset 1) (u16_length a - 1) in
  (half a index, a).

Definition readU32 (a : t) (offset : Z) : Z * t :=
  let offset := shl (shr offset 2) 2 in
  let index := band (shr offset 2) (u32_length a - 1) in
  (u32 (word a index), a).

Definition writeU8 (a : t) (offset value : Z) : t :=
  if negb (writable a) then a
  else
    let offset := u32 offset in
    let value := band value 255 in
    set_byte a (band offset (u8_length a - 1)) value.

Definition writeU16 (a : t) (offset value : Z) : t :=
  if negb (writable a) then a
  else
    let offset := shl (shr offset 1) 1 in
    let value := band value 65535 in
    let index := band (shr offset 1) (u16_length a - 1) in
    set_half a index value.

Definition writeU32 (a : t) (offset value : Z) : t :=
  if negb (writable a) then a
  else
    let offset := shl (shr offset 2) 2 in
    let value := u32 value in
    let index := band (shr offset 2) (u32_length a - 1) in
    set_word a index value.

(** [load(data, offset)] for a [Uint8Array]: [this.u8.set(data, offset)],
    which throws ([None]) when the data does not fit. *)
Fixpoint copy (m : gmap Z Z) (data : list Z) (offset : Z) : gmap Z Z :=
  match data with
  | [] => m
  | b :: rest => copy (<[offset := b mod 256]> m) rest (offset + 1)
  end.

Definition load (a : t) (data : list Z) (offset : Z) : option t :=
  if (offset <? 0) || (u8_length a <? offset + Z.of_nat (length data))
  then None
  else Some (with_u8 a (copy (u8 a) data offset)).

#[export] Instance region : MemoryRegion t := {
  readU8 := readU8;
  readU16 := readU16;
  readU32 := readU32;
  writeU8 := writeU8;
  writeU16 := writeU16;
  writeU32 := writeU32
}.

(** *** Block operations and analysis

    None of them consults [writable]. *)

(** Element [i] of the byte view as JavaScript reads it: [None] is the
    [undefined] of an index outside the view. *)
Definition u8_at (a : t) (i : Z) : option Z :=
  if (0 <=? i) && (i <? u8_length a) then Some (byte a i) else None.

(** [this.u32.fill(value, start, end)] for bounds that are not negative:
    both are clamped to the length of the view. *)
Fixpoint fill_from (a : t) (value k : Z) (n : nat) : t :=
  match n with
  | O => a
  | S n => fill_from (set_word a k value) value (k + 1) n
  end.

Definition u32_fill (a : t) (value start final : Z) : t :=
  let first := Z.min start (u32_length a) in
  let last := Z.min final (u32_length a) in
  fill_from a (u32 value) first (Z.to_nat (last - first)).

(** [fill(value, size, offset)]; [size] is [None] when it is left
    [undefined]. *)
Definition fill (a : t) (value : Z) (size : option Z) (offset : Z) : t :=
  let value := u32 value in
  let start := shr offset 2 in
  let count :=
    match size with
    | Some size => shr size 2
    | None => u32_length a
    end in
  u32_fill a value start (start + count).

(** [clear(offset, size)]; the defaults are [0] and [this.size]. *)
Definition clear (a : t) (offset size : Z) : t :=
  let start := shr offset 2 in
  let count := shr size 2 in
  u32_fill a 0 start (start + count).

(** A bound of [TypedArray.prototype.slice]: a negative one counts from the
    end, and both are clamped to the view. *)
Definition relativeIndex (len i : Z) : Z :=
  if i <? 0 then Z.max (len + i) 0 else Z.min i len.

(** [extract(offset, size)]: [this.u8.slice(offset, offset + size)]. *)
Definition extract (a : t) (offset size : Z) : list Z :=
  let k := relativeIndex (u8_length a) offset in
  let final := relativeIndex (u8_length a) (offset + size) in
  byte a <$> seqZ k (final - k).

(** The inner loop of [findPattern]: the pattern matches the bytes from
    index [k] on. *)
Fixpoint matchesAt (a : t) (pattern : list Z) (k : Z) : bool :=
  match pattern with
  | [] => true
  | p :: rest =>
      if bool_decide (u8_at a k = Some p) then matchesAt a rest (k + 1)
      else false
  end.

(** [findPattern(pattern, startOffset)]: the loop runs over
    [startOffset <= i < this.u8.length - pattern.length]. *)
Definition findPattern (a : t) (pattern : list Z) (startOffset : Z)
  : list Z :=
  let patternLength := Z.of_nat (length pattern) in
  List.filter (matchesAt a pattern)
    (seqZ startOffset (u8_length a - patternLength - startOffset)).

Definition isValidOffset (a : t) (offset size : Z) : bool :=
  (0 <=? offset) && (offset + size <=? ArrayMemoryRegion.size a).

Definition makeReadOnly (a : t) : t :=
  mk (u8 a) (byteLength a) (size a) false.
Definition makeReadWrite (a : t) : t :=
  mk (u8 a) (byteLength a) (size a) true.

End ArrayMemoryRegion.

(** ** The memory interface unit
       ([hyperscan/memory/segmentedmemoryregion.js])

    256 segment slots, each empty or holding a region.  The per-segment
    access statistics are not modelled. *)

Module MIU.

Import JS.

Section Segments.

Context {R : Type} `{MemoryRegion R}.

Record t := mk { segments : list (option R) }.

Definition create : t := mk (replicate 256 None).

(** [setRegion]; [None] is its [RangeError]. *)
Definition setRegion (m : t) (segment : Z) (region : option R)
  : option t :=
  if (segment <? 0) || (255 <? segment) then None
  else Some (mk (<[Z.to_nat segment := region]> (segments m))).

Definition getRegion (m : t) (segment : Z) : option R :=
  mjoin (segments m !! Z.to_nat segment).

Definition getSegment (address : Z) : Z := band (shr address 24) 255.
Definition getOffset (address : Z) : Z := band address 16777215.

Definition read (rd : R -> Z -> Z * R) (m : t) (address : Z) : Z * t :=
  let segment := getSegment address in
  let offset := getOffset address in
  match getRegion m segment with
  | None => (0, m)
  | Some region =>
      let '(v, region) := rd region offset in
      (v, mk (<[Z.to_nat segment := Some region]> (segments m)))
  end.

Definition write (wr : R -> Z -> Z -> R) (m : t) (address value : Z)
  : t :=
  let segment := getSegment address in
  let offset := getOffset address in
  match getRegion m segment with
  | None => m
  | Some region =>
      mk (<[Z.to_nat segment := Some (wr region offset value)]>
            (segments m))
  end.

#[export] Instance region : MemoryRegion t := {
  readU8 := read readU8;
  readU16 := read readU16;
  readU32 := read readU32;
  writeU8 := write writeU8;
  writeU16 := write writeU16;
  writeU32 := write writeU32
}.


Definition makeAddress (segment offset : Z) : Z :=
  bor (shl (band segment 255) 24) (band offset 16777215).

(** The loop of [memcpy]; [i] is its counter, [n] the rounds left. *)
Fixpoint memcpy_from (m : t) (destAddr srcAddr i : Z) (n : nat) : t :=
  match n with
  | O => m
  | S n =>
      let '(byte, m) := read readU8 m (srcAddr + i) in
      let m := write writeU8 m (destAddr + i) byte in
      memcpy_from m destAddr srcAddr (i + 1) n
  end.

(** [memcpy(destAddr, srcAddr, size)]: the number of bytes copied, and the
    unit. *)
Definition memcpy (m : t) (destAddr srcAddr size : Z) : Z * t :=
  let rounds := Z.to_nat size in
  (Z.of_nat rounds, memcpy_from m destAddr srcAddr 0 rounds).

Fixpoint memset_from (m : t) (address pattern i : Z) (n : nat) : t :=
  match n with
  | O => m
  | S n =>
      memset_from (write writeU8 m (address + i) pattern) address pattern
        (i + 1) n
  end.

Definition memset (m : t) (address pattern size : Z) : t :=
  let pattern := band pattern 255 in
  memset_from m address pattern 0 (Z.to_nat size).

End Segments.

Arguments t R : clear implicits.

End MIU.

(** ** Memory-mapped I/O ([hyperscan/io/io.js])

    A handler is a pair of closures over the peripherals.  The peripherals
    reachable from the closures form the world [W] that the region carries
    along; a closure that [registerHandler] supplies by default (it accesses
    the region's own cell) is [None].  Each call of a handler closure is
    recorded in a trace. *)

Module IOMemoryRegion.

Import JS.

Inductive call :=
| ReadFn (wordOffset : Z)
| WriteFn (wordOffset : Z) (value : Z).

Section World.

Context {W : Type}.

Record handler := mkHandler {
  readFn : option (W -> Z * W);
  writeFn : option (Z -> W -> W)
}.

Record t := mk {
  registers : gmap Z Z;
  size : Z;
  handlers : gmap Z handler;
  world : W;
  calls : list call
}.

Definition create (sizeBytes : Z) (w : W) : t := mk ∅ sizeBytes ∅ w [].

Definition with_registers (io : t) (x : gmap Z Z) : t :=
  mk x (size io) (handlers io) (world io) (calls io).
Definition with_handlers (io : t) (x : gmap Z handler) : t :=
  mk (registers io) (size io) x (world io) (calls io).
Definition with_world (io : t) (x : W) : t :=
  mk (registers io) (size io) (handlers io) x (calls io).
Definition record (io : t) (e : call) : t :=
  mk (registers io) (size io) (handlers io) (world io) (calls io ++ [e]).

Definition wordOffsetOf (io : t) (offset : Z) : Z :=
  band (shr offset 2) (shr (size io) 2 - 1).

(** [this.registers[wordOffset]] of the [Uint32Array]. *)
Definition cell (io : t) (wordOffset : Z) : Z :=
  default 0 (registers io !! wordOffset).
Definition set_cell (io : t) (wordOffset v : Z) : t :=
  if (0 <=? wordOffset) && (wordOffset <? shr (size io) 2)
  then with_registers io (<[wordOffset := u32 v]> (registers io))
  else io.

Definition registerHandler (io : t) (offset : Z)
    (rf : option (W -> Z * W)) (wf : option (Z -> W -> W)) : t :=
  let wordOffset := wordOffsetOf io offset in
  with_handlers io (<[wordOffset := mkHandler rf wf]> (handlers io)).

Definition unregisterHandler (io : t) (offset : Z) : t :=
  let wordOffset := wordOffsetOf io offset in
  with_handlers io (delete wordOffset (handlers io)).

Definition readU32 (io : t) (offset : Z) : Z * t :=
  let wordOffset := wordOffsetOf io offset in
  match handlers io !! wordOffset with
  | Some h =>
      let io := record io (ReadFn wordOffset) in
      match readFn h with
      | Some f =>
          let '(v, w) := f (world io) in (u32 v, with_world io w)
      | None => (u32 (cell io wordOffset), io)
      end
  | None => (u32 (cell io wordOffset), io)
  end.

Definition writeU32 (io : t) (offset value : Z) : t :=
  let value := u32 value in
  let wordOffset := wordOffsetOf io offset in
  match handlers io !! wordOffset with
  | Some h =>
      let io := record io (WriteFn wordOffset value) in
      match writeFn h with
      | Some f => with_world io (f value (world io))
      | None => set_cell io wordOffset (u32 value)
      end
  | None => set_cell io wordOffset value
  end.

Definition readU8 (io : t) (offset : Z) : Z * t :=
  let '(word, io) := readU32 io (band offset (bnot 3)) in
  let shift := band offset 3 * 8 in
  (band (shr word shift) 255, io).

Definition readU16 (io : t) (offset : Z) : Z * t :=
  let '(word, io) := readU32 io (band offset (bnot 3)) in
  let shift := band offset 2 * 8 in
  (band (shr word shift) 65535, io).

Definition writeU8 (io : t) (offset value : Z) : t :=
  let addr := band offset (bnot 3) in
  let shift := band offset 3 * 8 in
  let '(word, io) := readU32 io addr in
  let word := bor (band word (bnot (shl 255 shift)))
                  (shl (band value 255) shift) in
  writeU32 io addr word.

Definition writeU16 (io : t) (offset value : Z) : t :=
  let addr := band offset (bnot 3) in
  let shift := band offset 2 * 8 in
  let '(word, io) := readU32 io addr in
  let word := bor (band word (bnot (shl 65535 shift)))
                  (shl (band value 65535) shift) in
  writeU32 io addr word.

#[export] Instance region : MemoryRegion t := {
  readU8 := readU8;
  readU16 := readU16;
  readU32 := readU32;
  writeU8 := writeU8;
  writeU16 := writeU16;
  writeU32 := writeU32
}.

(** The calls of write closures in a trace, in order. *)
Definition writeCalls (l : list call) : list (Z * Z) :=
  omap (fun e => match e with
                 | WriteFn o v => Some (o, v)
                 | ReadFn _ => None
                 end) l.

End World.

Arguments t W : clear implicits.
Arguments handler W : clear implicits.

End IOMemoryRegion.

(** ** The interrupt controller *)

Module INTC.

Import JS.

Record t := mk {
  INT_MASK : Z;
  INT_PRIO : Z;
  INT_STATUS : Z;
  INT_ACK : Z;
  triggered : Z;
  processed : Z;
  blocked : Z
}.

Definition create : t := mk 0 0 0 0 0 0 0.
Definition reset (_ : t) : t := create.

Definition with_MASK (i : t) (x : Z) : t :=
  mk x (INT_PRIO i) (INT_STATUS i) (INT_ACK i) (triggered i) (processed i)
     (blocked i).
Definition with_PRIO (i : t) (x : Z) : t :=
  mk (INT_MASK i) x (INT_STATUS i) (INT_ACK i) (triggered i) (processed i)
     (blocked i).
Definition with_STATUS (i : t) (x : Z) : t :=
  mk (INT_MASK i) (INT_PRIO i) x (INT_ACK i) (triggered i) (processed i)
     (blocked i).
Definition with_triggered (i : t) (x : Z) : t :=
  mk (INT_MASK i) (INT_PRIO i) (INT_STATUS i) (INT_ACK i) x (processed i)
     (blocked i).
Definition with_processed (i : t) (x : Z) : t :=
  mk (INT_MASK i) (INT_PRIO i) (INT_STATUS i) (INT_ACK i) (triggered i) x
     (blocked i).
Definition with_blocked (i : t) (x : Z) : t :=
  mk (INT_MASK i) (INT_PRIO i) (INT_STATUS i) (INT_ACK i) (triggered i)
     (processed i) x.

(** [trigger(cpu, irqNumber)]; [cpu] may be [null].  The CPU comes back
    after [cpu.exception(irqNumber)] when the line is enabled, untouched
    otherwise. *)
Definition trigger (i : t) (cpu : option CPU.t) (irqNumber : Z)
  : t * option CPU.t :=
  if (irqNumber <? 0) || (31 <? irqNumber) then (i, cpu)
  else
    let i := with_triggered i (triggered i + 1) in
    let i := with_STATUS i (bor (INT_STATUS i) (shl 1 irqNumber)) in
    let isEnabled := negb (band (INT_MASK i) (shl 1 irqNumber) =? 0) in
    match cpu with
    | Some c =>
        if isEnabled then
          (with_processed i (processed i + 1),
           Some (CPU.exception c irqNumber))
        else (with_blocked i (blocked i + 1), cpu)
    | None => (with_blocked i (blocked i + 1), cpu)
    end.

Definition readU32 (i : t) (address : Z) : Z * t :=
  let offset := band address 65535 in
  match offset with
  | 0 => (INT_MASK i, i)
  | 4 => (INT_PRIO i, i)
  | 8 => (INT_STATUS i, i)
  | 12 => (0, i)
  | _ => (0, i)
  end.

Definition writeU32 (i : t) (address value : Z) : t :=
  let offset := band address 65535 in
  match offset with
  | 0 => with_MASK i value
  | 4 => with_PRIO i value
  | 8 => i
  | 12 => with_STATUS i (band (INT_STATUS i) (bnot value))
  | _ => i
  end.

Definition readU8 (i : t) (offset : Z) : Z * t :=
  let '(word, i) := readU32 i (band offset (bnot 3)) in
  let shift := band offset 3 * 8 in
  (band (shr word shift) 255, i).

Definition readU16 (i : t) (offset : Z) : Z * t :=
  let '(word, i) := readU32 i (band offset (bnot 3)) in
  let shift := band offset 2 * 8 in
  (band (shr word shift) 65535, i).

Definition writeU8 (i : t) (offset value : Z) : t :=
  let addr := band offset (bnot 3) in
  let shift := band offset 3 * 8 in
  let '(word, i) := readU32 i addr in
  let word := bor (band word (bnot (shl 255 shift)))
                  (shl (band value 255) shift) in
  writeU32 i addr word.

Definition writeU16 (i : t) (offset value : Z) : t :=
  let addr := band offset (bnot 3) in
  let shift := band offset 2 * 8 in
  let '(word, i) := readU32 i addr in
  let word := bor (band word (bnot (shl 65535 shift)))
                  (shl (band value 65535) shift) in
  writeU32 i addr word.

#[export] Instance region : MemoryRegion t := {
  readU8 := readU8;
  readU16 := readU16;
  readU32 := readU32;
  writeU8 := writeU8;
  writeU16 := writeU16;
  writeU32 := writeU32
}.

Definition enableIRQ (i : t) (irqNumber : Z) : t :=
  if (0 <=? irqNumber) && (irqNumber <? 32)
  then with_MASK i (bor (INT_MASK i) (shl 1 irqNumber))
  else i.


Definition isIRQEnabled (i : t) (irqNumber : Z) : bool :=
  if (0 <=? irqNumber) && (irqNumber <? 32)
  then band (shr (INT_MASK i) irqNumber) 1 =? 1
  else false.

Definition disableIRQ (i : t) (irqNumber : Z) : t :=
  if (0 <=? irqNumber) && (irqNumber <? 32)
  then with_MASK i (band (INT_MASK i) (bnot (shl 1 irqNumber)))
  else i.


End INTC.

(** ** The UART ([hyperscan/io/uart.js])

    The transmit path restores TX-empty from a timer callback; the pending
    callbacks are counted and [txTimeout] runs one of them.  The bytes
    handed to [onTXData] and [onRXData] are appended to traces. *)

Module UART.

Import JS.

Definition STATUS_TX_EMPTY : Z := 128.
Definition STATUS_RX_READY : Z := 64.
Definition STATUS_TX_IDLE : Z := 16.

Record t := mk {
  buffer : list Z;
  TX_BUF : Z;
  RX_BUF : Z;
  CONTROL : Z;
  STATUS : Z;
  BAUD : Z;
  rxQueue : list Z;
  bytesTransmitted : Z;
  bytesReceived : Z;
  framesTransmitted : Z;
  pendingTimeouts : nat;
  txData : list Z;
  rxData : list Z
}.

Definition create : t := mk [] 0 0 0 144 0 [] 0 0 0 O [] [].

Definition with_buffer (u : t) (x : list Z) : t :=
  mk x (TX_BUF u) (RX_BUF u) (CONTROL u) (STATUS u) (BAUD u) (rxQueue u)
     (bytesTransmitted u) (bytesReceived u) (framesTransmitted u)
     (pendingTimeouts u) (txData u) (rxData u).
Definition with_RX_BUF (u : t) (x : Z) : t :=
  mk (buffer u) (TX_BUF u) x (CONTROL u) (STATUS u) (BAUD u) (rxQueue u)
     (bytesTransmitted u) (bytesReceived u) (framesTransmitted u)
     (pendingTimeouts u) (txData u) (rxData u).
Definition with_CONTROL (u : t) (x : Z) : t :=
  mk (buffer u) (TX_BUF u) (RX_BUF u) x (STATUS u) (BAUD u) (rxQueue u)
     (bytesTransmitted u) (bytesReceived u) (framesTransmitted u)
     (pendingTimeouts u) (txData u) (rxData u).
Definition with_STATUS (u : t) (x : Z) : t :=
  mk (buffer u) (TX_BUF u) (RX_BUF u) (CONTROL u) x (BAUD u) (rxQueue u)
     (bytesTransmitted u) (bytesReceived u) (framesTransmitted u)
     (pendingTimeouts u) (txData u) (rxData u).
Definition with_BAUD (u : t) (x : Z) : t :=
  mk (buffer u) (TX_BUF u) (RX_BUF u) (CONTROL u) (STATUS u) x (rxQueue u)
     (bytesTransmitted u) (bytesReceived u) (framesTransmitted u)
     (pendingTimeouts u) (txData u) (rxData u).
Definition with_rxQueue (u : t) (x : list Z) : t :=
  mk (buffer u) (TX_BUF u) (RX_BUF u) (CONTROL u) (STATUS u) (BAUD u) x
     (bytesTransmitted u) (bytesReceived u) (framesTransmitted u)
     (pendingTimeouts u) (txData u) (rxData u).
Definition with_bytesTransmitted (u : t) (x : Z) : t :=
  mk (buffer u) (TX_BUF u) (RX_BUF u) (CONTROL u) (STATUS u) (BAUD u)
     (rxQueue u) x (bytesReceived u) (framesTransmitted u)
     (pendingTimeouts u) (txData u) (rxData u).
Definition with_bytesReceived (u : t) (x : Z) : t :=
  mk (buffer u) (TX_BUF u) (RX_BUF u) (CONTROL u) (STATUS u) (BAUD u)
     (rxQueue u) (bytesTransmitted u) x (framesTransmitted u)
     (pendingTimeouts u) (txData u) (rxData u).
Definition with_framesTransmitted (u : t) (x : Z) : t :=
  mk (buffer u) (TX_BUF u) (RX_BUF u) (CONTROL u) (STATUS u) (BAUD u)
     (rxQueue u) (bytesTransmitted u) (bytesReceived u) x
     (pendingTimeouts u) (txData u) (rxData u).
Definition with_pendingTimeouts (u : t) (x : nat) : t :=
  mk (buffer u) (TX_BUF u) (RX_BUF u) (CONTROL u) (STATUS u) (BAUD u)
     (rxQueue u) (bytesTransmitted u) (bytesReceived u)
     (framesTransmitted u) x (txData u) (rxData u).
Definition with_txData (u : t) (x : list Z) : t :=
  mk (buffer u) (TX_BUF u) (RX_BUF u) (CONTROL u) (STATUS u) (BAUD u)
     (rxQueue u) (bytesTransmitted u) (bytesReceived u)
     (framesTransmitted u) (pendingTimeouts u) x (rxData u).
Definition with_rxData (u : t) (x : list Z) : t :=
  mk (buffer u) (TX_BUF u) (RX_BUF u) (CONTROL u) (STATUS u) (BAUD u)
     (rxQueue u) (bytesTransmitted u) (bytesReceived u)
     (framesTransmitted u) (pendingTimeouts u) (txData u) x.

Definition flushToConsole (u : t) : t :=
  match buffer u with
  | [] => u
  | _ => with_buffer u []
  end.

Definition processTX (u : t) (byte : Z) : t :=
  let u := with_buffer u (buffer u ++ [byte]) in
  let u := with_bytesTransmitted u (bytesTransmitted u + 1) in
  let u :=
    if (byte =? 10) || (255 <? Z.of_nat (length (buffer u))) then
      let u := flushToConsole u in
      with_framesTransmitted u (framesTransmitted u + 1)
    else u in
  with_txData u (txData u ++ [byte]).

Definition readU32 (u : t) (address : Z) : Z * t :=
  let offset := band address 65535 in
  match offset with
  | 0 =>
      let data := RX_BUF u in
      (data, with_STATUS u (band (STATUS u) (bnot STATUS_RX_READY)))
  | 8 => (CONTROL u, u)
  | 12 => (STATUS u, u)
  | 16 => (BAUD u, u)
  | _ => (0, u)
  end.

Definition writeU32 (u : t) (address value : Z) : t :=
  let offset := band address 65535 in
  match offset with
  | 0 =>
      let byte := band value 255 in
      let u := processTX u byte in
      let u := with_STATUS u (band (STATUS u) (bnot STATUS_TX_EMPTY)) in
      with_pendingTimeouts u (S (pendingTimeouts u))
  | 8 => with_CONTROL u (u32 value)
  | 12 => u
  | 16 => with_BAUD u (u32 value)
  | _ => u
  end.

(** One pending [setTimeout] callback of the transmit path runs. *)
Definition txTimeout (u : t) : t :=
  match pendingTimeouts u with
  | O => u
  | S k =>
      let u := with_pendingTimeouts u k in
      with_STATUS u (bor (STATUS u) STATUS_TX_EMPTY)
  end.

Definition readU8 (u : t) (offset : Z) : Z * t :=
  let '(word, u) := readU32 u (band offset (bnot 3)) in
  let shift := band offset 3 * 8 in
  (band (shr word shift) 255, u).

Definition readU16 (u : t) (offset : Z) : Z * t :=
  let '(word, u) := readU32 u (band offset (bnot 3)) in
  let shift := band offset 2 * 8 in
  (band (shr word shift) 65535, u).

Definition writeU8 (u : t) (offset value : Z) : t :=
  let addr := band offset (bnot 3) in
  let shift := band offset 3 * 8 in
  let '(word, u) := readU32 u addr in
  let word := bor (band word (bnot (shl 255 shift)))
                  (shl (band value 255) shift) in
  writeU32 u addr word.

Definition writeU16 (u : t) (offset value : Z) : t :=
  let addr := band offset (bnot 3) in
  let shift := band offset 2 * 8 in
  let '(word, u) := readU32 u addr in
  let word := bor (band word (bnot (shl 65535 shift)))
                  (shl (band value 65535) shift) in
  writeU32 u addr word.

#[export] Instance region : MemoryRegion t := {
  readU8 := readU8;
  readU16 := readU16;
  readU32 := readU32;
  writeU8 := writeU8;
  writeU16 := writeU16;
  writeU32 := writeU32
}.

(** Reception. *)
Definition receiveData (u : t) (byte : Z) : t :=
  let u := with_rxQueue u (rxQueue u ++ [band byte 255]) in
  let u := with_bytesReceived u (bytesReceived u + 1) in
  let u := with_STATUS u (bor (STATUS u) STATUS_RX_READY) in
  let u := with_RX_BUF u (band byte 255) in
  with_rxData u (rxData u ++ [byte]).

Definition receiveString (u : t) (str : list Z) : t :=
  fold_left receiveData str u.

Definition getNextRXByte (u : t) : Z * t :=
  match rxQueue u with
  | b :: rest => (b, with_rxQueue u rest)
  | [] => (0, with_STATUS u (band (STATUS u) (bnot STATUS_RX_READY)))
  end.

Definition reset (u : t) : t :=
  mk [] 0 0 0 144 0 [] 0 0 0 (pendingTimeouts u) (txData u) (rxData u).

(** The RX-ready bit as the status dump reads it. *)
Definition rxReady (u : t) : bool := truthy (band (STATUS u) STATUS_RX_READY).

End UART.

(** ** A timer channel ([hyperscan/io/uart.js], class [Timer])

    [onCompare] and [onOverflow] are callbacks that the timer controller
    installs; a call of an installed callback is appended to [emitted]. *)

Module Timer.

Import JS.

Inductive event := Compare | Overflow.

Record t := mk {
  number : Z;
  count : Z;
  ctrl : Z;
  cmp : Z;
  stat : Z;
  enabled : bool;
  countDown : bool;
  repeat : bool;
  irqEnabled : bool;
  extClock : bool;
  clockScale : Z;
  cyclesUntilTick : Z;
  onCompare : bool;
  onOverflow : bool;
  ticks : Z;
  compares : Z;
  overflows : Z;
  interrupts : Z;
  emitted : list event
}.

Definition create (timerNumber : Z) : t :=
  mk timerNumber 0 0 4294967295 0 false false false false false 0 0
     false false 0 0 0 0 [].

(** The callbacks as the timer controller sets them up. *)
Definition connect (x : t) : t :=
  mk (number x) (count x) (ctrl x) (cmp x) (stat x) (enabled x)
     (countDown x) (repeat x) (irqEnabled x) (extClock x) (clockScale x)
     (cyclesUntilTick x) true true (ticks x) (compares x) (overflows x)
     (interrupts x) (emitted x).

Definition with_count (x : t) (v : Z) : t :=
  mk (number x) v (ctrl x) (cmp x) (stat x) (enabled x)
     (countDown x) (repeat x) (irqEnabled x) (extClock x) (clockScale x)
     (cyclesUntilTick x) (onCompare x) (onOverflow x) (ticks x)
     (compares x) (overflows x) (interrupts x) (emitted x).
Definition with_cmp (x : t) (v : Z) : t :=
  mk (number x) (count x) (ctrl x) v (stat x) (enabled x)
     (countDown x) (repeat x) (irqEnabled x) (extClock x) (clockScale x)
     (cyclesUntilTick x) (onCompare x) (onOverflow x) (ticks x)
     (compares x) (overflows x) (interrupts x) (emitted x).
Definition with_stat (x : t) (v : Z) : t :=
  mk (number x) (count x) (ctrl x) (cmp x) v (enabled x)
     (countDown x) (repeat x) (irqEnabled x) (extClock x) (clockScale x)
     (cyclesUntilTick x) (onCompare x) (onOverflow x) (ticks x)
     (compares x) (overflows x) (interrupts x) (emitted x).
Definition with_enabled (x : t) (v : bool) : t :=
  mk (number x) (count x) (ctrl x) (cmp x) (stat x) v
     (countDown x) (repeat x) (irqEnabled x) (extClock x) (clockScale x)
     (cyclesUntilTick x) (onCompare x) (onOverflow x) (ticks x)
     (compares x) (overflows x) (interrupts x) (emitted x).
Definition with_cyclesUntilTick (x : t) (v : Z) : t :=
  mk (number x) (count x) (ctrl x) (cmp x) (stat x) (enabled x)
     (countDown x) (repeat x) (irqEnabled x) (extClock x) (clockScale x)
     v (onCompare x) (onOverflow x) (ticks x)
     (compares x) (overflows x) (interrupts x) (emitted x).
Definition with_ticks (x : t) (v : Z) : t :=
  mk (number x) (count x) (ctrl x) (cmp x) (stat x) (enabled x)
     (countDown x) (repeat x) (irqEnabled x) (extClock x) (clockScale x)
     (cyclesUntilTick x) (onCompare x) (onOverflow x) v
     (compares x) (overflows x) (interrupts x) (emitted x).
Definition with_compares (x : t) (v : Z) : t :=
  mk (number x) (count x) (ctrl x) (cmp x) (stat x) (enabled x)
     (countDown x) (repeat x) (irqEnabled x) (extClock x) (clockScale x)
     (cyclesUntilTick x) (onCompare x) (onOverflow x) (ticks x)
     v (overflows x) (interrupts x) (emitted x).
Definition with_overflows (x : t) (v : Z) : t :=
  mk (number x) (count x) (ctrl x) (cmp x) (stat x) (enabled x)
     (countDown x) (repeat x) (irqEnabled x) (extClock x) (clockScale x)
     (cyclesUntilTick x) (onCompare x) (onOverflow x) (ticks x)
     (compares x) v (interrupts x) (emitted x).
Definition with_interrupts (x : t) (v : Z) : t :=
  mk (number x) (count x) (ctrl x) (cmp x) (stat x) (enabled x)
     (countDown x) (repeat x) (irqEnabled x) (extClock x) (clockScale x)
     (cyclesUntilTick x) (onCompare x) (onOverflow x) (ticks x)
     (compares x) (overflows x) v (emitted x).
Definition with_emitted (x : t) (v : list event) : t :=
  mk (number x) (count x) (ctrl x) (cmp x) (stat x) (enabled x)
     (countDown x) (repeat x) (irqEnabled x) (extClock x) (clockScale x)
     (cyclesUntilTick x) (onCompare x) (onOverflow x) (ticks x)
     (compares x) (overflows x) (interrupts x) v.

(** [this.onCompare?.()] and [this.onOverflow?.()]. *)
Definition callOnCompare (x : t) : t :=
  if onCompare x then with_emitted x (emitted x ++ [Compare]) else x.
Definition callOnOverflow (x : t) : t :=
  if onOverflow x then with_emitted x (emitted x ++ [Overflow]) else x.

Definition writeCtrl (x : t) (value : Z) : t :=
  let value := u32 value in
  mk (number x) (count x) value (cmp x) (stat x)
     (truthy (band value 1)) (truthy (band value 2)) (truthy (band value 4))
     (truthy (band value 8)) (truthy (band value 16))
     (band (shr value 5) 7)
     (cyclesUntilTick x) (onCompare x) (onOverflow x) (ticks x)
     (compares x) (overflows x) (interrupts x) (emitted x).

Definition readCtrl (x : t) : Z :=
  let val := 0 in
  let val := if enabled x then bor val 1 else val in
  let val := if countDown x then bor val 2 else val in
  let val := if repeat x then bor val 4 else val in
  let val := if irqEnabled x then bor val 8 else val in
  let val := if extClock x then bor val 16 else val in
  let val := bor val (shl (band (clockScale x) 7) 5) in
  u32 val.

Definition writeCount (x : t) (value : Z) : t :=
  with_cyclesUntilTick (with_count x (u32 value)) 0.
Definition readCount (x : t) : Z := u32 (count x).
Definition writeCompare (x : t) (value : Z) : t := with_cmp x (u32 value).
Definition readCompare (x : t) : Z := u32 (cmp x).
Definition readStatus (x : t) : Z := u32 (stat x).
Definition writeStatus (x : t) (value : Z) : t :=
  if truthy (band value 128) then with_stat x (band (stat x) (bnot 1))
  else x.

(** The counting step of one logical tick. *)
Definition arithmetic (x : t) : t :=
  if countDown x then
    if count x =? 0 then
      let x := with_stat x (bor (stat x) 2) in
      let x := with_overflows x (overflows x + 1) in
      let x := callOnOverflow x in
      if repeat x then with_count x (cmp x) else with_enabled x false
    else with_count x (u32 (count x - 1))
  else
    let x := with_count x (u32 (count x + 1)) in
    if count x =? 0 then
      let x := with_stat x (bor (stat x) 2) in
      let x := with_overflows x (overflows x + 1) in
      callOnOverflow x
    else x.

(** The compare check of one logical tick, with the [didCompare] flag. *)
Definition compareCheck (x : t) (didCompare : bool) : t * bool :=
  if count x =? cmp x then
    let x := with_stat x (bor (stat x) 1) in
    let x := with_compares x (compares x + 1) in
    let x :=
      if irqEnabled x then
        callOnCompare (with_interrupts x (interrupts x + 1))
      else x in
    let x := if repeat x then with_count x 0 else with_enabled x false in
    (x, true)
  else (x, didCompare).

(** The body of the [while] loop of [tick]. *)
Definition logicalTick (scale : Z) (x : t) (didCompare : bool) : t * bool :=
  let x := with_cyclesUntilTick x (cyclesUntilTick x - scale) in
  let x := with_ticks x (ticks x + 1) in
  compareCheck (arithmetic x) didCompare.

(** [while (this.cyclesUntilTick >= scale) ...], at most [fuel] rounds;
    [None] when the loop has not finished by then. *)
Fixpoint tickLoop (fuel : nat) (scale : Z) (x : t) (didCompare : bool)
  : option (t * bool) :=
  if scale <=? cyclesUntilTick x then
    match fuel with
    | O => None
    | S k =>
        let '(x, didCompare) := logicalTick scale x didCompare in
        tickLoop k scale x didCompare
    end
  else Some (x, didCompare).

(** [tick(cycles)]: whether it raised an interrupt, and the timer. *)
Definition tick (x : t) (cycles : Z) : option (bool * t) :=
  if negb (enabled x) then Some (false, with_cyclesUntilTick x 0)
  else
    let scale := shl 1 (clockScale x) in
    let x := with_cyclesUntilTick x (cyclesUntilTick x + cycles) in
    match tickLoop (Z.to_nat (cyclesUntilTick x)) scale x false with
    | Some (x, didCompare) => Some (didCompare && irqEnabled x, x)
    | None => None
    end.

(** Cycles fed through successive calls of [tick]. *)
Fixpoint feed (x : t) (chunks : list Z) : option t :=
  match chunks with
  | [] => Some x
  | cycles :: rest =>
      match tick x cycles with
      | Some (_, x) => feed x rest
      | None => None
      end
  end.

Definition reset (x : t) : t :=
  mk (number x) 0 0 4294967295 0 false (countDown x) (repeat x)
     (irqEnabled x) (extClock x) (clockScale x) 0 (onCompare x)
     (onOverflow x) 0 0 0 0 (emitted x).

(** STAT bit 0, the compare flag. *)
Definition compareFlag (x : t) : bool := Z.testbit (stat x) 0.

End Timer.

(** ** The timer controller ([hyperscan/io/uart.js], class
       [TimerController])

    Three channels behind one register window.  The constructor installs
    [onCompare] on each channel as a call of [handleTimerInterrupt]; that
    callback touches the controller's statistics and [onInterrupt] only, so
    it is run on the compare events a channel has emitted when its [tick]
    returns.  A call of [onInterrupt], when one is installed, is recorded in
    [raised] with the number of the channel. *)

Module TimerController.

Import JS.

Record t := mk {
  timer0 : Timer.t;
  timer1 : Timer.t;
  timer2 : Timer.t;
  onInterrupt : bool;
  totalTicks : Z;
  totalInterrupts : Z;
  raised : list Z
}.

Definition create : t :=
  mk (Timer.connect (Timer.create 0)) (Timer.connect (Timer.create 1))
     (Timer.connect (Timer.create 2)) false 0 0 [].

(** [this.timers[idx]] for [idx] in 0..2. *)
Definition timer (tc : t) (idx : Z) : Timer.t :=
  match idx with
  | 0 => timer0 tc
  | 1 => timer1 tc
  | _ => timer2 tc
  end.

Definition with_timer (tc : t) (idx : Z) (x : Timer.t) : t :=
  match idx with
  | 0 => mk x (timer1 tc) (timer2 tc) (onInterrupt tc) (totalTicks tc)
            (totalInterrupts tc) (raised tc)
  | 1 => mk (timer0 tc) x (timer2 tc) (onInterrupt tc) (totalTicks tc)
            (totalInterrupts tc) (raised tc)
  | _ => mk (timer0 tc) (timer1 tc) x (onInterrupt tc) (totalTicks tc)
            (totalInterrupts tc) (raised tc)
  end.

Definition with_onInterrupt (tc : t) (x : bool) : t :=
  mk (timer0 tc) (timer1 tc) (timer2 tc) x (totalTicks tc)
     (totalInterrupts tc) (raised tc).
Definition with_totalTicks (tc : t) (x : Z) : t :=
  mk (timer0 tc) (timer1 tc) (timer2 tc) (onInterrupt tc) x
     (totalInterrupts tc) (raised tc).
Definition with_totalInterrupts (tc : t) (x : Z) : t :=
  mk (timer0 tc) (timer1 tc) (timer2 tc) (onInterrupt tc) (totalTicks tc)
     x (raised tc).
Definition with_raised (tc : t) (x : list Z) : t :=
  mk (timer0 tc) (timer1 tc) (timer2 tc) (onInterrupt tc) (totalTicks tc)
     (totalInterrupts tc) x.

Definition handleTimerInterrupt (tc : t) (timerNumber : Z) : t :=
  let tc := with_totalInterrupts tc (totalInterrupts tc + 1) in
  if onInterrupt tc then with_raised tc (raised tc ++ [timerNumber]) else tc.

(** The callbacks of channel [idx] for the events it has emitted. *)
Definition deliver (tc : t) (idx : Z) (events : list Timer.event) : t :=
  fold_left
    (fun tc e =>
       match e with
       | Timer.Compare => handleTimerInterrupt tc idx
       | Timer.Overflow => tc
       end)
    events tc.

Definition readU32 (tc : t) (offset : Z) : Z * t :=
  let offset := band offset 65535 in
  let timerIdx := band (shr offset 4) 3 in
  let regOffset := band offset 12 in
  if 3 <=? timerIdx then (0, tc)
  else
    let timer := timer tc timerIdx in
    match regOffset with
    | 0 => (Timer.readCount timer, tc)
    | 4 => (Timer.readCtrl timer, tc)
    | 8 => (Timer.readCompare timer, tc)
    | 12 => (Timer.readStatus timer, tc)
    | _ => (0, tc)
    end.

Definition writeU32 (tc : t) (offset value : Z) : t :=
  let value := u32 value in
  let offset := band offset 65535 in
  let timerIdx := band (shr offset 4) 3 in
  let regOffset := band offset 12 in
  if 3 <=? timerIdx then tc
  else
    let timer := timer tc timerIdx in
    match regOffset with
    | 0 => with_timer tc timerIdx (Timer.writeCount timer value)
    | 4 => with_timer tc timerIdx (Timer.writeCtrl timer value)
    | 8 => with_timer tc timerIdx (Timer.writeCompare timer value)
    | 12 => with_timer tc timerIdx (Timer.writeStatus timer value)
    | _ => tc
    end.

Definition readU8 (tc : t) (offset : Z) : Z * t :=
  let '(word, tc) := readU32 tc (band offset (bnot 3)) in
  let shift := band offset 3 * 8 in
  (band (shr word shift) 255, tc).

Definition readU16 (tc : t) (offset : Z) : Z * t :=
  let '(word, tc) := readU32 tc (band offset (bnot 3)) in
  let shift := band offset 2 * 8 in
  (band (shr word shift) 65535, tc).

Definition writeU8 (tc : t) (offset value : Z) : t :=
  let addr := band offset (bnot 3) in
  let shift := band offset 3 * 8 in
  let '(word, tc) := readU32 tc addr in
  let word := bor (band word (bnot (shl 255 shift)))
                  (shl (band value 255) shift) in
  writeU32 tc addr word.

Definition writeU16 (tc : t) (offset value : Z) : t :=
  let addr := band offset (bnot 3) in
  let shift := band offset 2 * 8 in
  let '(word, tc) := readU32 tc addr in
  let word := bor (band word (bnot (shl 65535 shift)))
                  (shl (band value 65535) shift) in
  writeU32 tc addr word.

#[export] Instance region : MemoryRegion t := {
  readU8 := readU8;
  readU16 := readU16;
  readU32 := readU32;
  writeU8 := writeU8;
  writeU16 := writeU16;
  writeU32 := writeU32
}.

(** [this.timers[idx].tick(cycles)] with the callbacks it sets off. *)
Definition tickTimer (tc : t) (idx cycles : Z) : option (bool * t) :=
  let x := timer tc idx in
  match Timer.tick x cycles with
  | Some (fired, x') =>
      let events := drop (length (Timer.emitted x)) (Timer.emitted x') in
      Some (fired, deliver (with_timer tc idx x') idx events)
  | None => None
  end.

(** [tick(cycles)]: every channel is ticked, whether or not an earlier
    one has fired. *)
Definition tick (tc : t) (cycles : Z) : option (bool * t) :=
  let tc := with_totalTicks tc (totalTicks tc + cycles) in
  '(f0, tc) ← tickTimer tc 0 cycles;
  '(f1, tc) ← tickTimer tc 1 cycles;
  '(f2, tc) ← tickTimer tc 2 cycles;
  Some (f0 || f1 || f2, tc).

Definition reset (tc : t) : t :=
  mk (Timer.reset (timer0 tc)) (Timer.reset (timer1 tc))
     (Timer.reset (timer2 tc)) (onInterrupt tc) 0 0 (raised tc).

End TimerController.

(** ** The registers of the display unit ([hyperscan/io/uart.js], class
       [VideoDisplayUnit])

    The register file behind the MMIO window; the canvas, the rendering and
    the statistics are not modelled. *)

Module VDU.

Import JS.

Record t := mk {
  ctrl : Z;
  status : Z;
  fbAddrHigh : Z;
  fbAddrLow : Z;
  fbAddr : Z
}.

(** The registers as the constructor leaves them, for a numeric
    [options.fbAddr]. *)
Definition create (fbAddr : Z) : t :=
  mk 1 0 (band (shr fbAddr 16) 65535) (band fbAddr 65535)
     (if fbAddr =? 0 then 2684354560 else fbAddr).

Definition readU32 (v : t) (address : Z) : Z * t :=
  let offset := band address 65535 in
  let alignedOffset := band offset (bnot 1) in
  match alignedOffset with
  | 0 => (u32 (ctrl v), v)
  | 2 => (u32 (status v), v)
  | 4 => (u32 (fbAddrHigh v), v)
  | 6 => (u32 (fbAddrLow v), v)
  | _ => (0, v)
  end.

Definition writeU32 (v : t) (offset value : Z) : t :=
  let value := u32 value in
  let offset := band offset 65535 in
  let alignedOffset := band offset (bnot 1) in
  match alignedOffset with
  | 0 => mk value (status v) (fbAddrHigh v) (fbAddrLow v) (fbAddr v)
  | 2 => v
  | 4 =>
      let high := band value 65535 in
      mk (ctrl v) (status v) high (fbAddrLow v)
         (bor (shl high 16) (fbAddrLow v))
  | 6 =>
      let low := band value 65535 in
      mk (ctrl v) (status v) (fbAddrHigh v) low
         (bor (shl (fbAddrHigh v) 16) low)
  | _ => v
  end.

Definition readU8 (v : t) (offset : Z) : Z * t :=
  let '(word, v) := readU32 v (band offset (bnot 3)) in
  let shift := band offset 3 * 8 in
  (band (shr word shift) 255, v).

Definition readU16 (v : t) (offset : Z) : Z * t :=
  let '(word, v) := readU32 v (band offset (bnot 3)) in
  let shift := band offset 2 * 8 in
  (band (shr word shift) 65535, v).

Definition writeU8 (v : t) (offset value : Z) : t :=
  let addr := band offset (bnot 3) in
  let shift := band offset 3 * 8 in
  let '(word, v) := readU32 v addr in
  let word := bor (band word (bnot (shl 255 shift)))
                  (shl (band value 255) shift) in
  writeU32 v addr word.

Definition writeU16 (v : t) (offset value : Z) : t :=
  let addr := band offset (bnot 3) in
  let shift := band offset 2 * 8 in
  let '(word, v) := readU32 v addr in
  let word := bor (band word (bnot (shl 65535 shift)))
                  (shl (band value 65535) shift) in
  writeU32 v addr word.

#[export] Instance region : MemoryRegion t := {
  readU8 := readU8;
  readU16 := readU16;
  readU32 := readU32;
  writeU8 := writeU8;
  writeU16 := writeU16;
  writeU32 := writeU32
}.

Definition reset (v : t) : t := mk 1 0 40960 0 2684354560.

End VDU.

(** ** The engine ([main.js])

    The engine owns the CPU and the memory interface unit; [cpu.miu],
    [hw.miu], [hw.flash] and [hw.dram] are references into one object graph,
    kept here as the single [miu] with its segments.  The peripherals and
    the I/O region with the handlers registered for them are set up from the
    page the emulator runs in; that region is a parameter, [None] when the
    set-up or the validation of the display unit throws. *)

Module Engine.

Import JS.

#[local] Existing Instance ArrayMemoryRegion.region.
#[local] Existing Instance IOMemoryRegion.region.
#[local] Existing Instance MIU.region.

Inductive EmulatorState := STOPPED | RUNNING | PAUSED | ERROR | LOADING.

Definition DRAM_SIZE : Z := 16 * 1024 * 1024.
Definition FLASH_SIZE : Z := 8 * 1024 * 1024.
Definition IO_SIZE : Z := 256 * 1024.
Definition SEGMENT_DRAM : Z := 160.
Definition SEGMENT_IO : Z := 8.
Definition SEGMENT_FLASH : Z := 158.
Definition BOOT_ADDRESS_DEFAULT : Z := 2650800128.
Definition BOOT_ADDRESS_FROM_MAGIC : Z := 2650800384.
Definition BOOT_MAGIC : Z := 1632450610.
Definition BOOT_MAGIC_OFFSET : Z := 78.

Section Hardware.

Context {W : Type}.

Inductive Region :=
| ArrayRegion (a : ArrayMemoryRegion.t)
| IORegion (io : IOMemoryRegion.t W).

Definition lift1 (fa : ArrayMemoryRegion.t -> Z -> Z * ArrayMemoryRegion.t)
    (fio : IOMemoryRegion.t W -> Z -> Z * IOMemoryRegion.t W)
    (x : Region) (offset : Z) : Z * Region :=
  match x with
  | ArrayRegion a => let '(v, a) := fa a offset in (v, ArrayRegion a)
  | IORegion io => let '(v, io) := fio io offset in (v, IORegion io)
  end.

Definition lift2 (fa : ArrayMemoryRegion.t -> Z -> Z -> ArrayMemoryRegion.t)
    (fio : IOMemoryRegion.t W -> Z -> Z -> IOMemoryRegion.t W)
    (x : Region) (offset value : Z) : Region :=
  match x with
  | ArrayRegion a => ArrayRegion (fa a offset value)
  | IORegion io => IORegion (fio io offset value)
  end.

#[export] Instance region : MemoryRegion Region := {
  readU8 := lift1 readU8 readU8;
  readU16 := lift1 readU16 readU16;
  readU32 := lift1 readU32 readU32;
  writeU8 := lift2 writeU8 writeU8;
  writeU16 := lift2 writeU16 writeU16;
  writeU32 := lift2 writeU32 writeU32
}.

Variable peripheralIO : option (IOMemoryRegion.t W).

Record t := mk {
  cpu : CPU.t;
  state : EmulatorState;
  fatalError : bool;
  miu : option (MIU.t Region);
  romLoaded : bool;
  cyclesExecuted : Z
}.

Definition create : t := mk CPU.reset STOPPED false None false 0.

Definition with_cpu (e : t) (x : CPU.t) : t :=
  mk x (state e) (fatalError e) (miu e) (romLoaded e) (cyclesExecuted e).
Definition with_state (e : t) (x : EmulatorState) : t :=
  mk (cpu e) x (fatalError e) (miu e) (romLoaded e) (cyclesExecuted e).
Definition with_fatalError (e : t) (x : bool) : t :=
  mk (cpu e) (state e) x (miu e) (romLoaded e) (cyclesExecuted e).
Definition with_miu (e : t) (x : option (MIU.t Region)) : t :=
  mk (cpu e) (state e) (fatalError e) x (romLoaded e) (cyclesExecuted e).
Definition with_romLoaded (e : t) (x : bool) : t :=
  mk (cpu e) (state e) (fatalError e) (miu e) x (cyclesExecuted e).
Definition with_cyclesExecuted (e : t) (x : Z) : t :=
  mk (cpu e) (state e) (fatalError e) (miu e) (romLoaded e) x.

(** [hw.flash]: the region mapped at the flash segment. *)
Definition flash (e : t) : option ArrayMemoryRegion.t :=
  match miu e with
  | Some m =>
      match MIU.getRegion m SEGMENT_FLASH with
      | Some (ArrayRegion a) => Some a
      | _ => None
      end
  | None => None
  end.

Definition pause (e : t) : t :=
  match state e with
  | RUNNING => with_state e PAUSED
  | _ => e
  end.

Definition handleFatalError (e : t) : t :=
  with_fatalError (with_state e ERROR) true.

(** [setupHardware]; [None] when it throws.  The CPU is reset before
    anything can throw; the partly built memory map that a throw leaves
    behind is not kept. *)
Definition resetCPU (e : t) : t :=
  with_cyclesExecuted (with_cpu e CPU.reset) 0.

Definition setupHardware (e : t) : option t :=
  let e := resetCPU e in
  let m := MIU.create in
  dram ← ArrayMemoryRegion.create DRAM_SIZE;
  m ← MIU.setRegion m SEGMENT_DRAM (Some (ArrayRegion dram));
  io ← peripheralIO;
  m ← MIU.setRegion m SEGMENT_IO (Some (IORegion io));
  fl ← ArrayMemoryRegion.create FLASH_SIZE;
  m ← MIU.setRegion m SEGMENT_FLASH (Some (ArrayRegion fl));
  Some (with_miu e (Some m)).

(** The byte swap of the loader, in groups of four. *)
Fixpoint swapWords (data : list Z) : list Z :=
  match data with
  | b0 :: b1 :: b2 :: b3 :: rest => b3 :: b2 :: b1 :: b0 :: swapWords rest
  | rest => rest
  end.

(** [data[i]] of a [Uint8Array] inside a bitwise expression: a missing
    element counts as 0. *)
Definition at8 (data : list Z) (i : Z) : Z :=
  default 0 (data !! Z.to_nat i).

Definition op_LE (data : list Z) : Z :=
  let insn_LE := bor (bor (bor (shl (at8 data 0) 24) (shl (at8 data 1) 16))
                          (shl (at8 data 2) 8)) (at8 data 3) in
  band (shr insn_LE 27) 31.

Definition op_BE (data : list Z) : Z :=
  let insn_BE := bor (bor (bor (shl (at8 data 3) 24) (shl (at8 data 2) 16))
                          (shl (at8 data 1) 8)) (at8 data 0) in
  band (shr insn_BE 27) 31.

Definition needsSwap (data : list Z) : bool :=
  (31 <? op_LE data) && (op_BE data <=? 31).

Definition bootAddrOf (data : list Z) : Z :=
  if BOOT_MAGIC_OFFSET + 4 <? Z.of_nat (length data) then
    let magic :=
      bor (bor (bor (shl (at8 data (BOOT_MAGIC_OFFSET + 0)) 24)
                    (shl (at8 data (BOOT_MAGIC_OFFSET + 1)) 16))
               (shl (at8 data (BOOT_MAGIC_OFFSET + 2)) 8))
          (at8 data (BOOT_MAGIC_OFFSET + 3)) in
    if magic =? BOOT_MAGIC then BOOT_ADDRESS_FROM_MAGIC
    else BOOT_ADDRESS_DEFAULT
  else BOOT_ADDRESS_DEFAULT.

(** [hw.flash.load(data, 0)] on the region shared with the MIU. *)
Definition loadFlash (e : t) (data : list Z) : option t :=
  m ← miu e;
  a ← flash e;
  a ← ArrayMemoryRegion.load a data 0;
  m ← MIU.setRegion m SEGMENT_FLASH (Some (ArrayRegion a));
  Some (with_miu e (Some m)).

(** [cpu.miu.readU32(address)]. *)
Definition fetch (e : t) (address : Z) : option (Z * t) :=
  m ← miu e;
  let '(v, m) := readU32 m address in
  Some (v, with_miu e (Some m)).

(** The opcode that the loader reads back at the entry point. *)
Definition finalOP (finalInsn : Z) : Z := band (shr finalInsn 27) 31.

(** [loadROM(file)] on the bytes of the file; every [throw] inside the
    [try] ends in [handleFatalError]. *)
Definition loadROM (e : t) (file : list Z) : t :=
  let e := pause e in
  let e := with_state e LOADING in
  let data := file in
  match setupHardware e with
  | None => handleFatalError (resetCPU e)
  | Some e =>
      let data := if needsSwap data then swapWords data else data in
      match loadFlash e data with
      | None => handleFatalError e
      | Some e =>
          let e := with_romLoaded e true in
          let bootAddr := bootAddrOf data in
          let e := with_cpu e (CPU.with_pc (cpu e) bootAddr) in
          match fetch e bootAddr with
          | None => handleFatalError e
          | Some (finalInsn, e) =>
              if 31 <? finalOP finalInsn then handleFatalError e
              else with_state e PAUSED
          end
      end
  end.

(** [step()] of the engine: one CPU step, charged four cycles. *)
Definition step (e : t) : t :=
  if negb (romLoaded e) then e
  else
    let e := pause e in
    let '(success, (c, m)) := CPU.step (cpu e) (miu e) in
    let e := with_miu (with_cpu e c) m in
    if negb success then e
    else with_cyclesExecuted e (cyclesExecuted e + 4).

(** [reset()]; [None] when [setupHardware] throws.  The boot address is
    looked up in the flash region that [setupHardware] has just created. *)
Definition reset (e : t) : option t :=
  let e := pause e in
  if romLoaded e then
    e ← setupHardware e;
    let bootAddr :=
      match flash e with
      | Some fl =>
          if fst (ArrayMemoryRegion.readU32 fl BOOT_MAGIC_OFFSET)
             =? BOOT_MAGIC
          then BOOT_ADDRESS_FROM_MAGIC
          else BOOT_ADDRESS_DEFAULT
      | None => BOOT_ADDRESS_DEFAULT
      end in
    Some (with_cpu e (CPU.with_pc (cpu e) bootAddr))
  else Some e.

End Hardware.

Arguments t W : clear implicits.
Arguments Region W : clear implicits.

End Engine.

(** ** The peripherals behind the I/O region ([main.js],
       [_setupPeripherals] and [_setupIOHandlers])

    The page is taken to provide the four peripheral classes. *)

Module Machine.

Import JS.

Definition TIMER_BASE : Z := 134873088.
Definition INTC_BASE : Z := 134873088.
Definition UART_BASE : Z := 134938624.
Definition VDU_BASE : Z := 135004160.

Record peripherals := mkPeripherals {
  vdu : VDU.t;
  timer : TimerController.t;
  intC : INTC.t;
  uart : UART.t
}.

Definition with_vdu (p : peripherals) (x : VDU.t) : peripherals :=
  mkPeripherals x (timer p) (intC p) (uart p).
Definition with_timer (p : peripherals) (x : TimerController.t)
  : peripherals :=
  mkPeripherals (vdu p) x (intC p) (uart p).
Definition with_intC (p : peripherals) (x : INTC.t) : peripherals :=
  mkPeripherals (vdu p) (timer p) x (uart p).
Definition with_uart (p : peripherals) (x : UART.t) : peripherals :=
  mkPeripherals (vdu p) (timer p) (intC p) x.

(** [_setupPeripherals]: the display unit with its frame buffer at the base
    of DRAM, the timers with the engine's [onInterrupt], the interrupt
    controller and the UART. *)
Definition setupPeripherals : peripherals :=
  mkPeripherals (VDU.create 2684354560)
    (TimerController.with_onInterrupt TimerController.create true)
    INTC.create UART.create.

(** The closures handed to [registerHandler]. *)
Definition vduRead (offset : Z) (p : peripherals) : Z * peripherals :=
  let '(v, x) := VDU.readU32 (vdu p) offset in (v, with_vdu p x).
Definition vduWrite (offset val : Z) (p : peripherals) : peripherals :=
  with_vdu p (VDU.writeU32 (vdu p) offset val).
Definition timerRead (offset : Z) (p : peripherals) : Z * peripherals :=
  let '(v, x) := TimerController.readU32 (timer p) offset in
  (v, with_timer p x).
Definition timerWrite (offset val : Z) (p : peripherals) : peripherals :=
  with_timer p (TimerController.writeU32 (timer p) offset val).
Definition intCRead (offset : Z) (p : peripherals) : Z * peripherals :=
  let '(v, x) := INTC.readU32 (intC p) offset in (v, with_intC p x).
Definition intCWrite (offset val : Z) (p : peripherals) : peripherals :=
  with_intC p (INTC.writeU32 (intC p) offset val).
Definition uartRead (offset : Z) (p : peripherals) : Z * peripherals :=
  let '(v, x) := UART.readU32 (uart p) offset in (v, with_uart p x).
Definition uartWrite (offset val : Z) (p : peripherals) : peripherals :=
  with_uart p (UART.writeU32 (uart p) offset val).

(** [for (offset = 0; offset < limit; offset += step)
       io.registerHandler(base + offset, read(offset), write(offset))]. *)
Definition registerRange (base limit step : Z)
    (rd : Z -> peripherals -> Z * peripherals)
    (wr : Z -> Z -> peripherals -> peripherals)
    (io : IOMemoryRegion.t peripherals) : IOMemoryRegion.t peripherals :=
  fold_left
    (fun io offset =>
       IOMemoryRegion.registerHandler io (base + offset)
         (Some (rd offset)) (Some (wr offset)))
    ((fun k => k * step) <$> seqZ 0 ((limit + step - 1) / step)) io.

(** [_setupIOHandlers], in the order of the source: display unit, timers,
    interrupt controller, UART. *)
Definition setupIOHandlers (io : IOMemoryRegion.t peripherals)
  : IOMemoryRegion.t peripherals :=
  let io := registerRange VDU_BASE 8 2 vduRead vduWrite io in
  let io := registerRange TIMER_BASE 48 4 timerRead timerWrite io in
  let io := registerRange INTC_BASE 16 4 intCRead intCWrite io in
  registerRange UART_BASE 32 4 uartRead uartWrite io.

(** The I/O region of [setupHardware]. *)
Definition io : IOMemoryRegion.t peripherals :=
  setupIOHandlers (IOMemoryRegion.create Engine.IO_SIZE setupPeripherals).

End Machine.

(** ** Vocabulary of the statements *)

Module Spec.

Import JS.

(** A one-bit flag. *)
Definition bit (x : Z) : Prop := x = 0 \/ x = 1.

(** A value of the unsigned 32-bit domain. *)
Definition word (x : Z) : Prop := 0 <= x < 4294967296.

(** A register bank: 32 slots of 32-bit words. *)
Definition bank (a : list Z) : Prop :=
  length a = 32%nat /\ Forall word a.

(** The states the CPU can be in: what [reset] establishes and every
    operation of the CPU keeps. *)
Record wf (c : CPU.t) : Prop := mkWf {
  wf_r : bank (CPU.r c);
  wf_cr : bank (CPU.cr c);
  wf_sr : bank (CPU.sr c);
  wf_pc : word (CPU.pc c);
  wf_N : bit (CPU.flagN c);
  wf_Z : bit (CPU.flagZ c);
  wf_C : bit (CPU.flagC c);
  wf_V : bit (CPU.flagV c);
  wf_T : bit (CPU.flagT c)
}.

(** The packed flag word: N at bit 31, Z at 30, C at 29, V at 28, T at
    bit 0. *)
Definition packed (n z c v t : Z) : Z :=
  n * 2 ^ 31 + z * 2 ^ 30 + c * 2 ^ 29 + v * 2 ^ 28 + t.

Definition packedFlags (c : CPU.t) : Z :=
  packed (CPU.flagN c) (CPU.flagZ c) (CPU.flagC c) (CPU.flagV c)
         (CPU.flagT c).

(** The five flags of a state. *)
Definition flags (c : CPU.t) : Z * Z * Z * Z * Z :=
  (CPU.flagN c, CPU.flagZ c, CPU.flagC c, CPU.flagV c, CPU.flagT c).

End Spec.

(** ** Sample states *)

Module Samples.

(** A CPU in the middle of a program: vector base in cr3, N and C set. *)
Definition sample : CPU.t :=
  CPU.with_C
    (CPU.with_N (CPU.with_pc (CPU.setCR CPU.reset 3 2650800128) 2650800400)
                1)
    1.

End Samples.

(** The bookkeeping of the CPU that no instruction touches. *)
Definition counters (c : CPU.t) : Z * Z * bool :=
  (CPU.cycles c, CPU.instructions c, CPU.halted c).

(** ** Sample machines *)

Module Boot.

#[local] Existing Instance MIU.region.
#[local] Existing Instance Engine.region.

(** A page that provides the peripherals; no handler is involved in the
    programs below. *)
Definition io : option (IOMemoryRegion.t unit) :=
  Some (IOMemoryRegion.create Engine.IO_SIZE tt).

(** The engine after loading a ROM image, given as its bytes. *)
Definition boot (rom : list Z) : Engine.t unit :=
  Engine.loadROM io Engine.create rom.

(** The memory seen by the CPU. *)
Definition memory : Type := MIU.t (Engine.Region unit).

(** [n] steps of the CPU of an engine. *)
Fixpoint steps (n : nat) (c : CPU.t) (m : option memory)
  : CPU.t * option memory :=
  match n with
  | O => (c, m)
  | S k => let '(_, (c, m)) := CPU.step c m in steps k c m
  end.

(** S1: the word 0x00000000 (nop) at 0x9E000000. *)
Definition nop : list Z := [0; 0; 0; 0].

(** [cmp r0, r0] (0x00000018) followed by [mfsr r1, sr0] (0x00400050). *)
Definition cmp_mfsr : list Z := [24; 0; 0; 0; 80; 0; 64; 0].

(** CR-form words (OP = 0x06) as the disassembler of the repository decodes
    them: [mfcr r1, cr3] (0x30460000), [mtcr cr3, r1] (0x30460004) and
    [rte] (0x30000210). *)
Definition mfcr_r1_cr3 : list Z := [0; 0; 70; 48].
Definition mtcr_cr3_r1 : list Z := [4; 0; 70; 48].
Definition rte_word : list Z := [16; 2; 0; 48].

(** The CPU of a booted engine with r1 = 0x5678, cr3 = 0x1234,
    cr5 = 0x9E000100 and cr1 = 0x80000000 (a saved N flag). *)
Definition prepared (rom : list Z) : CPU.t :=
  let c := Engine.cpu (boot rom) in
  let c := CPU.setR c 1 22136 in
  let c := CPU.setCR c 3 4660 in
  let c := CPU.setCR c 5 2650800384 in
  CPU.setCR c 1 2147483648.

(** A ROM whose entry word (0x30000000) carries opcode 0x06. *)
Definition opcode6 : list Z := [0; 0; 0; 48].

End Boot.

(** Byte [j] (0..3) and halfword [j] (0..1) of a word, little-endian. *)
Definition byteOf (x j : Z) : Z := (x / 2 ^ (8 * j)) mod 2 ^ 8.
Definition halfOf (x j : Z) : Z := (x / 2 ^ (16 * j)) mod 2 ^ 16.

(** ** A sample I/O region *)

Module Latch.

(** One peripheral: a 32-bit latch, read and written through a handler
    registered at byte offset 0x10 of a 64 KiB region. *)
Definition handler : IOMemoryRegion.handler Z :=
  IOMemoryRegion.mkHandler (Some (fun w => (w, w))) (Some (fun v _ => v)).

Definition io : IOMemoryRegion.t Z :=
  IOMemoryRegion.registerHandler (IOMemoryRegion.create 65536 287454020) 16
    (IOMemoryRegion.readFn handler) (IOMemoryRegion.writeFn handler).

End Latch.

(** ** Vocabulary for the timer *)

Module TimerSpec.

(** The cycles of a sequence of [tick] calls. *)
Definition total (chunks : list Z) : Z := fold_right Z.add 0 chunks.

(** The timer after [q] logical ticks that neither wrap nor hit the
    compare value, out of the cycles accumulated with scale [scale]. *)
Definition advance (scale : Z) (x : Timer.t) (q : Z) : Timer.t :=
  Timer.mk (Timer.number x) (Timer.count x + q) (Timer.ctrl x) (Timer.cmp x)
    (Timer.stat x) (Timer.enabled x) (Timer.countDown x) (Timer.repeat x)
    (Timer.irqEnabled x) (Timer.extClock x) (Timer.clockScale x)
    (Timer.cyclesUntilTick x - q * scale) (Timer.onCompare x)
    (Timer.onOverflow x) (Timer.ticks x + q) (Timer.compares x)
    (Timer.overflows x) (Timer.interrupts x) (Timer.emitted x).

(** A count-up channel with interrupts enabled, scale [s] and compare
    value [C], that has received [k] cycles since its count was zero and
    has not fired; [x0] is the channel as configured. *)
Record counting (x0 : Timer.t) (s C : Z) (x : Timer.t) (k : Z) : Prop :=
  mkCounting {
    c_enabled : Timer.enabled x = true;
    c_up : Timer.countDown x = false;
    c_irq : Timer.irqEnabled x = true;
    c_callback : Timer.onCompare x = true;
    c_scale : Timer.clockScale x = s;
    c_cmp : Timer.cmp x = C;
    c_range : 0 <= k < C * 2 ^ s;
    c_count : Timer.count x = k / 2 ^ s;
    c_cycles : Timer.cyclesUntilTick x = k mod 2 ^ s;
    c_stat : Timer.stat x = Timer.stat x0;
    c_emitted : Timer.emitted x = Timer.emitted x0;
    c_interrupts : Timer.interrupts x = Timer.interrupts x0;
    c_compares : Timer.compares x = Timer.compares x0
  }.

(** The channel has fired exactly once since [x0]. *)
Record fired (x0 : Timer.t) (s : Z) (x : Timer.t) : Prop := mkFired {
  f_flag : Timer.compareFlag x = true;
  f_emitted : Timer.emitted x = Timer.emitted x0 ++ [Timer.Compare];
  f_interrupts : Timer.interrupts x = Timer.interrupts x0 + 1;
  f_compares : Timer.compares x = Timer.compares x0 + 1;
  f_scale : Timer.clockScale x = s;
  f_cycles : Timer.cyclesUntilTick x = 0
}.

(** Timer 0 behind the controller, configured with enable, irq-enable and
    scale 1 (CTRL = 0x29), CMP = 3 and COUNT = 0. *)
Definition configured : Timer.t :=
  Timer.writeCount
    (Timer.writeCompare (Timer.writeCtrl (Timer.connect (Timer.create 0)) 41)
                        3)
    0.

End TimerSpec.

(** ** Bytes behind the memory interface unit *)

Module MIUSpec.

Import JS MIU.

(** A read of the byte at [address] finds [p], in a writable backing-array
    region. *)
Definition holds (m : MIU.t ArrayMemoryRegion.t) (address p : Z) : Prop :=
  exists r, getRegion m (getSegment address) = Some r /\
            ArrayMemoryRegion.writable r = true /\
            fst (ArrayMemoryRegion.readU8 r (getOffset address)) = p.

(** The slot of [address] holds a writable backing-array region. *)
Definition mapped (m : MIU.t ArrayMemoryRegion.t) (address : Z) : Prop :=
  exists r, getRegion m (getSegment address) = Some r /\
            ArrayMemoryRegion.writable r = true.

End MIUSpec.

(** ** Draining the receive queue of the UART *)

Module UARTSpec.

(** The bytes that [n] successive calls of [getNextRXByte] return. *)
Fixpoint drain (n : nat) (u : UART.t) : list Z * UART.t :=
  match n with
  | O => ([], u)
  | S n =>
      let '(b, u) := UART.getNextRXByte u in
      let '(bs, u) := drain n u in
      (b :: bs, u)
  end.

(** Successive word writes to the data register at offset 0. *)
Definition transmit (u : UART.t) (values : list Z) : UART.t :=
  fold_left (fun u v => UART.writeU32 u 0 v) values u.

End UARTSpec.

(** ** What the handlers of an I/O region leave alone *)

Module IOSpec.

Import IOMemoryRegion.

(** No closure registered in [io] changes the observation [obs] of the
    peripherals. *)
Definition quiet {W A : Type} (obs : W -> A) (io : IOMemoryRegion.t W)
  : Prop :=
  forall k h, handlers io !! k = Some h ->
    (forall f, readFn h = Some f -> forall p, obs (snd (f p)) = obs p) /\
    (forall f, writeFn h = Some f -> forall v p, obs (f v p) = obs p).

End IOSpec.

(** ** The handler table of the machine *)

Module MachineSpec.

Import IOMemoryRegion Machine.

(** The closures that end up registered, by word offset: the display
    unit's STAT and FB_ADDR_L closures at words 0 and 1, the interrupt
    controller at 0x8000 to 0x8003, timer channels 1 and 2 at 0x8004 to
    0x800B, and the UART at 0xC000 to 0xC007. *)
Definition table (k : Z) : option (IOMemoryRegion.handler peripherals) :=
  if k =? 0 then Some (mkHandler (Some (vduRead 2)) (Some (vduWrite 2)))
  else if k =? 1 then Some (mkHandler (Some (vduRead 6)) (Some (vduWrite 6)))
  else if (32768 <=? k) && (k <=? 32771) then
    Some (mkHandler (Some (intCRead (4 * (k - 32768))))
                    (Some (intCWrite (4 * (k - 32768)))))
  else if (32772 <=? k) && (k <=? 32779) then
    Some (mkHandler (Some (timerRead (4 * (k - 32768))))
                    (Some (timerWrite (4 * (k - 32768)))))
  else if (49152 <=? k) && (k <=? 49159) then
    Some (mkHandler (Some (uartRead (4 * (k - 49152))))
                    (Some (uartWrite (4 * (k - 49152)))))
  else None.

(** What no access through the I/O region is seen to change: channel 0 of
    the timers, and the display unit's CTRL and FB_ADDR_H. *)
Definition sheltered (p : peripherals) : Timer.t * Z * Z :=
  (TimerController.timer0 (timer p), VDU.ctrl (vdu p),
   VDU.fbAddrHigh (vdu p)).

End MachineSpec.

(** ** Vocabulary for the timer controller *)

Module ControllerSpec.

(** The compare callbacks among the events of a channel. *)
Definition compares (events : list Timer.event) : Z :=
  Z.of_nat (length (List.filter
                      (fun e => match e with
                                | Timer.Compare => true
                                | Timer.Overflow => false
                                end) events)).

(** A channel as the controller keeps it: the compare callback is the one
    the constructor installed, and the clock scale is a shift count that
    [1 << clockScale] turns into a positive number. *)
Definition connected (x : Timer.t) : Prop :=
  Timer.onCompare x = true /\ 0 <= Timer.clockScale x <= 30.

(** The interrupts that the three channels have counted. *)
Definition channelInterrupts (tc : TimerController.t) : Z :=
  Timer.interrupts (TimerController.timer0 tc)
  + Timer.interrupts (TimerController.timer1 tc)
  + Timer.interrupts (TimerController.timer2 tc).

End ControllerSpec.

(** * Properties *)

(** ** 32-bit arithmetic *)

Section JSFacts.

Import JS.

Lemma u32_range x : 0 <= u32 x < 4294967296.
Proof. unfold u32. apply Z.mod_pos_bound. lia. Qed.

Lemma i32_range x : -2147483648 <= i32 x < 2147483648.
Proof.
  unfold i32.
  pose proof (Z.mod_pos_bound (x + 2147483648) 4294967296). lia.
Qed.

Lemma u32_small x : 0 <= x < 4294967296 -> u32 x = x.
Proof. intros. unfold u32. apply Z.mod_small. lia. Qed.

Lemma i32_small x : -2147483648 <= x < 2147483648 -> i32 x = x.
Proof. intros. unfold i32. rewrite Z.mod_small; lia. Qed.

Lemma u32_idem x : u32 (u32 x) = u32 x.
Proof. apply u32_small, u32_range. Qed.

Lemma u32_testbit x n : 0 <= n < 32 -> Z.testbit (u32 x) n = Z.testbit x n.
Proof.
  intros. unfold u32. change 4294967296 with (2 ^ 32).
  apply Z.mod_pow2_bits_low. lia.
Qed.

Lemma i32_eqm x : exists k, i32 x = x + k * 4294967296.
Proof.
  unfold i32. exists (- ((x + 2147483648) / 4294967296)).
  pose proof (Z.div_mod (x + 2147483648) 4294967296). lia.
Qed.

Lemma testbit_add_mul_pow2 x k n :
  0 <= n < 32 -> Z.testbit (x + k * 4294967296) n = Z.testbit x n.
Proof.
  intros. rewrite <- (u32_testbit (x + _)), <- (u32_testbit x) by lia.
  unfold u32. now rewrite Z.mod_add by lia.
Qed.

Lemma i32_testbit x n : 0 <= n < 32 -> Z.testbit (i32 x) n = Z.testbit x n.
Proof.
  intros. destruct (i32_eqm x) as [k ->]. now apply testbit_add_mul_pow2.
Qed.

Lemma u32_i32 x : u32 (i32 x) = u32 x.
Proof.
  destruct (i32_eqm x) as [k ->]. unfold u32. apply Z.mod_add. lia.
Qed.

Lemma shcount_small n : 0 <= n < 32 -> shcount n = n.
Proof.
  intros. unfold shcount. rewrite u32_small by lia.
  change 31 with (Z.ones 5). rewrite Z.land_ones by lia.
  apply Z.mod_small. simpl. lia.
Qed.

End JSFacts.

(** ** Typed arrays *)

Section ArrayFacts.

Import JS.

Lemma length_aset a i v : length (aset a i v) = length a.
Proof. unfold aset. destruct (0 <=? i); [apply length_insert | reflexivity]. Qed.

Lemma aget_aset_eq a i v :
  0 <= i < Z.of_nat (length a) -> aget (aset a i v) i = u32 v.
Proof.
  intros Hi. unfold aget, aset.
  destruct (Z.leb_spec 0 i); [| lia].
  rewrite list_lookup_insert_eq by lia. reflexivity.
Qed.

Lemma aget_aset_ne a i j v :
  0 <= j -> i <> j -> aget (aset a i v) j = aget a j.
Proof.
  intros Hj Hne. unfold aget, aset.
  destruct (Z.leb_spec 0 i); [| reflexivity].
  rewrite list_lookup_insert_ne by lia. reflexivity.
Qed.

Lemma aget_word a i : Forall Spec.word a -> Spec.word (aget a i).
Proof.
  intros Ha. unfold aget.
  destruct (a !! Z.to_nat i) as [x |] eqn:E; simpl.
  - eapply Forall_lookup_1; eauto.
  - unfold Spec.word. lia.
Qed.

Lemma aset_word a i v : Forall Spec.word a -> Forall Spec.word (aset a i v).
Proof.
  intros Ha. unfold aset. destruct (0 <=? i); [| assumption].
  apply Forall_insert; [assumption |]. apply u32_range.
Qed.

Lemma bank_aset a i v : Spec.bank a -> Spec.bank (aset a i v).
Proof.
  intros [Hl Hw]. split; [now rewrite length_aset | now apply aset_word].
Qed.

End ArrayFacts.

(** ** Exception entry and return *)

Section ExceptionFacts.

Import JS CPU Spec Samples.

Lemma pack_unpack n z c v t :
  bit n -> bit z -> bit c -> bit v -> bit t ->
  let p := bor (bor (bor (bor (shl (band n 1) 31) (shl (band z 1) 30))
                         (shl (band c 1) 29)) (shl (band v 1) 28))
               (band t 1) in
  u32 p = packed n z c v t /\
  band (shr (u32 p) 31) 1 = n /\
  band (shr (u32 p) 30) 1 = z /\
  band (shr (u32 p) 29) 1 = c /\
  band (shr (u32 p) 28) 1 = v /\
  band (shr (u32 p) 0) 1 = t.
Proof.
  intros [-> | ->] [-> | ->] [-> | ->] [-> | ->] [-> | ->];
    vm_compute; repeat split; reflexivity.
Qed.

Lemma clear_bit0 x : Z.testbit (u32 (band x (bnot 1))) 0 = false.
Proof.
  rewrite u32_testbit by lia. unfold band, bnot.
  rewrite Z.land_spec, !i32_testbit by lia.
  rewrite Z.lnot_spec, i32_testbit by lia.
  apply andb_false_r.
Qed.

(** What [rte] does in any state: the flags are the bits of cr1, the
    program counter is cr5. *)
Lemma rte_spec (c : CPU.t) :
  length (sr c) = 32%nat ->
  let v := u32 (CR c 1) in
  pc (rte c) = CR c 5 /\
  flags (rte c) =
    (band (shr v 31) 1, band (shr v 30) 1, band (shr v 29) 1,
     band (shr v 28) 1, band (shr v 0) 1).
Proof.
  intros Hl. unfold rte, unpackSR0, flags, SR, setSR, CR.
  cbn [pc with_pc with_T with_V with_C with_Z with_N with_sr sr cr
       flagN flagZ flagC flagV flagT].
  rewrite aget_aset_eq by lia. rewrite !u32_idem. auto.
Qed.

(** C2.  In a well-formed CPU state, exception entry with a cause in
    0..63 sets PC to cr3 + 4*cause in the unsigned 32-bit domain (so
    modulo 2^32, and literally when the sum fits), saves the old PC in cr5
    and the packed flags (N at bit 31, Z at 30, C at 29, V at 28, T at
    bit 0) in sr0 and in cr1, and clears bit 0 of cr0.  An [rte] restores
    PC from cr5 and the five flags from cr1 exactly: in any state it sets
    PC to cr5, sr0 to cr1 and each flag to its bit of cr1; so an [rte]
    right after the entry, and just as well one after a handler that has
    changed PC, the flags and sr0 but kept cr1 and cr5, gives back the PC
    and the flags of before the entry. *)
Theorem exception_entry_then_rte (c : CPU.t) (cause : Z) :
  wf c -> 0 <= cause <= 63 ->
  let c1 := exception c cause in
  let c2 := rte c1 in
  pc c1 = (CR c 3 + 4 * cause) mod 2 ^ 32 /\
  (CR c 3 + 4 * cause < 2 ^ 32 -> pc c1 = CR c 3 + 4 * cause) /\
  CR c1 5 = pc c /\
  SR c1 0 = packedFlags c /\
  CR c1 1 = packedFlags c /\
  Z.testbit (CR c1 0) 0 = false /\
  pc c2 = pc c /\
  flags c2 = flags c /\
  (forall h : CPU.t,
     length (sr h) = 32%nat ->
     CR h 5 = CR c1 5 -> CR h 1 = CR c1 1 ->
     pc (rte h) = pc c /\ flags (rte h) = flags c /\
     SR (rte h) 0 = packedFlags c) /\
  (forall h : CPU.t,
     length (sr h) = 32%nat ->
     let v := u32 (CR h 1) in
     pc (rte h) = CR h 5 /\
     SR (rte h) 0 = v /\
     flags (rte h) =
       (band (shr v 31) 1, band (shr v 30) 1, band (shr v 29) 1,
        band (shr v 28) 1, band (shr v 0) 1)).
Proof.
  intros [[Lr Wr] [Lcr Wcr] [Lsr Wsr] Hpc HN HZ HC HV HT] Hc.
  destruct (pack_unpack _ _ _ _ _ HN HZ HC HV HT)
    as (Hp & Hn & Hz & Hcf & Hv & Ht).
  assert (E1 : pc (exception c cause) = (CR c 3 + 4 * cause) mod 2 ^ 32).
  { unfold exception, CR, setCR, packSR0, setSR.
    cbn [pc with_pc cr with_cr with_sr sr].
    rewrite !aget_aset_ne by lia. unfold u32. f_equal. lia. }
  assert (E5 : CR (exception c cause) 5 = pc c).
  { unfold exception, CR, setCR, packSR0, setSR.
    cbn [pc with_pc cr with_cr with_sr sr].
    rewrite aget_aset_ne by lia.
    rewrite aget_aset_eq by (rewrite !length_aset; lia).
    now apply u32_small. }
  assert (E0 : SR (exception c cause) 0 = packedFlags c).
  { unfold exception, SR, CR, setCR, packSR0, setSR.
    cbn [pc with_pc cr with_cr with_sr sr flagN flagZ flagC flagV flagT].
    rewrite aget_aset_eq by lia. exact Hp. }
  assert (Ec1 : CR (exception c cause) 1 = packedFlags c).
  { unfold exception, SR, CR, setCR, packSR0, setSR.
    cbn [pc with_pc cr with_cr with_sr sr flagN flagZ flagC flagV flagT].
    rewrite !aget_aset_ne by lia.
    rewrite !aget_aset_eq by lia. rewrite u32_idem. exact Hp. }
  assert (Ecr0 : Z.testbit (CR (exception c cause) 0) 0 = false).
  { unfold exception, CR, setCR, packSR0, setSR.
    cbn [pc with_pc cr with_cr with_sr sr].
    rewrite aget_aset_eq by (rewrite !length_aset; lia).
    apply clear_bit0. }
  assert (Ls : length (sr (exception c cause)) = 32%nat).
  { unfold exception, setCR, packSR0, setSR.
    cbn [pc with_pc cr with_cr with_sr sr]. now rewrite length_aset. }
  assert (S0 : forall h, length (sr h) = 32%nat ->
                         SR (rte h) 0 = u32 (CR h 1)).
  { intros h Hl. unfold rte, unpackSR0, SR, setSR.
    cbn [with_pc with_T with_V with_C with_Z with_N with_sr sr].
    now rewrite aget_aset_eq by lia. }
  assert (Back : forall h, length (sr h) = 32%nat ->
            CR h 5 = CR (exception c cause) 5 ->
            CR h 1 = CR (exception c cause) 1 ->
            pc (rte h) = pc c /\ flags (rte h) = flags c /\
            SR (rte h) 0 = packedFlags c).
  { intros h Hl H5 H1. destruct (rte_spec h Hl) as [Rpc Rfl].
    split; [now rewrite Rpc, H5 |]. split.
    - rewrite Rfl, H1, Ec1. unfold packedFlags. rewrite <- Hp.
      rewrite !u32_idem. unfold flags.
      rewrite Hn, Hz, Hcf, Hv, Ht. reflexivity.
    - rewrite (S0 h Hl), H1, Ec1. unfold packedFlags. rewrite <- Hp.
      apply u32_idem. }
  destruct (Back (exception c cause) Ls eq_refl eq_refl) as (Rpc & Rfl & _).
  cbv zeta. split; [exact E1 |]. split.
  { intros. rewrite E1. apply Z.mod_small.
    pose proof (aget_word (cr c) 3 Wcr) as Hw. unfold word, CR in *. lia. }
  do 4 (split; [assumption |]).
  split; [exact Rpc |]. split; [exact Rfl |]. split; [exact Back |].
  intros h Hl. destruct (rte_spec h Hl) as [Rp Rf].
  split; [exact Rp |]. split; [exact (S0 h Hl) | exact Rf].
Qed.

Lemma bank_Uint32Array : bank (Uint32Array 32).
Proof.
  split; [reflexivity |]. apply Forall_replicate. unfold word. lia.
Qed.

Lemma reset_wf : wf reset.
Proof.
  constructor; cbn [reset r cr sr pc flagN flagZ flagC flagV flagT];
    try apply bank_Uint32Array; try (unfold word; lia); now left.
Qed.

Lemma wf_setCR c i v : wf c -> wf (setCR c i v).
Proof. intros []. constructor; try assumption. now apply bank_aset. Qed.

Lemma wf_with_pc c x : wf c -> word x -> wf (with_pc c x).
Proof. intros [] ?. constructor; assumption. Qed.

Lemma wf_with_N c x : wf c -> bit x -> wf (with_N c x).
Proof. intros [] ?. constructor; assumption. Qed.

Lemma wf_with_C c x : wf c -> bit x -> wf (with_C c x).
Proof. intros [] ?. constructor; assumption. Qed.

Lemma sample_wf : wf sample.
Proof.
  unfold sample.
  apply wf_with_C; [apply wf_with_N; [apply wf_with_pc;
    [apply wf_setCR, reset_wf | unfold word; lia] | now right] | now right].
Qed.

Lemma exception_entry_then_rte_witness :
  let h := with_Z (with_N (with_pc (exception sample 5) 2650800200) 0) 1 in
  wf sample /\ 0 <= 5 <= 63 /\
  pc (exception sample 5) = (CR sample 3 + 4 * 5) mod 2 ^ 32 /\
  pc (rte (exception sample 5)) = pc sample /\
  flags (rte (exception sample 5)) = flags sample /\
  flags h <> flags sample /\
  pc (rte h) = pc sample /\
  flags (rte h) = flags sample.
Proof.
  pose proof (exception_entry_then_rte sample 5 sample_wf ltac:(lia)) as H.
  cbv zeta in H. destruct H as (H1 & _ & _ & _ & _ & _ & H7 & H8 & H9 & _).
  cbv zeta. split; [exact sample_wf |]. split; [lia |].
  do 3 (split; [assumption |]).
  split; [vm_compute; discriminate |].
  destruct (H9 (with_Z (with_N (with_pc (exception sample 5) 2650800200) 0) 1)
              eq_refl eq_refl eq_refl) as (Hp & Hf & _).
  split; assumption.
Defined.

End ExceptionFacts.

(** ** Instructions leave the counters alone *)

Section Frame.

Import JS CPU.

Create Rewrite HintDb frame.

Ltac prim := intros; reflexivity.

Lemma counters_setR c i v : counters (setR c i v) = counters c. Proof. prim. Qed.
Lemma counters_setCR c i v : counters (setCR c i v) = counters c. Proof. prim. Qed.
Lemma counters_setSR c i v : counters (setSR c i v) = counters c. Proof. prim. Qed.
Lemma counters_with_pc c v : counters (with_pc c v) = counters c. Proof. prim. Qed.
Lemma counters_with_CEL c v : counters (with_CEL c v) = counters c. Proof. prim. Qed.
Lemma counters_with_CEH c v : counters (with_CEH c v) = counters c. Proof. prim. Qed.
Lemma counters_with_N c v : counters (with_N c v) = counters c. Proof. prim. Qed.
Lemma counters_with_Z c v : counters (with_Z c v) = counters c. Proof. prim. Qed.
Lemma counters_with_C c v : counters (with_C c v) = counters c. Proof. prim. Qed.
Lemma counters_with_V c v : counters (with_V c v) = counters c. Proof. prim. Qed.
Lemma counters_with_T c v : counters (with_T c v) = counters c. Proof. prim. Qed.

Hint Rewrite counters_setR counters_setCR counters_setSR counters_with_pc
  counters_with_CEL counters_with_CEH counters_with_N counters_with_Z
  counters_with_C counters_with_V counters_with_T : frame.

Ltac split_step :=
  match goal with
  | |- context [if ?b then _ else _] => destruct b
  | |- context [match ?x with _ => _ end] => destruct x
  end.

Ltac frame :=
  intros; cbn [fst snd];
  repeat (autorewrite with frame; try reflexivity; split_step; cbn [fst snd]);
  autorewrite with frame; try reflexivity.

Lemma counters_updateBasicFlags c res :
  counters (updateBasicFlags c res) = counters c.
Proof. prim. Qed.
Hint Rewrite counters_updateBasicFlags : frame.

Lemma counters_packSR0 c : counters (packSR0 c) = counters c. Proof. prim. Qed.
Lemma counters_unpackSR0 c : counters (unpackSR0 c) = counters c. Proof. prim. Qed.
Lemma counters_exception c n : counters (exception c n) = counters c. Proof. prim. Qed.
Lemma counters_rte c : counters (rte c) = counters c. Proof. prim. Qed.
Hint Rewrite counters_packSR0 counters_unpackSR0 counters_exception counters_rte : frame.

Lemma counters_add c a b u : counters (snd (add c a b u)) = counters c.
Proof. unfold add. frame. Qed.
Lemma counters_addc c a b u : counters (snd (addc c a b u)) = counters c.
Proof. unfold addc. frame. Qed.
Lemma counters_sub c a b u : counters (snd (sub c a b u)) = counters c.
Proof. unfold sub. frame. Qed.
Lemma counters_subc c a b u : counters (snd (subc c a b u)) = counters c.
Proof. unfold subc. frame. Qed.
Lemma counters_neg c a u : counters (snd (neg c a u)) = counters c.
Proof. unfold neg. frame. Qed.
Lemma counters_bitOp c a b o u : counters (snd (bitOp c a b o u)) = counters c.
Proof. unfold bitOp. frame. Qed.
Lemma counters_sll c a b u : counters (snd (sll c a b u)) = counters c.
Proof. unfold sll. frame. Qed.
Lemma counters_srl c a b u : counters (snd (srl c a b u)) = counters c.
Proof. unfold srl. frame. Qed.
Lemma counters_sra c a b u : counters (snd (sra c a b u)) = counters c.
Proof. unfold sra. frame. Qed.
Lemma counters_ror c a b u : counters (snd (ror c a b u)) = counters c.
Proof. unfold ror. frame. Qed.
Lemma counters_rol c a b u : counters (snd (rol c a b u)) = counters c.
Proof. unfold rol. frame. Qed.
Lemma counters_rorc c a u : counters (snd (rorc c a u)) = counters c.
Proof. unfold rorc. frame. Qed.
Lemma counters_rolc c a u : counters (snd (rolc c a u)) = counters c.
Proof. unfold rolc. frame. Qed.
Lemma counters_extsb c a u : counters (snd (extsb c a u)) = counters c.
Proof. unfold extsb. frame. Qed.
Lemma counters_extsh c a u : counters (snd (extsh c a u)) = counters c.
Proof. unfold extsh. frame. Qed.
Lemma counters_extzb c a u : counters (snd (extzb c a u)) = counters c.
Proof. unfold extzb. frame. Qed.
Lemma counters_extzh c a u : counters (snd (extzh c a u)) = counters c.
Proof. unfold extzh. frame. Qed.
Lemma counters_bitclr c a b u : counters (snd (bitclr c a b u)) = counters c.
Proof. unfold bitclr. frame. Qed.
Lemma counters_bitset c a b u : counters (snd (bitset c a b u)) = counters c.
Proof. unfold bitset. frame. Qed.
Lemma counters_bittgl c a b u : counters (snd (bittgl c a b u)) = counters c.
Proof. unfold bittgl. frame. Qed.
Lemma counters_bittst c a b : counters (bittst c a b) = counters c.
Proof. prim. Qed.
Lemma counters_execMul c a b : counters (execMul c a b) = counters c.
Proof. prim. Qed.
Lemma counters_execMulu c a b : counters (execMulu c a b) = counters c.
Proof. prim. Qed.
Lemma counters_execDiv c a b : counters (execDiv c a b) = counters c.
Proof. unfold execDiv. frame. Qed.
Lemma counters_execDivu c a b : counters (execDivu c a b) = counters c.
Proof. unfold execDivu. frame. Qed.
Lemma counters_moveFromCE c a b : counters (moveFromCE c a b) = counters c.
Proof. unfold moveFromCE. frame. Qed.
Lemma counters_moveToCE c a b : counters (moveToCE c a b) = counters c.
Proof. unfold moveToCE. frame. Qed.

Hint Rewrite counters_add counters_addc counters_sub counters_subc
  counters_neg counters_bitOp counters_sll counters_srl counters_sra
  counters_ror counters_rol counters_rorc counters_rolc counters_extsb
  counters_extsh counters_extzb counters_extzh counters_bitclr
  counters_bitset counters_bittgl counters_bittst counters_execMul
  counters_execMulu counters_execDiv counters_execDivu counters_moveFromCE
  counters_moveToCE : frame.

Context {M : Type} `{MemoryRegion M}.

Lemma counters_alu rD (x : Z * t) :
  counters (alu rD x) = counters (snd x).
Proof. prim. Qed.
Hint Rewrite counters_alu : frame.

Lemma counters_miu_load rd c (m : option M) addr k :
  (forall c v, counters (k c v) = counters c) ->
  counters (fst (miu_load rd c m addr k)) = counters c.
Proof.
  intros Hk. unfold miu_load. destruct m as [mem |]; [| reflexivity].
  destruct (rd mem addr). apply Hk.
Qed.

Lemma counters_miu_store wr c (m : option M) addr v :
  counters (fst (miu_store wr c m addr v)) = counters c.
Proof. unfold miu_store. destruct m; reflexivity. Qed.

Lemma counters_loadstore sel c (mem : M) rD addr :
  counters (fst (loadstore sel c mem rD addr)) = counters c.
Proof.
  unfold loadstore.
  repeat match goal with
         | |- context [match ?x with _ => _ end] => destruct x
         end; reflexivity.
Qed.

Ltac mem_frame :=
  first [ rewrite counters_miu_store
        | rewrite counters_miu_load by (intros; autorewrite with frame; reflexivity) ].

Ltac exec_frame :=
  intros; cbn [fst snd];
  repeat (autorewrite with frame; try mem_frame; try reflexivity; split_step;
          cbn [fst snd]);
  autorewrite with frame; try mem_frame; try reflexivity.

Lemma counters_execSpForm c (m : option M) insn :
  counters (fst (snd (execSpForm c m insn))) = counters c.
Proof. unfold execSpForm. exec_frame. Qed.

Lemma counters_execIForm c (m : option M) insn :
  counters (fst (snd (execIForm c m insn))) = counters c.
Proof. unfold execIForm. exec_frame. Qed.

Lemma counters_execJForm c (m : option M) insn :
  counters (fst (snd (execJForm c m insn))) = counters c.
Proof. unfold execJForm. exec_frame. Qed.

Lemma counters_execBForm c (m : option M) insn :
  counters (fst (snd (execBForm c m insn))) = counters c.
Proof. unfold execBForm. exec_frame. Qed.

Lemma counters_execRixForm c (m : option M) insn :
  counters (fst (snd (execRixForm c m insn))) = counters c.
Proof.
  unfold execRixForm. destruct m as [mem |]; [| reflexivity].
  match goal with
  | |- context [loadstore ?s ?c ?m ?d ?a] =>
      pose proof (counters_loadstore s c m d a) as E;
      destruct (loadstore s c m d a) as [c1 mem1]
  end.
  cbn [fst snd] in *. destruct (_ =? 3); autorewrite with frame; exact E.
Qed.

Lemma counters_execMemoryForm c (m : option M) insn :
  counters (fst (snd (execMemoryForm c m insn))) = counters c.
Proof.
  unfold execMemoryForm. destruct m as [mem |]; [| reflexivity].
  destruct (_ && _); [| reflexivity].
  match goal with
  | |- context [loadstore ?s ?c ?m ?d ?a] =>
      pose proof (counters_loadstore s c m d a) as E;
      destruct (loadstore s c m d a) as [c1 mem1]
  end.
  exact E.
Qed.

Lemma counters_exec16 c (m : option M) insn :
  counters (fst (snd (exec16 c m insn))) = counters c.
Proof. unfold exec16. exec_frame. Qed.

Lemma counters_execute f c (m : option M) encoded :
  counters (fst (snd (execute f c m encoded))) = counters c.
Proof.
  destruct f as [[] |]; cbn [execute].
  - apply counters_execSpForm.
  - apply counters_execIForm.
  - apply counters_execJForm.
  - apply counters_execRixForm.
  - apply counters_execBForm.
  - apply counters_execMemoryForm.
  - apply counters_exec16.
  - reflexivity.
Qed.

(** What a successful step does to the counters, whatever the instruction. *)
Lemma step_counters c (m : option M) c' m' :
  step c m = (true, (c', m')) ->
  cycles c' = cycles c + 1 /\ instructions c' = instructions c + 1.
Proof.
  unfold step. destruct (halted c); [discriminate |].
  destruct m as [mem |]; [| discriminate].
  destruct (readU32 mem (pc c)) as [encoded mem1].
  pose proof (counters_execute (dispatch (band (shr encoded 27) 31)) c
                (Some mem1) encoded) as E.
  destruct (execute _ c (Some mem1) encoded) as [result [c1 m1]].
  cbn [fst snd] in E. intros Hs. injection Hs as <- _.
  unfold counters in E. injection E as E1 E2 _.
  destruct (negb _); cbn; lia.
Qed.

End Frame.

(** ** The execution cycle *)

Section StepFacts.

Import JS CPU Spec Boot.

#[local] Existing Instance MIU.region.
#[local] Existing Instance Engine.region.

(** C1, as the code has it.  For every successfully executed instruction
    [step] increments the CPU cycle counter (and the instruction counter)
    by one; in particular, booting with the word 0x00000000 (nop) at
    0x9E000000 and executing one step leaves PC == 0x9E000004,
    cycles == 1, and the flags N, Z, C, V, T unchanged. *)
Theorem step_counts_one_cycle :
  (forall (M : Type) (H : MemoryRegion M) (c : CPU.t) (m : option M) c' m',
      step c m = (true, (c', m')) ->
      cycles c' = cycles c + 1 /\ instructions c' = instructions c + 1) /\
  (let e := boot nop in
   let s := step (Engine.cpu e) (Engine.miu e) in
   Engine.state e = Engine.PAUSED /\
   pc (Engine.cpu e) = 2650800128 /\
   fst s = true /\
   pc (fst (snd s)) = 2650800132 /\
   cycles (fst (snd s)) = 1 /\
   flags (fst (snd s)) = flags (Engine.cpu e)).
Proof.
  split.
  - intros M H c m c' m'. apply step_counters.
  - vm_compute. repeat split; reflexivity.
Qed.

Lemma step_counts_one_cycle_witness :
  let e := boot nop in
  let s := step (Engine.cpu e) (Engine.miu e) in
  s = (true, snd s) /\
  cycles (fst (snd s)) = cycles (Engine.cpu e) + 1 /\
  instructions (fst (snd s)) = instructions (Engine.cpu e) + 1.
Proof.
  cbv zeta.
  assert (E : step (Engine.cpu (boot nop)) (Engine.miu (boot nop)) =
              (true, snd (step (Engine.cpu (boot nop)) (Engine.miu (boot nop)))))
    by (vm_compute; reflexivity).
  split; [exact E |].
  rewrite (surjective_pairing (snd _)) in E.
  exact (proj1 step_counts_one_cycle _ _ _ _ _ _ E).
Defined.

(** C1 as stated fails: after the successful step of S1 the cycle
    counter is 1, not 4. *)
Lemma step_four_cycles_counterexample :
  let e := boot nop in
  let s := step (Engine.cpu e) (Engine.miu e) in
  fst s = true /\
  cycles (Engine.cpu e) = 0 /\
  cycles (fst (snd s)) <> cycles (Engine.cpu e) + 4 /\
  cycles (fst (snd s)) <> 4.
Proof. vm_compute. repeat split; congruence. Qed.

(** The nominal four cycles are charged by the engine, to its own
    counter. *)
Lemma engine_step_charges_four {W : Type} (e : Engine.t W) :
  Engine.romLoaded e = true ->
  fst (step (Engine.cpu (Engine.pause e)) (Engine.miu (Engine.pause e)))
    = true ->
  Engine.cyclesExecuted (Engine.step e) = Engine.cyclesExecuted e + 4.
Proof.
  intros Hl Hs. unfold Engine.step. rewrite Hl. cbn [negb].
  destruct (step _ _) as [ok [c m]]. cbn [fst] in Hs. subst ok.
  cbn. unfold Engine.pause. destruct (Engine.state e); reflexivity.
Qed.

(** C10.  A halted CPU, or one without an MIU, refuses to step: [step]
    returns [false] and hands back the very same CPU state (PC, the
    register banks, the flags, CEL/CEH, the cycle and instruction counters)
    and the same memory. *)
Theorem step_refused (M : Type) (H : MemoryRegion M) (c : CPU.t)
    (m : option M) :
  halted c = true \/ m = None ->
  step c m = (false, (c, m)).
Proof.
  intros [Hh | ->]; unfold step.
  - now rewrite Hh.
  - now destruct (halted c).
Qed.

Lemma step_refused_witness :
  let c := with_halted (Engine.cpu (boot nop)) true in
  halted c = true /\
  step c (Engine.miu (boot nop)) = (false, (c, Engine.miu (boot nop))) /\
  step (Engine.cpu (boot nop)) (@None memory)
    = (false, (Engine.cpu (boot nop), None)).
Proof.
  cbv zeta. split; [reflexivity |]. split.
  - apply (step_refused memory _ _ _). left. reflexivity.
  - apply (step_refused memory _ _ _). right. reflexivity.
Defined.

(** C6, at the failing inputs.  A fetched word with opcode 0x06 reaches no
    executor: the [switch] of [step] has no case for it.  Whatever the
    sub-opcode, the step only advances PC by four and counts the
    instruction: [mfcr r1, cr3] leaves r1, [mtcr cr3, r1] leaves cr3, and
    [rte] restores neither PC from cr5 nor the flags from cr1. *)
Theorem cr_form_not_executed :
  dispatch 6 = None /\
  (let c := prepared mfcr_r1_cr3 in
   let s := step c (Engine.miu (boot mfcr_r1_cr3)) in
   fst s = true /\ CR c 3 = 4660 /\ R (fst (snd s)) 1 = 22136 /\
   pc (fst (snd s)) = pc c + 4) /\
  (let c := prepared mtcr_cr3_r1 in
   let s := step c (Engine.miu (boot mtcr_cr3_r1)) in
   fst s = true /\ R c 1 = 22136 /\ CR (fst (snd s)) 3 = 4660 /\
   pc (fst (snd s)) = pc c + 4) /\
  (let c := prepared rte_word in
   let s := step c (Engine.miu (boot rte_word)) in
   fst s = true /\ CR c 5 = 2650800384 /\ CR c 1 = 2147483648 /\
   pc (fst (snd s)) = pc c + 4 /\ pc (fst (snd s)) <> CR c 5 /\
   flagN (fst (snd s)) = 0 /\ flags (fst (snd s)) = flags c).
Proof. vm_compute. repeat split; congruence. Qed.

(** The same for every state and memory: with opcode 0x06 fetched, the
    step is [PC += 4] and the two counters, nothing else. *)
Lemma step_opcode6 (M : Type) (H : MemoryRegion M) (c : CPU.t) (mem : M) :
  halted c = false ->
  band (shr (fst (readU32 mem (pc c))) 27) 31 = 6 ->
  step c (Some mem) =
    (true,
     (with_instructions
        (with_cycles (with_pc c (u32 (pc c + 4))) (cycles c + 1))
        (instructions c + 1),
      Some (snd (readU32 mem (pc c))))).
Proof.
  intros Hh Hop. unfold step. rewrite Hh.
  destruct (readU32 mem (pc c)) as [encoded mem1]. cbn [fst snd] in *.
  rewrite Hop. reflexivity.
Qed.

(** C9, at the failing input.  After [cmp r0, r0] the flags are Z = C =
    T = 1; the [mfsr r1, sr0] that follows copies the stored sr0, which is
    still 0, and not the packed flags 0x60000001. *)
Theorem mfsr_sr0_is_stale :
  let e := boot cmp_mfsr in
  let s := steps 2 (Engine.cpu e) (Engine.miu e) in
  flags (fst s) = (0, 1, 1, 0, 1) /\
  packedFlags (fst s) = 1610612737 /\
  R (fst s) 1 = 0 /\
  getSystemRegister (fst s) 0 = 0 /\
  R (fst s) 1 <> packedFlags (fst s).
Proof. vm_compute. repeat split; congruence. Qed.

(** The write direction of the mirror holds: storing to sr0 unpacks the
    stored word into the five flags. *)
Lemma setSystemRegister_unpacks (c : CPU.t) (v : Z) :
  length (sr c) = 32%nat ->
  let c' := setSystemRegister c 0 v in
  let w := u32 v in
  SR c' 0 = w /\
  flags c' = (band (shr w 31) 1, band (shr w 30) 1, band (shr w 29) 1,
              band (shr w 28) 1, band (shr w 0) 1).
Proof.
  intros Hl. unfold setSystemRegister, unpackSR0, flags, SR, setSR.
  cbn [in_bank Z.leb Z.ltb Z.compare andb Z.eqb].
  cbn [pc with_pc with_T with_V with_C with_Z with_N with_sr sr cr
       flagN flagZ flagC flagV flagT].
  rewrite aget_aset_eq by lia. rewrite !u32_idem. auto.
Qed.

End StepFacts.

(** ** Bits of 32-bit values *)

Section BitFacts.

Import JS.

Lemma int32_high_bits y m :
  -2147483648 <= y < 2147483648 -> 31 <= m -> Z.testbit y m = (y <? 0).
Proof.
  intros Hy Hm. destruct (Z.ltb_spec y 0).
  - replace y with (Z.lnot (- y - 1)) by (unfold Z.lnot; lia).
    rewrite Z.lnot_spec by lia.
    rewrite <- (Z.mod_small (- y - 1) (2 ^ 31)) by lia.
    rewrite Z.mod_pow2_bits_high by lia. reflexivity.
  - rewrite <- (Z.mod_small y (2 ^ 31)) by lia.
    apply Z.mod_pow2_bits_high. lia.
Qed.

Lemma i32_high_bits x m : 31 <= m -> Z.testbit (i32 x) m = Z.testbit x 31.
Proof.
  intros Hm. rewrite <- (i32_testbit x 31) by lia.
  rewrite !int32_high_bits by (try apply i32_range; lia). reflexivity.
Qed.

Lemma i32_idem x : i32 (i32 x) = i32 x.
Proof. apply i32_small, i32_range. Qed.

Lemma shl_1 n : 0 <= n < 32 -> shl 1 n = i32 (2 ^ n).
Proof.
  intros. unfold shl. rewrite shcount_small by lia.
  replace (i32 1) with 1 by reflexivity. now rewrite Z.shiftl_1_l.
Qed.

Lemma testbit_shl_1 n m :
  0 <= n < 32 -> 0 <= m < 32 -> Z.testbit (shl 1 n) m = (n =? m).
Proof.
  intros. rewrite shl_1, i32_testbit by lia. apply Z.pow2_bits_eqb. lia.
Qed.

(** [(x & (1 << n)) !== 0] tests bit [n] of [x]. *)
Lemma band_shl_1_test x n :
  0 <= n < 32 -> negb (band x (shl 1 n) =? 0) = Z.testbit x n.
Proof.
  intros Hn. unfold band. rewrite <- (i32_testbit x n) by lia.
  set (y := i32 x). set (p := i32 (shl 1 n)).
  assert (Hp : forall m, 0 <= m < 32 -> Z.testbit p m = (n =? m)).
  { intros m Hm. unfold p. rewrite i32_testbit by lia.
    now apply testbit_shl_1. }
  destruct (Z.testbit y n) eqn:Hy.
  - destruct (Z.eqb_spec (Z.land y p) 0) as [E |]; [| reflexivity].
    apply (f_equal (fun z => Z.testbit z n)) in E.
    rewrite Z.land_spec, Hy, Hp, Z.eqb_refl, Z.bits_0 in E by lia.
    discriminate.
  - replace (Z.land y p) with 0; [reflexivity |].
    symmetry. apply Z.bits_inj'. intros m Hm.
    rewrite Z.land_spec, Z.bits_0.
    destruct (Z.ltb_spec m 32).
    + rewrite Hp by lia. destruct (Z.eqb_spec n m); subst.
      * now rewrite Hy.
      * apply andb_false_r.
    + unfold y, p. rewrite !i32_high_bits by lia.
      rewrite (testbit_shl_1 n 31) by lia.
      destruct (Z.eqb_spec n 31); subst.
      * fold y. rewrite <- (i32_testbit x 31) by lia. fold y. now rewrite Hy.
      * apply andb_false_r.
Qed.

(** [x |= (1 << n)] sets bit [n] and keeps the other bits of the word. *)
Lemma testbit_bor_shl_1 x n m :
  0 <= n < 32 -> 0 <= m < 32 ->
  Z.testbit (bor x (shl 1 n)) m = Z.testbit x m || (n =? m).
Proof.
  intros. unfold bor. rewrite Z.lor_spec, !i32_testbit by lia.
  now rewrite testbit_shl_1.
Qed.

(** [x & 0xFF] is the low byte. *)
Lemma band_255 x : band x 255 = x mod 256.
Proof.
  unfold band. replace (i32 255) with (Z.ones 8) by reflexivity.
  rewrite Z.land_ones by lia. destruct (i32_eqm x) as [k ->].
  change (2 ^ 8) with 256.
  replace (x + k * 4294967296) with (x + (k * 16777216) * 256) by lia.
  apply Z.mod_add. lia.
Qed.

(** Bits of a word after [x |= mask] and [x &= ~mask], for a mask that is
    a small constant. *)
Lemma testbit_bor x k m :
  0 <= m < 32 -> Z.testbit (bor x k) m = Z.testbit x m || Z.testbit k m.
Proof. intros. unfold bor. now rewrite Z.lor_spec, !i32_testbit by lia. Qed.

Lemma testbit_band_bnot x k m :
  0 <= m < 32 ->
  Z.testbit (band x (bnot k)) m = Z.testbit x m && negb (Z.testbit k m).
Proof.
  intros. unfold band, bnot.
  rewrite Z.land_spec, !i32_testbit by lia.
  now rewrite Z.lnot_spec, i32_testbit by lia.
Qed.

Lemma band_pow2_test x n :
  0 <= n < 31 -> truthy (band x (2 ^ n)) = Z.testbit x n.
Proof.
  intros Hn. unfold truthy. rewrite <- (band_shl_1_test x n) by lia.
  rewrite shl_1 by lia. unfold band. rewrite i32_idem. reflexivity.
Qed.

End BitFacts.

(** ** The UART *)

Section UARTFacts.

Import JS UART.

Lemma rx_ready_set s : Z.testbit (bor s STATUS_RX_READY) 6 = true.
Proof. rewrite testbit_bor by lia. apply orb_true_r. Qed.

Lemma rx_ready_cleared s n :
  0 <= n < 32 ->
  Z.testbit (band s (bnot STATUS_RX_READY)) n
  = Z.testbit s n && negb (n =? 6).
Proof.
  intros. rewrite testbit_band_bnot by lia. f_equal. f_equal.
  change STATUS_RX_READY with (2 ^ 6). rewrite Z.pow2_bits_eqb by lia.
  apply Z.eqb_sym.
Qed.

(** Reception as the code has it.  Enqueuing a received byte appends it
    (masked to eight bits) to the internal RX FIFO, places that byte in the
    RX data register -- the head of the FIFO when the FIFO was empty -- and
    sets the RX-ready status bit (0x40), which a read of STATUS at offset
    0x0C shows; a read of the TX/RX register at offset 0x00 returns the RX
    data register and clears RX-ready, leaving the other status bits
    alone. *)
Theorem receive_then_read (u : UART.t) (byte : Z) :
  let u1 := receiveData u byte in
  let rd := readU32 u1 0 in
  rxQueue u1 = rxQueue u ++ [byte mod 256] /\
  RX_BUF u1 = byte mod 256 /\
  (rxQueue u = [] -> head (rxQueue u1) = Some (RX_BUF u1)) /\
  Z.testbit (STATUS u1) 6 = true /\
  Z.testbit (fst (readU32 u1 12)) 6 = true /\
  fst rd = byte mod 256 /\
  Z.testbit (STATUS (snd rd)) 6 = false /\
  Z.testbit (fst (readU32 (snd rd) 12)) 6 = false /\
  (forall n, 0 <= n < 32 -> n <> 6 ->
             Z.testbit (STATUS (snd rd)) n = Z.testbit (STATUS u) n).
Proof.
  cbv zeta. unfold receiveData, readU32.
  change (band 0 65535) with 0. change (band 12 65535) with 12.
  cbn [rxQueue with_rxQueue with_bytesReceived with_STATUS with_RX_BUF
       with_rxData RX_BUF STATUS fst snd].
  rewrite band_255.
  repeat split.
  - intros ->. reflexivity.
  - apply rx_ready_set.
  - apply rx_ready_set.
  - rewrite rx_ready_cleared by lia. apply andb_false_r.
  - rewrite rx_ready_cleared by lia. apply andb_false_r.
  - intros n Hn Hne. rewrite rx_ready_cleared by lia.
    rewrite testbit_bor by lia.
    change STATUS_RX_READY with (2 ^ 6). rewrite Z.pow2_bits_eqb by lia.
    destruct (Z.eqb_spec 6 n); [lia |].
    destruct (Z.eqb_spec n 6); [lia |].
    now rewrite orb_false_r, andb_true_r.
Qed.

(** S6: [enqueueRx(0x41)] on a UART after reset. *)
Lemma receive_then_read_witness :
  rxQueue create = [] /\
  head (rxQueue (receiveData create 65)) = Some 65 /\
  fst (readU32 (receiveData create 65) 0) = 65.
Proof.
  pose proof (receive_then_read create 65) as H. cbv zeta in H.
  destruct H as (_ & Hb & Hh & _ & _ & Hr & _).
  split; [reflexivity |]. split.
  - rewrite (Hh eq_refl), Hb. reflexivity.
  - exact Hr.
Defined.

(** C4, at a failing input: two bytes in flight.  The RX data register
    holds the byte received last and not the head of the FIFO, the read
    returns that byte and removes nothing, and RX-ready is cleared although
    the FIFO is not empty; [getNextRXByte], which would take the head, is
    not called by the read. *)
Lemma receive_then_read_counterexample :
  let u := receiveData (receiveData create 65) 66 in
  let rd := readU32 u 0 in
  rxQueue u = [65; 66] /\
  head (rxQueue u) = Some 65 /\
  RX_BUF u = 66 /\
  fst rd = 66 /\
  rxQueue (snd rd) = [65; 66] /\
  rxQueue (snd rd) <> [] /\
  rxReady (snd rd) = false.
Proof. vm_compute. repeat split; congruence. Qed.

(** The read path never consumes the FIFO, and [getNextRXByte], which
    would, is not on it. *)
Lemma readU32_keeps_rxQueue (u : UART.t) (address : Z) :
  rxQueue (snd (readU32 u address)) = rxQueue u.
Proof.
  unfold readU32.
  repeat match goal with
         | |- context [match ?x with _ => _ end] => destruct x
         end; reflexivity.
Qed.

End UARTFacts.

(** ** The interrupt controller *)

Section INTCFacts.

Import JS INTC.

(** C7.  For an IRQ line n in 0..31, [trigger(cpu, n)] marks the line
    pending in STATUS; with MASK bit n set the CPU comes back from exception
    entry with cause n (one more processed interrupt); with MASK bit n
    clear the CPU is untouched and no interrupt is processed, and a later
    write to MASK, whatever its value, leaves the line pending and
    processes nothing: register writes have no CPU to act on. *)
Theorem trigger_pending_then_masked (i : INTC.t) (c : CPU.t) (n : Z) :
  0 <= n <= 31 ->
  let tr := trigger i (Some c) n in
  Z.testbit (INT_STATUS (fst tr)) n = true /\
  (Z.testbit (INT_MASK i) n = true ->
     snd tr = Some (CPU.exception c n) /\
     processed (fst tr) = processed i + 1) /\
  (Z.testbit (INT_MASK i) n = false ->
     snd tr = Some c /\
     processed (fst tr) = processed i /\
     blocked (fst tr) = blocked i + 1 /\
     forall v,
       let i2 := writeU32 (fst tr) 0 v in
       INT_MASK i2 = v /\
       Z.testbit (INT_STATUS i2) n = true /\
       processed i2 = processed i).
Proof.
  intros Hn. cbv zeta. unfold trigger.
  destruct (Z.ltb_spec n 0); [lia |]. destruct (Z.ltb_spec 31 n); [lia |].
  cbn [orb]. cbn [INT_MASK INT_STATUS with_triggered with_STATUS].
  rewrite band_shl_1_test by lia.
  assert (Hs : Z.testbit (bor (INT_STATUS i) (shl 1 n)) n = true).
  { rewrite testbit_bor_shl_1 by lia. rewrite Z.eqb_refl. apply orb_true_r. }
  destruct (Z.testbit (INT_MASK i) n); cbn; (split; [exact Hs |]);
    split; intros E; try discriminate; repeat split; try reflexivity.
  exact Hs.
Qed.

Lemma trigger_pending_then_masked_witness :
  0 <= 5 <= 31 /\
  Z.testbit (INT_MASK (enableIRQ create 5)) 5 = true /\
  snd (trigger (enableIRQ create 5) (Some Samples.sample) 5)
    = Some (CPU.exception Samples.sample 5) /\
  Z.testbit (INT_MASK create) 5 = false /\
  snd (trigger create (Some Samples.sample) 5) = Some Samples.sample /\
  processed (writeU32 (fst (trigger create (Some Samples.sample) 5)) 0 32)
    = 0.
Proof.
  pose proof (trigger_pending_then_masked (enableIRQ create 5)
                Samples.sample 5 ltac:(lia)) as H1.
  pose proof (trigger_pending_then_masked create Samples.sample 5
                ltac:(lia)) as H2.
  cbv zeta in H1, H2.
  destruct H1 as (_ & H1 & _). destruct H2 as (_ & _ & H2).
  assert (M1 : Z.testbit (INT_MASK (enableIRQ create 5)) 5 = true)
    by reflexivity.
  assert (M2 : Z.testbit (INT_MASK create) 5 = false) by reflexivity.
  destruct (H1 M1) as (E1 & _).
  destruct (H2 M2) as (E2 & _ & _ & W).
  destruct (W 32) as (_ & _ & E3).
  repeat split; try lia; try assumption.
Defined.

End INTCFacts.

(** ** Read-modify-write in the I/O region *)

Section MergeFacts.

Import JS.

Lemma testbit_shl a s m :
  0 <= s < 32 -> 0 <= m < 32 ->
  Z.testbit (shl a s) m = Z.testbit a (m - s) && (s <=? m).
Proof.
  intros Hs Hm. unfold shl. rewrite shcount_small by lia.
  rewrite i32_testbit, Z.shiftl_spec by lia.
  destruct (Z.leb_spec s m).
  - rewrite i32_testbit by lia. now rewrite andb_true_r.
  - rewrite !Z.testbit_neg_r by lia. reflexivity.
Qed.

Lemma testbit_chunk x n j i :
  0 <= n -> 0 <= j -> 0 <= i ->
  Z.testbit ((x / 2 ^ (n * j)) mod 2 ^ n) i
  = (i <? n) && Z.testbit x (n * j + i).
Proof.
  intros. rewrite Z.testbit_mod_pow2 by lia.
  rewrite Z.div_pow2_bits by lia. do 2 f_equal. lia.
Qed.

Lemma band_ones_r x n :
  0 <= n < 32 -> band x (Z.ones n) = x mod 2 ^ n.
Proof.
  intros Hn. unfold band.
  assert (0 < 2 ^ n <= 2 ^ 31) by (split; [lia | apply Z.pow_le_mono_r; lia]).
  rewrite (i32_small (Z.ones n)) by (rewrite Z.ones_equiv; lia).
  rewrite Z.land_ones by lia. destruct (i32_eqm x) as [k ->].
  replace 4294967296 with (2 ^ (32 - n) * 2 ^ n)
    by (rewrite <- Z.pow_add_r by lia; now replace (32 - n + n) with 32 by lia).
  rewrite Z.mul_assoc. apply Z.mod_add. lia.
Qed.

(** The merged word of a sub-word write: [n]-bit chunk [k] of [old] is
    replaced by the low [n] bits of [v]. *)
Lemma merge_chunk n old v k j :
  (n = 8 \/ n = 16) -> 0 <= k -> n * k + n <= 32 -> 0 <= j ->
  n * j + n <= 32 ->
  let w := u32 (bor (band old (bnot (shl (Z.ones n) (k * 8 * (n / 8)))))
                    (shl (band v (Z.ones n)) (k * 8 * (n / 8)))) in
  (w / 2 ^ (n * j)) mod 2 ^ n
  = if j =? k then v mod 2 ^ n else (old / 2 ^ (n * j)) mod 2 ^ n.
Proof.
  intros Hn Hk Hkn Hj Hjn w.
  assert (Hs : k * 8 * (n / 8) = n * k).
  { destruct Hn; subst n; [change (8 / 8) with 1 | change (16 / 8) with 2];
      lia. }
  assert (Hn' : 0 < n <= 16) by lia.
  apply Z.bits_inj'. intros i Hi.
  rewrite testbit_chunk by lia.
  assert (Hw : i < n ->
               Z.testbit w (n * j + i)
               = Z.testbit old (n * j + i)
                 && negb ((0 <=? n * j + i - n * k)
                          && (n * j + i - n * k <? n)
                          && (n * k <=? n * j + i))
                 || ((n * j + i - n * k <? n)
                     && Z.testbit v (n * j + i - n * k)
                     && (n * k <=? n * j + i))).
  { intros Hin. unfold w. rewrite u32_testbit by lia.
    rewrite testbit_bor, testbit_band_bnot by lia.
    rewrite !testbit_shl by lia. rewrite Hs.
    rewrite band_ones_r by lia.
    now rewrite Z.testbit_ones, Z.testbit_mod_pow2 by lia. }
  destruct (Z.ltb_spec i n) as [Hin | Hin]; cbn [andb].
  - rewrite (Hw Hin). clear Hw.
    destruct (Z.eqb_spec j k) as [-> | Hne].
    + replace (n * k + i - n * k) with i by lia.
      rewrite Z.testbit_mod_pow2 by lia.
      destruct (Z.leb_spec (n * k) (n * k + i)); [| lia].
      destruct (Z.leb_spec 0 i); [| lia].
      destruct (Z.ltb_spec i n); [| lia].
      cbn [andb negb]. now rewrite andb_false_r, andb_true_r.
    + rewrite testbit_chunk by lia.
      destruct (Z.ltb_spec i n); [| lia]. cbn [andb].
      assert (Hcase : n * j + i < n * k \/ n * k + n <= n * j + i) by nia.
      destruct Hcase.
      * destruct (Z.leb_spec (n * k) (n * j + i)); [lia |].
        now rewrite !andb_false_r, andb_true_r, orb_false_r.
      * destruct (Z.ltb_spec (n * j + i - n * k) n); [lia |].
        rewrite !andb_false_r. cbn [andb negb].
        now rewrite andb_true_r, orb_false_r.
  - destruct (j =? k).
    + rewrite Z.testbit_mod_pow2 by lia.
      destruct (Z.ltb_spec i n); [lia | reflexivity].
    + rewrite testbit_chunk by lia.
      destruct (Z.ltb_spec i n); [lia | reflexivity].
Qed.

(** Aligning an offset keeps its word index. *)
Lemma shr_align4 offset : shr (band offset (bnot 3)) 2 = shr offset 2.
Proof.
  unfold shr. rewrite (shcount_small 2) by lia.
  apply Z.bits_inj'. intros m Hm. rewrite !Z.shiftr_spec by lia.
  destruct (Z.ltb_spec (m + 2) 32).
  - rewrite !u32_testbit, testbit_band_bnot by lia.
    replace (Z.testbit 3 (m + 2)) with false; [now rewrite andb_true_r |].
    change 3 with (Z.ones 2). rewrite Z.testbit_ones by lia.
    destruct (Z.ltb_spec (m + 2) 2); [lia |]. now rewrite andb_false_r.
  - unfold u32. change 4294967296 with (2 ^ 32).
    now rewrite !Z.mod_pow2_bits_high by lia.
Qed.

Lemma band_3 x : band x 3 = x mod 4.
Proof. change 3 with (Z.ones 2). now rewrite band_ones_r by lia. Qed.

Lemma band_2 x : band x 2 = 2 * ((x / 2) mod 2).
Proof.
  apply Z.bits_inj'. intros m Hm. unfold band.
  rewrite Z.land_spec. replace (i32 2) with (2 ^ 1) by reflexivity.
  rewrite Z.pow2_bits_eqb by lia.
  replace (2 * ((x / 2) mod 2)) with (Z.shiftl ((x / 2 ^ 1) mod 2 ^ 1) 1)
    by (rewrite Z.shiftl_mul_pow2 by lia; change (2 ^ 1) with 2; lia).
  rewrite Z.shiftl_spec by lia.
  destruct (Z.eqb_spec 1 m) as [<- | Hne].
  - replace (1 - 1) with 0 by lia.
    rewrite Z.testbit_mod_pow2, Z.div_pow2_bits by lia.
    rewrite i32_testbit by lia. replace (0 + 1) with 1 by lia.
    now rewrite andb_true_r.
  - rewrite andb_false_r. destruct (Z.ltb_spec (m - 1) 0).
    + now rewrite Z.testbit_neg_r by lia.
    + rewrite Z.testbit_mod_pow2 by lia.
      destruct (Z.ltb_spec (m - 1) 1); [lia | reflexivity].
Qed.

End MergeFacts.

Section IOFacts.

Context {W : Type}.

Import JS IOMemoryRegion.

Lemma merge_byte old v offset j :
  0 <= j <= 3 ->
  let w := u32 (bor (band old (bnot (shl 255 (band offset 3 * 8))))
                    (shl (band v 255) (band offset 3 * 8))) in
  byteOf w j = if j =? offset mod 4 then v mod 256 else byteOf old j.
Proof.
  intros Hj. cbv zeta. rewrite band_3.
  pose proof (Z.mod_pos_bound offset 4 ltac:(lia)) as Hk.
  pose proof (merge_chunk 8 old v (offset mod 4) j) as H.
  cbv zeta in H. change (8 / 8) with 1 in H. rewrite Z.mul_1_r in H.
  apply H; lia.
Qed.

Lemma merge_half old v offset j :
  0 <= j <= 1 ->
  let w := u32 (bor (band old (bnot (shl 65535 (band offset 2 * 8))))
                    (shl (band v 65535) (band offset 2 * 8))) in
  halfOf w j
  = if j =? (offset / 2) mod 2 then v mod 65536 else halfOf old j.
Proof.
  intros Hj. cbv zeta. rewrite band_2.
  pose proof (Z.mod_pos_bound (offset / 2) 2 ltac:(lia)) as Hk.
  pose proof (merge_chunk 16 old v ((offset / 2) mod 2) j) as H.
  cbv zeta in H. change (16 / 8) with 2 in H.
  replace (2 * ((offset / 2) mod 2) * 8) with ((offset / 2) mod 2 * 8 * 2)
    by lia.
  apply H; lia.
Qed.

Lemma writeCalls_read (l : list call) o :
  writeCalls (l ++ [ReadFn o]) = writeCalls l.
Proof. unfold writeCalls. rewrite omap_app. cbn. apply app_nil_r. Qed.

Lemma writeCalls_write (l : list call) o v :
  writeCalls (l ++ [WriteFn o v]) = writeCalls l ++ [(o, v)].
Proof. unfold writeCalls. now rewrite omap_app. Qed.

Lemma wordOffsetOf_align (io : t W) offset :
  wordOffsetOf io (band offset (bnot 3)) = wordOffsetOf io offset.
Proof. unfold wordOffsetOf. now rewrite shr_align4. Qed.

Lemma readU32_handled (io : t W) offset h :
  handlers io !! wordOffsetOf io offset = Some h ->
  let rd := readU32 io offset in
  handlers (snd rd) = handlers io /\
  size (snd rd) = size io /\
  calls (snd rd) = calls io ++ [ReadFn (wordOffsetOf io offset)].
Proof.
  intros Hh. cbv zeta. unfold readU32. rewrite Hh.
  destruct (readFn h) as [f |].
  - cbn. destruct (f (world io)). cbn. auto.
  - cbn. auto.
Qed.

Lemma writeU32_handled (io : t W) offset value h :
  handlers io !! wordOffsetOf io offset = Some h ->
  calls (writeU32 io offset value)
  = calls io ++ [WriteFn (wordOffsetOf io offset) (u32 value)] /\
  (forall f, writeFn h = Some f ->
             world (writeU32 io offset value) = f (u32 value) (world io)).
Proof.
  intros Hh. unfold writeU32. rewrite Hh.
  destruct (writeFn h) as [g |].
  - cbn. split; [reflexivity |]. intros f [= <-]. reflexivity.
  - split; [| discriminate]. unfold set_cell.
    destruct (_ && _); reflexivity.
Qed.

(** C8.  A byte write into a word that has a registered handler is a
    read-modify-write of that word: the write closure of the handler is
    called exactly once, with the word that was read (the old value) in
    which only the addressed byte is replaced by the low eight bits of the
    value; likewise a halfword write replaces only the addressed
    halfword. *)
Theorem sub_word_write_is_read_modify_write (io : t W) (offset v : Z)
    (h : handler W) :
  handlers io !! wordOffsetOf io offset = Some h ->
  let O := wordOffsetOf io offset in
  let rd := readU32 io (band offset (bnot 3)) in
  let old := fst rd in
  (exists w,
      writeCalls (calls (writeU8 io offset v))
      = writeCalls (calls io) ++ [(O, w)] /\
      0 <= w < 4294967296 /\
      (forall j, 0 <= j <= 3 ->
         byteOf w j = if j =? offset mod 4 then v mod 256 else byteOf old j) /\
      (forall f, writeFn h = Some f ->
         world (writeU8 io offset v) = f w (world (snd rd)))) /\
  (exists w,
      writeCalls (calls (writeU16 io offset v))
      = writeCalls (calls io) ++ [(O, w)] /\
      0 <= w < 4294967296 /\
      (forall j, 0 <= j <= 1 ->
         halfOf w j
         = if j =? (offset / 2) mod 2 then v mod 65536 else halfOf old j) /\
      (forall f, writeFn h = Some f ->
         world (writeU16 io offset v) = f w (world (snd rd)))).
Proof.
  intros Hh. cbv zeta.
  assert (Ha : handlers io !! wordOffsetOf io (band offset (bnot 3)) = Some h)
    by now rewrite wordOffsetOf_align.
  destruct (readU32_handled io _ h Ha) as (Eh & Es & Ec).
  unfold writeU8, writeU16.
  destruct (readU32 io (band offset (bnot 3))) as [old io1].
  cbn [fst snd] in *.
  assert (Hw : forall x, wordOffsetOf io1 x = wordOffsetOf io x)
    by (intros; unfold wordOffsetOf; now rewrite Es).
  assert (Hb : handlers io1 !! wordOffsetOf io1 (band offset (bnot 3))
               = Some h) by now rewrite Hw, Eh.
  split.
  - set (m := bor (band old (bnot (shl 255 (band offset 3 * 8))))
                  (shl (band v 255) (band offset 3 * 8))).
    destruct (writeU32_handled io1 _ m h Hb) as (Wc & Ww).
    exists (u32 m). rewrite Wc, Ec, Hw, wordOffsetOf_align.
    rewrite writeCalls_write, writeCalls_read.
    split; [reflexivity |]. split; [apply u32_range |].
    split; [| exact Ww]. intros j Hj. now apply merge_byte.
  - set (m := bor (band old (bnot (shl 65535 (band offset 2 * 8))))
                  (shl (band v 65535) (band offset 2 * 8))).
    destruct (writeU32_handled io1 _ m h Hb) as (Wc & Ww).
    exists (u32 m). rewrite Wc, Ec, Hw, wordOffsetOf_align.
    rewrite writeCalls_write, writeCalls_read.
    split; [reflexivity |]. split; [apply u32_range |].
    split; [| exact Ww]. intros j Hj. now apply merge_half.
Qed.

End IOFacts.

Section IOWitness.

Import JS IOMemoryRegion.

(** A byte written at offset 0x11 of the latch that holds 0x11223344. *)
Lemma sub_word_write_is_read_modify_write_witness :
  handlers Latch.io !! wordOffsetOf Latch.io 17 = Some Latch.handler /\
  exists w,
    writeCalls (calls (writeU8 Latch.io 17 171)) = [(4, w)] /\
    byteOf w 1 = 171 /\ byteOf w 0 = 68 /\
    world (writeU8 Latch.io 17 171) = w.
Proof.
  assert (Hh : handlers Latch.io !! wordOffsetOf Latch.io 17
               = Some Latch.handler) by reflexivity.
  split; [exact Hh |].
  destruct (sub_word_write_is_read_modify_write Latch.io 17 171
              Latch.handler Hh) as [(w & Hc & _ & Hb & Hw) _].
  exists w. split; [exact Hc |].
  split; [exact (Hb 1 ltac:(lia)) |].
  split; [exact (Hb 0 ltac:(lia)) |].
  exact (Hw _ eq_refl).
Defined.

End IOWitness.

(** ** The timer *)

Section TimerFacts.

Import JS Timer TimerSpec.

Ltac tsimpl :=
  cbn [number count ctrl cmp stat enabled countDown repeat irqEnabled
       extClock clockScale cyclesUntilTick onCompare onOverflow ticks
       compares overflows interrupts emitted with_count with_cmp with_stat
       with_enabled with_cyclesUntilTick with_ticks with_compares
       with_overflows with_interrupts with_emitted] in *.

Lemma scale_of s : 0 <= s <= 7 -> shl 1 s = 2 ^ s.
Proof.
  intros. rewrite shl_1 by lia. apply i32_small.
  assert (0 < 2 ^ s <= 2 ^ 7) by (split; [lia | apply Z.pow_le_mono_r; lia]).
  lia.
Qed.

Lemma advance_0 scale x : advance scale x 0 = x.
Proof.
  destruct x. unfold advance. cbn. f_equal; lia.
Qed.

(** Logical ticks that stay below the compare value only count. *)
Lemma tickLoop_counting scale fuel : forall x d,
  0 < scale ->
  countDown x = false ->
  0 <= count x ->
  0 <= cyclesUntilTick x ->
  cyclesUntilTick x / scale <= Z.of_nat fuel ->
  count x + cyclesUntilTick x / scale < cmp x ->
  cmp x < 4294967296 ->
  tickLoop fuel scale x d
  = Some (advance scale x (cyclesUntilTick x / scale), d).
Proof.
  induction fuel as [| k IH]; intros x d Hs Hup Hc Hy Hf Hlt Hcmp.
  - cbn [tickLoop]. destruct (Z.leb_spec scale (cyclesUntilTick x)).
    + exfalso. assert (1 <= cyclesUntilTick x / scale)
        by (apply Z.div_le_lower_bound; lia). lia.
    + rewrite Z.div_small by lia. now rewrite advance_0.
  - cbn [tickLoop]. destruct (Z.leb_spec scale (cyclesUntilTick x)) as [Hge | Hsm].
    + assert (Hq : cyclesUntilTick x / scale
                   = (cyclesUntilTick x - scale) / scale + 1).
      { replace (cyclesUntilTick x) with (cyclesUntilTick x - scale + 1 * scale)
          at 1 by lia. apply Z.div_add. lia. }
      assert (0 <= (cyclesUntilTick x - scale) / scale)
        by (apply Z.div_pos; lia).
      unfold logicalTick, arithmetic, compareCheck.
      cbn [countDown with_cyclesUntilTick with_ticks with_count count cmp].
      rewrite Hup. cbn [count with_count cmp].
      rewrite (u32_small (count x + 1)) by lia.
      destruct (Z.eqb_spec (count x + 1) 0); [lia |].
      cbn [count with_count cmp with_cyclesUntilTick with_ticks].
      destruct (Z.eqb_spec (count x + 1) (cmp x)); [lia |].
      rewrite IH; cbn [countDown count cmp cyclesUntilTick with_count with_ticks with_cyclesUntilTick]; try lia;
        try assumption.
      f_equal. f_equal. unfold advance. cbn. rewrite Hq. f_equal; lia.
    + rewrite Z.div_small by lia. now rewrite advance_0.
Qed.

(** The logical tick that reaches the compare value fires, once. *)
Lemma tickLoop_firing scale fuel : forall x d,
  0 < scale ->
  countDown x = false ->
  irqEnabled x = true ->
  onCompare x = true ->
  0 <= count x ->
  count x < cmp x ->
  cmp x < 4294967296 ->
  cyclesUntilTick x = (cmp x - count x) * scale ->
  cmp x - count x <= Z.of_nat fuel ->
  exists x',
    tickLoop fuel scale x d = Some (x', true) /\
    stat x' = bor (stat x) 1 /\
    emitted x' = emitted x ++ [Compare] /\
    interrupts x' = interrupts x + 1 /\
    compares x' = compares x + 1 /\
    clockScale x' = clockScale x /\
    irqEnabled x' = true /\
    cyclesUntilTick x' = 0.
Proof.
  induction fuel as [| k IH]; intros x d Hs Hup Hirq Hcb Hc Hlt Hcmp Hy Hf.
  - lia.
  - cbn [tickLoop].
    destruct (Z.leb_spec scale (cyclesUntilTick x)) as [Hge | Hsm]; [| nia].
    unfold logicalTick, arithmetic, compareCheck. tsimpl.
    rewrite Hup. tsimpl.
    rewrite (u32_small (count x + 1)) by lia.
    destruct (Z.eqb_spec (count x + 1) 0); [lia |].
    tsimpl.
    destruct (Z.eqb_spec (count x + 1) (cmp x)) as [Heq | Hne].
    + rewrite Hirq. unfold callOnCompare. tsimpl. rewrite Hcb. tsimpl.
      assert (Hone : cyclesUntilTick x = scale)
        by (rewrite Hy; replace (cmp x - count x) with 1 by lia; lia).
      match goal with
      | |- context [tickLoop k scale ?y true] =>
          assert (Hz : cyclesUntilTick y = 0);
            [destruct (repeat x); cbn; lia |];
          exists y
      end.
      split.
      * destruct k; cbn [tickLoop]; rewrite Hz;
          (destruct (Z.leb_spec scale 0); [lia | reflexivity]).
      * destruct (repeat x); cbn; repeat split; try assumption; lia.
    + destruct (IH (with_count
                      (with_ticks
                         (with_cyclesUntilTick x (cyclesUntilTick x - scale))
                         (ticks x + 1)) (count x + 1)) d) as (x' & E & H');
        tsimpl; try assumption; try lia; try nia.
      exists x'. split; [exact E |]. exact H'.
Qed.

Lemma compareFlag_bor s : Z.testbit (bor s 1) 0 = true.
Proof. rewrite testbit_bor by lia. apply orb_true_r. Qed.

Section Channel.

Variables (x0 : Timer.t) (s C : Z).
Hypothesis Hs : 0 <= s <= 7.
Hypothesis HC : 0 < C < 4294967296.

Lemma S_pos : 0 < 2 ^ s.
Proof. lia. Qed.

(** A call of [tick] that does not complete the [C]-th logical tick. *)
Lemma tick_counting x k cycles :
  counting x0 s C x k -> 0 <= cycles -> k + cycles < C * 2 ^ s ->
  exists x', tick x cycles = Some (false, x') /\
             counting x0 s C x' (k + cycles).
Proof.
  intros [] Hc Hk. pose proof S_pos as HS.
  unfold tick. rewrite c_enabled0. cbn [negb].
  rewrite c_scale0, scale_of by assumption.
  pose proof (Z.mod_pos_bound k (2 ^ s) HS) as Hm.
  assert (Hdiv : k / 2 ^ s + (k mod 2 ^ s + cycles) / 2 ^ s
                 = (k + cycles) / 2 ^ s).
  { rewrite <- Z.div_add_l by lia. f_equal.
    pose proof (Z.div_mod k (2 ^ s) ltac:(lia)). lia. }
  assert (Hmod : (k mod 2 ^ s + cycles) mod 2 ^ s = (k + cycles) mod 2 ^ s).
  { replace (k + cycles) with (k mod 2 ^ s + cycles + k / 2 ^ s * 2 ^ s)
      by (pose proof (Z.div_mod k (2 ^ s) ltac:(lia)); lia).
    now rewrite Z.mod_add by lia. }
  assert (Hq : 0 <= (k mod 2 ^ s + cycles) / 2 ^ s) by (apply Z.div_pos; lia).
  assert (Hlt : (k + cycles) / 2 ^ s < C)
    by (apply Z.div_lt_upper_bound; lia).
  assert (H0 : 0 <= k / 2 ^ s) by (apply Z.div_pos; lia).
  rewrite tickLoop_counting;
    cbn [cyclesUntilTick with_cyclesUntilTick countDown count cmp];
    rewrite ?c_cycles0, ?c_count0, ?c_cmp0; try lia; try assumption.
  - eexists. split.
    + cbn [irqEnabled advance]. reflexivity.
    + pose proof (Z.mod_eq (k mod 2 ^ s + cycles) (2 ^ s) ltac:(lia)) as Hme.
      constructor; unfold advance; tsimpl;
        rewrite ?c_count0, ?c_cycles0; try assumption; lia.
  - rewrite Z2Nat.id by lia.
    apply Z.div_le_upper_bound; [lia |]. nia.
Qed.

(** The call of [tick] that completes the [C]-th logical tick. *)
Lemma tick_firing x k cycles :
  counting x0 s C x k -> 0 <= cycles -> k + cycles = C * 2 ^ s ->
  exists x', tick x cycles = Some (true, x') /\ fired x0 s x'.
Proof.
  intros [] Hc Hk. pose proof S_pos as HS.
  unfold tick. rewrite c_enabled0. cbn [negb].
  rewrite c_scale0, scale_of by assumption.
  pose proof (Z.mod_pos_bound k (2 ^ s) HS) as Hm.
  assert (H0 : 0 <= k / 2 ^ s) by (apply Z.div_pos; lia).
  assert (Hlt : k / 2 ^ s < C) by (apply Z.div_lt_upper_bound; lia).
  assert (Hy : k mod 2 ^ s + cycles = (C - k / 2 ^ s) * 2 ^ s).
  { pose proof (Z.div_mod k (2 ^ s) ltac:(lia)). nia. }
  set (xin := with_cyclesUntilTick x (cyclesUntilTick x + cycles)).
  assert (F1 : 0 <= count xin) by (unfold xin; tsimpl; lia).
  assert (F2 : count xin < cmp xin) by (unfold xin; tsimpl; lia).
  assert (F3 : cmp xin < 4294967296) by (unfold xin; tsimpl; lia).
  assert (F4 : cyclesUntilTick xin = (cmp xin - count xin) * 2 ^ s)
    by (unfold xin; tsimpl; lia).
  assert (F5 : cmp xin - count xin <= Z.of_nat (Z.to_nat (cyclesUntilTick xin))).
  { rewrite Z2Nat.id by (unfold xin; tsimpl; lia). rewrite F4. nia. }
  destruct (tickLoop_firing (2 ^ s) (Z.to_nat (cyclesUntilTick xin)) xin false
              HS c_up0 c_irq0 c_callback0 F1 F2 F3 F4 F5)
    as (x' & E & Est & Eem & Eint & Ecmp & Esc & Eirq & Ecy).
  rewrite E. exists x'. split.
  - now rewrite Eirq.
  - unfold xin in *. tsimpl. constructor; try congruence; try lia.
    unfold compareFlag. rewrite Est. apply compareFlag_bor.
Qed.

(** Calls of [tick] with no cycles after the channel has fired. *)
Lemma tick_idle_fired x :
  fired x0 s x ->
  exists b x', tick x 0 = Some (b, x') /\ fired x0 s x'.
Proof.
  intros []. pose proof S_pos as HS. unfold tick.
  destruct (enabled x); cbn [negb].
  - rewrite f_scale0, scale_of by assumption. tsimpl.
    rewrite f_cycles0. change (0 + 0) with 0. change (Z.to_nat 0) with O.
    cbn [tickLoop]. tsimpl.
    destruct (Z.leb_spec (2 ^ s) 0); [lia |].
    do 2 eexists. split; [reflexivity |].
    constructor; unfold compareFlag in *; tsimpl; try assumption;
      reflexivity.
  - do 2 eexists. split; [reflexivity |].
    constructor; unfold compareFlag in *; tsimpl; try assumption;
      reflexivity.
Qed.

Lemma feed_fired chunks : forall x,
  fired x0 s x -> Forall (fun c => 0 <= c) chunks -> total chunks = 0 ->
  exists x', feed x chunks = Some x' /\ fired x0 s x'.
Proof.
  induction chunks as [| c rest IH]; intros x Hf Hpos Hsum.
  - exists x. split; [reflexivity | assumption].
  - apply Forall_cons in Hpos as [Hc Hrest]. cbn [total fold_right] in Hsum.
    assert (Hr : 0 <= total rest).
    { clear - Hrest. induction Hrest; cbn; unfold total in *; lia. }
    fold (total rest) in Hsum.
    assert (c = 0) by lia. subst c.
    destruct (tick_idle_fired x Hf) as (b & x1 & E & Hf1).
    cbn [feed]. rewrite E. apply IH; [assumption | assumption | lia].
Qed.

Lemma feed_counting chunks : forall x k,
  counting x0 s C x k -> Forall (fun c => 0 <= c) chunks ->
  k + total chunks = C * 2 ^ s ->
  exists x', feed x chunks = Some x' /\ fired x0 s x'.
Proof.
  induction chunks as [| c rest IH]; intros x k Hcnt Hpos Hsum.
  - cbn in Hsum. destruct Hcnt. lia.
  - apply Forall_cons in Hpos as [Hc Hrest]. cbn [total fold_right] in Hsum.
    fold (total rest) in Hsum.
    assert (Hr : 0 <= total rest).
    { clear - Hrest. induction Hrest; cbn; unfold total in *; lia. }
    cbn [feed].
    destruct (Z.eq_dec (k + c) (C * 2 ^ s)) as [Heq | Hne].
    + destruct (tick_firing x k c Hcnt Hc Heq) as (x1 & E & Hf).
      rewrite E. apply feed_fired; [assumption | assumption | lia].
    + destruct (tick_counting x k c Hcnt Hc ltac:(lia)) as (x1 & E & Hc1).
      rewrite E. apply (IH x1 (k + c)); [assumption | assumption | lia].
Qed.

End Channel.

(** Without a logical tick nothing is compared: the cycles are only
    accumulated. *)
Lemma tick_below_scale x cycles :
  enabled x = true -> 0 <= clockScale x <= 7 ->
  0 <= cyclesUntilTick x + cycles < 2 ^ clockScale x ->
  tick x cycles
  = Some (false, with_cyclesUntilTick x (cyclesUntilTick x + cycles)).
Proof.
  intros He Hs Hc. unfold tick. rewrite He. cbn [negb].
  rewrite scale_of by assumption. tsimpl.
  destruct (Z.to_nat (cyclesUntilTick x + cycles)); cbn [tickLoop]; tsimpl;
    (destruct (Z.leb_spec (2 ^ clockScale x) (cyclesUntilTick x + cycles));
     [lia | reflexivity]).
Qed.

(** C3.  A count-up channel with the controller's callbacks, enabled with
    irq-enable, scale s (0..7) and compare value C (0 < C < 2^32), its
    count and its cycle accumulator at 0: feeding exactly C * 2^s cycles
    through [tick], in one call or in any sequence of calls, ends with the
    compare bit (bit 0) of STAT set and with exactly one more call of the
    compare callback, the timer IRQ.  And since the compare check sits
    inside the logical tick, after the count arithmetic, a channel whose
    COUNT equals CMP does not fire as long as no logical tick takes place:
    a [tick] that stays below 2^s accumulated cycles only accumulates. *)
Theorem timer_fires_once_after_C_ticks (x : Timer.t) (s C : Z)
    (chunks : list Z) :
  enabled x = true -> countDown x = false -> irqEnabled x = true ->
  onCompare x = true ->
  clockScale x = s -> 0 <= s <= 7 ->
  cmp x = C -> 0 < C < 4294967296 ->
  count x = 0 -> cyclesUntilTick x = 0 ->
  Forall (fun c => 0 <= c) chunks -> total chunks = C * 2 ^ s ->
  (exists x',
      feed x chunks = Some x' /\
      compareFlag x' = true /\
      emitted x' = emitted x ++ [Compare] /\
      interrupts x' = interrupts x + 1) /\
  (forall y cycles,
      enabled y = true -> clockScale y = s -> count y = cmp y ->
      0 <= cyclesUntilTick y + cycles < 2 ^ s ->
      exists y',
        tick y cycles = Some (false, y') /\
        stat y' = stat y /\ emitted y' = emitted y /\
        interrupts y' = interrupts y /\ count y' = count y).
Proof.
  intros He Hup Hirq Hcb Hsc Hs Hcmp HC Hcount Hcyc Hpos Hsum.
  split.
  - assert (Hcnt : counting x s C x 0).
    { constructor; rewrite ?Zdiv_0_l, ?Zmod_0_l; try assumption;
        try reflexivity; lia. }
    destruct (feed_counting x s C Hs HC chunks x 0 Hcnt Hpos ltac:(lia))
      as (x' & E & []).
    exists x'. auto.
  - intros y cycles Hey Hsy Hyc Hcy. subst s.
    rewrite <- Hsy in Hcy, Hs.
    rewrite (tick_below_scale y cycles Hey Hs Hcy).
    eexists. split; [reflexivity |]. tsimpl. auto.
Qed.

(** CMP = 3 at scale 1: six cycles, fed as 4, 0 and 2. *)
Lemma timer_fires_once_after_C_ticks_witness :
  exists x',
    feed configured [4; 0; 2] = Some x' /\
    compareFlag x' = true /\
    emitted x' = [Compare].
Proof.
  destruct (timer_fires_once_after_C_ticks configured 1 3 [4; 0; 2])
    as [(x' & E & Hf & Hem & _) _];
    try reflexivity; try lia.
  - repeat constructor; lia.
  - exists x'. auto.
Defined.

End TimerFacts.

(** ** Loading a ROM *)

Section LoadFacts.

Import JS Engine.

#[local] Existing Instance MIU.region.
#[local] Existing Instance Engine.region.

Lemma opcode_field x : 0 <= band x 31 <= 31.
Proof.
  replace (band x 31) with (x mod 2 ^ 5)
    by (symmetry; apply (band_ones_r x 5); lia).
  pose proof (Z.mod_pos_bound x (2 ^ 5) ltac:(lia)). change (2 ^ 5) with 32 in *.
  lia.
Qed.

(** The opcode that the loader extracts always lies in 0x00..0x1F, so
    neither the endianness test nor the entry check can ever reject. *)
Lemma finalOP_in_range finalInsn : (31 <? finalOP finalInsn) = false.
Proof.
  unfold finalOP. pose proof (opcode_field (shr finalInsn 27)).
  destruct (Z.ltb_spec 31 (band (shr finalInsn 27) 31)); [lia | reflexivity].
Qed.

Lemma needsSwap_never data : needsSwap data = false.
Proof.
  unfold needsSwap, op_LE.
  match goal with
  | |- context [band ?x 31] =>
      pose proof (opcode_field x); destruct (Z.ltb_spec 31 (band x 31))
  end; [lia | reflexivity].
Qed.

Context {W : Type}.
Variable io : IOMemoryRegion.t W.

Lemma setupHardware_ok (e : Engine.t W) :
  exists m dram fl,
    setupHardware (Some io) e = Some (with_miu (resetCPU e) (Some m)) /\
    ArrayMemoryRegion.create FLASH_SIZE = Some fl /\
    MIU.segments m
    = <[Z.to_nat SEGMENT_FLASH := Some (ArrayRegion fl)]>
        (<[Z.to_nat SEGMENT_IO := Some (IORegion io)]>
           (<[Z.to_nat SEGMENT_DRAM := Some (ArrayRegion dram)]>
              (replicate 256 None))).
Proof.
  unfold setupHardware.
  destruct (ArrayMemoryRegion.create DRAM_SIZE) as [dram |] eqn:Ed;
    [| discriminate Ed].
  destruct (ArrayMemoryRegion.create FLASH_SIZE) as [fl |] eqn:Ef;
    [| discriminate Ef].
  eexists _, dram, fl. cbn [mbind option_bind]. 
  split; [reflexivity |]. split; reflexivity.
Qed.

Lemma copy_lookup data : forall (m : gmap Z Z) offset i,
  ArrayMemoryRegion.copy m data offset !! i
  = if (offset <=? i) && (i <? offset + Z.of_nat (length data))
    then (fun b => b mod 256) <$> (data !! Z.to_nat (i - offset))
    else m !! i.
Proof.
  induction data as [| b rest IH]; intros m offset i.
  - cbn [ArrayMemoryRegion.copy length]. 
    destruct (Z.leb_spec offset i), (Z.ltb_spec i (offset + Z.of_nat 0));
      try reflexivity; lia.
  - cbn [ArrayMemoryRegion.copy]. rewrite IH.
    rewrite length_cons, Nat2Z.inj_succ.
    destruct (Z.eq_dec i offset) as [-> | Hne].
    + destruct (Z.leb_spec (offset + 1) offset); [lia |].
      destruct (Z.leb_spec offset offset); [| lia].
      destruct (Z.ltb_spec offset (offset + Z.succ (Z.of_nat (length rest))));
        [| lia].
      cbn [andb]. rewrite lookup_insert_eq. now rewrite Z.sub_diag.
    + destruct (Z.leb_spec (offset + 1) i), (Z.leb_spec offset i);
        try lia; cbn [andb].
      * replace (offset + Z.succ (Z.of_nat (length rest)))
          with (offset + 1 + Z.of_nat (length rest)) by lia.
        destruct (_ <? _).
        -- replace (Z.to_nat (i - offset))
             with (S (Z.to_nat (i - (offset + 1)))) by lia.
           reflexivity.
        -- now rewrite lookup_insert_ne by lia.
      * now rewrite lookup_insert_ne by lia.
Qed.

Lemma bootAddrOf_cases data :
  bootAddrOf data = BOOT_ADDRESS_DEFAULT
  \/ bootAddrOf data = BOOT_ADDRESS_FROM_MAGIC.
Proof.
  unfold bootAddrOf. destruct (_ <? _); [| now left].
  destruct (_ =? _); [now right | now left].
Qed.

Lemma flash_insert (e : Engine.t W) m a :
  (Z.to_nat SEGMENT_FLASH < length (MIU.segments m))%nat ->
  flash (with_miu e
           (Some (MIU.mk (<[Z.to_nat SEGMENT_FLASH := Some (ArrayRegion a)]>
                            (MIU.segments m)))))
  = Some a.
Proof.
  intros Hl. unfold flash, MIU.getRegion. cbn [miu with_miu MIU.segments].
  now rewrite list_lookup_insert_eq.
Qed.

Lemma loadFlash_ok (e : Engine.t W) m fl data :
  miu e = Some m ->
  flash e = Some fl ->
  Z.of_nat (length data) <= ArrayMemoryRegion.byteLength fl ->
  loadFlash e data
  = Some (with_miu e
            (Some (MIU.mk
                     (<[Z.to_nat SEGMENT_FLASH :=
                          Some (ArrayRegion
                                  (ArrayMemoryRegion.with_u8 fl
                                     (ArrayMemoryRegion.copy
                                        (ArrayMemoryRegion.u8 fl) data 0)))]>
                        (MIU.segments m))))).
Proof.
  intros Hm Hf Hlen. unfold loadFlash. rewrite Hm, Hf. cbn [mbind option_bind].
  unfold ArrayMemoryRegion.load, ArrayMemoryRegion.u8_length.
  destruct (Z.ltb_spec (ArrayMemoryRegion.byteLength fl)
              (0 + Z.of_nat (length data))); [lia |].
  reflexivity.
Qed.

Lemma fetch_flash (e : Engine.t W) m a address :
  miu e = Some m ->
  MIU.getRegion m SEGMENT_FLASH = Some (ArrayRegion a) ->
  MIU.getSegment address = SEGMENT_FLASH ->
  fetch e address
  = Some (fst (ArrayMemoryRegion.readU32 a (MIU.getOffset address)),
          with_miu e
            (Some (MIU.mk (<[Z.to_nat SEGMENT_FLASH := Some (ArrayRegion a)]>
                             (MIU.segments m))))).
Proof.
  intros Hm Ha Hs. unfold fetch. rewrite Hm. cbn [mbind option_bind].
  cbn [readU32 MIU.region]. unfold MIU.read. rewrite Hs, Ha.
  reflexivity.
Qed.

(** For every ROM image that fits into the flash region the load goes
    through: the image is in flash, byte for byte, the CPU is at the entry
    point, and the engine is PAUSED. *)
Lemma loadROM_commits (e : Engine.t W) (file : list Z) :
  Z.of_nat (length file) <= FLASH_SIZE ->
  let e' := loadROM (Some io) e file in
  state e' = PAUSED /\
  romLoaded e' = true /\
  CPU.pc (cpu e') = bootAddrOf file /\
  exists fl,
    flash e' = Some fl /\
    forall i b, file !! i = Some b ->
                ArrayMemoryRegion.byte fl (Z.of_nat i) = b mod 256.
Proof.
  intros Hlen.
  destruct (setupHardware_ok (with_state (pause e) LOADING))
    as (m & dram & fl & Es & Efl & Em).
  assert (Hl : (Z.to_nat SEGMENT_FLASH < length (MIU.segments m))%nat).
  { rewrite Em, !length_insert, length_replicate. unfold SEGMENT_FLASH. lia. }
  assert (Hfl : MIU.getRegion m SEGMENT_FLASH = Some (ArrayRegion fl)).
  { unfold MIU.getRegion. rewrite Em.
    rewrite list_lookup_insert_eq; [reflexivity |].
    rewrite !length_insert, length_replicate. unfold SEGMENT_FLASH. lia. }
  assert (Hcr : ArrayMemoryRegion.byteLength fl = FLASH_SIZE
                /\ ArrayMemoryRegion.u8 fl = ∅).
  { unfold ArrayMemoryRegion.create in Efl. cbn in Efl.
    injection Efl as <-. split; reflexivity. }
  destruct Hcr as [Hbl Hu8].
  set (e1 := with_miu (resetCPU (with_state (pause e) LOADING)) (Some m))
    in *.
  set (fl' := ArrayMemoryRegion.with_u8 fl
                (ArrayMemoryRegion.copy (ArrayMemoryRegion.u8 fl) file 0)).
  set (m' := MIU.mk (<[Z.to_nat SEGMENT_FLASH := Some (ArrayRegion fl')]>
                       (MIU.segments m))).
  assert (El : loadFlash e1 file = Some (with_miu e1 (Some m'))).
  { apply loadFlash_ok; [reflexivity | | lia].
    unfold flash, e1. cbn [miu with_miu]. now rewrite Hfl. }
  assert (Hl' : (Z.to_nat SEGMENT_FLASH < length (MIU.segments m'))%nat).
  { unfold m'. cbn [MIU.segments]. now rewrite length_insert. }
  assert (Hfl' : MIU.getRegion m' SEGMENT_FLASH = Some (ArrayRegion fl')).
  { unfold MIU.getRegion, m'. cbn [MIU.segments].
    now rewrite list_lookup_insert_eq. }
  assert (Hseg : MIU.getSegment (bootAddrOf file) = SEGMENT_FLASH)
    by (destruct (bootAddrOf_cases file) as [-> | ->]; reflexivity).
  set (e2 := with_cpu (with_romLoaded (with_miu e1 (Some m')) true)
               (CPU.with_pc (cpu (with_romLoaded (with_miu e1 (Some m')) true))
                  (bootAddrOf file))).
  pose proof (fetch_flash e2 m' fl' (bootAddrOf file) eq_refl Hfl' Hseg) as Ef.
  assert (E : loadROM (Some io) e file
              = with_state
                  (with_miu e2
                     (Some (MIU.mk
                              (<[Z.to_nat SEGMENT_FLASH :=
                                   Some (ArrayRegion fl')]>
                                 (MIU.segments m')))))
                  PAUSED).
  { unfold loadROM. rewrite needsSwap_never, Es. fold e1. rewrite El.
    fold e2. rewrite Ef. now rewrite finalOP_in_range. }
  cbv zeta. rewrite E. split; [reflexivity |]. split; [reflexivity |].
  split; [reflexivity |]. exists fl'. split.
  - exact (flash_insert (with_state e2 PAUSED) m' fl' Hl').
  - intros i b Hb. unfold ArrayMemoryRegion.byte, fl'.
    cbn [ArrayMemoryRegion.u8 ArrayMemoryRegion.with_u8].
    rewrite copy_lookup.
    apply lookup_lt_Some in Hb as Hi.
    destruct (Z.leb_spec 0 (Z.of_nat i)); [| lia].
    destruct (Z.ltb_spec (Z.of_nat i) (0 + Z.of_nat (length file))); [| lia].
    cbn [andb]. rewrite Z.sub_0_r, Nat2Z.id, Hb. reflexivity.
Qed.

End LoadFacts.

Section LoadCases.

Import JS Engine Boot.

#[local] Existing Instance MIU.region.
#[local] Existing Instance Engine.region.

(** The ROM whose entry word is 0x30000000, with 0x06 in the opcode
    field, is loaded like any other: the engine ends PAUSED, not in ERROR,
    and the image is in flash. *)
Theorem loadROM_accepts_any_entry_word :
  let e := boot opcode6 in
  CPU.dispatch (finalOP 805306368) = None /\
  state e = PAUSED /\
  fatalError e = false /\
  romLoaded e = true /\
  fst <$> fetch e BOOT_ADDRESS_DEFAULT = Some 805306368.
Proof. vm_compute. repeat split; reflexivity. Qed.

End LoadCases.

(** ** The well-formed states are closed under the CPU's operations *)

Section Invariant.

Import JS CPU Spec.

Lemma bit_of_bool b : bit (of_bool b).
Proof. destruct b; [now right | now left]. Qed.

Lemma bit_band_1 x : bit (band x 1).
Proof.
  change 1 with (Z.ones 1) at 1.
  replace (band x (Z.ones 1)) with (x mod 2 ^ 1)
    by (symmetry; apply band_ones_r; lia).
  change (2 ^ 1) with 2. pose proof (Z.mod_pos_bound x 2 ltac:(lia)).
  unfold bit. lia.
Qed.

Lemma bit_0 : bit 0.
Proof. now left. Qed.

Lemma bit_1 : bit 1.
Proof. now right. Qed.

Lemma bit_choice (b : bool) : bit (if b then 0 else 1).
Proof. destruct b; [now left | now right]. Qed.

Lemma word_u32 x : word (u32 x).
Proof. apply u32_range. Qed.

Lemma word_R c i : wf c -> word (R c i).
Proof. intros []. apply aget_word. apply wf_r0. Qed.

Lemma word_CR c i : wf c -> word (CR c i).
Proof. intros []. apply aget_word. apply wf_cr0. Qed.

Lemma wf_setR c i v : wf c -> wf (setR c i v).
Proof. intros []. constructor; try assumption. now apply bank_aset. Qed.

Lemma wf_setSR c i v : wf c -> wf (setSR c i v).
Proof. intros []. constructor; try assumption. now apply bank_aset. Qed.

Lemma wf_with_Z c x : wf c -> bit x -> wf (with_Z c x).
Proof. intros [] ?. constructor; assumption. Qed.

Lemma wf_with_V c x : wf c -> bit x -> wf (with_V c x).
Proof. intros [] ?. constructor; assumption. Qed.

Lemma wf_with_T c x : wf c -> bit x -> wf (with_T c x).
Proof. intros [] ?. constructor; assumption. Qed.

Lemma wf_with_CEL c x : wf c -> wf (with_CEL c x).
Proof. intros []. constructor; assumption. Qed.

Lemma wf_with_CEH c x : wf c -> wf (with_CEH c x).
Proof. intros []. constructor; assumption. Qed.

Lemma wf_with_cycles c x : wf c -> wf (with_cycles c x).
Proof. intros []. constructor; assumption. Qed.

Lemma wf_with_instructions c x : wf c -> wf (with_instructions c x).
Proof. intros []. constructor; assumption. Qed.

Lemma wf_with_halted c x : wf c -> wf (with_halted c x).
Proof. intros []. constructor; assumption. Qed.

Create HintDb wf discriminated.

Hint Resolve bit_0 bit_1 bit_of_bool bit_band_1 bit_choice word_u32 word_R word_CR
  wf_setR wf_setCR wf_setSR wf_with_pc wf_with_N wf_with_Z wf_with_C
  wf_with_V wf_with_T wf_with_CEL wf_with_CEH wf_with_cycles
  wf_with_instructions wf_with_halted : wf.

Ltac wf_split :=
  match goal with
  | |- context [if ?b then _ else _] => destruct b
  | |- context [match ?x with _ => _ end] => destruct x
  end.

Ltac wf_auto :=
  intros; cbv zeta; cbn [fst snd];
  repeat (wf_split; cbn [fst snd]);
  eauto 12 with wf.

Lemma wf_updateBasicFlags c res : wf c -> wf (updateBasicFlags c res).
Proof. unfold updateBasicFlags. wf_auto. Qed.
Hint Resolve wf_updateBasicFlags : wf.

Lemma wf_packSR0 c : wf c -> wf (packSR0 c).
Proof. unfold packSR0. wf_auto. Qed.

Lemma wf_unpackSR0 c : wf c -> wf (unpackSR0 c).
Proof. unfold unpackSR0. wf_auto. Qed.
Hint Resolve wf_packSR0 wf_unpackSR0 : wf.

Lemma wf_exception c cause : wf c -> wf (exception c cause).
Proof. unfold exception. wf_auto. Qed.

Lemma wf_rte c : wf c -> wf (rte c).
Proof. unfold rte. wf_auto. Qed.
Hint Resolve wf_exception wf_rte : wf.

Lemma wf_setSystemRegister c idx v : wf c -> wf (setSystemRegister c idx v).
Proof. unfold setSystemRegister. wf_auto. Qed.

Lemma wf_setRegister c idx v : wf c -> wf (setRegister c idx v).
Proof. unfold setRegister. wf_auto. Qed.

Lemma wf_setControlRegister c idx v :
  wf c -> wf (setControlRegister c idx v).
Proof. unfold setControlRegister. wf_auto. Qed.

Lemma wf_setPC c addr : wf c -> wf (setPC c addr).
Proof. unfold setPC. wf_auto. Qed.

Lemma wf_add c a b u : wf c -> wf (snd (add c a b u)).
Proof. unfold add. wf_auto. Qed.
Lemma wf_addc c a b u : wf c -> wf (snd (addc c a b u)).
Proof. unfold addc. wf_auto. Qed.
Lemma wf_sub c a b u : wf c -> wf (snd (sub c a b u)).
Proof. unfold sub. wf_auto. Qed.
Lemma wf_subc c a b u : wf c -> wf (snd (subc c a b u)).
Proof. unfold subc. wf_auto. Qed.
Lemma wf_neg c a u : wf c -> wf (snd (neg c a u)).
Proof. unfold neg. wf_auto. Qed.
Lemma wf_bitOp c a b o u : wf c -> wf (snd (bitOp c a b o u)).
Proof. unfold bitOp. wf_auto. Qed.
Lemma wf_sll c a b u : wf c -> wf (snd (sll c a b u)).
Proof. unfold sll. wf_auto. Qed.
Lemma wf_srl c a b u : wf c -> wf (snd (srl c a b u)).
Proof. unfold srl. wf_auto. Qed.
Lemma wf_sra c a b u : wf c -> wf (snd (sra c a b u)).
Proof. unfold sra. wf_auto. Qed.
Lemma wf_ror c a b u : wf c -> wf (snd (ror c a b u)).
Proof. unfold ror. wf_auto. Qed.
Lemma wf_rol c a b u : wf c -> wf (snd (rol c a b u)).
Proof. unfold rol. wf_auto. Qed.
Lemma wf_rorc c a u : wf c -> wf (snd (rorc c a u)).
Proof. unfold rorc. wf_auto. Qed.
Lemma wf_rolc c a u : wf c -> wf (snd (rolc c a u)).
Proof. unfold rolc. wf_auto. Qed.
Lemma wf_extsb c a u : wf c -> wf (snd (extsb c a u)).
Proof. unfold extsb. wf_auto. Qed.
Lemma wf_extsh c a u : wf c -> wf (snd (extsh c a u)).
Proof. unfold extsh. wf_auto. Qed.
Lemma wf_extzb c a u : wf c -> wf (snd (extzb c a u)).
Proof. unfold extzb. wf_auto. Qed.
Lemma wf_extzh c a u : wf c -> wf (snd (extzh c a u)).
Proof. unfold extzh. wf_auto. Qed.
Lemma wf_bitclr c a b u : wf c -> wf (snd (bitclr c a b u)).
Proof. unfold bitclr. wf_auto. Qed.
Lemma wf_bitset c a b u : wf c -> wf (snd (bitset c a b u)).
Proof. unfold bitset. wf_auto. Qed.
Lemma wf_bittgl c a b u : wf c -> wf (snd (bittgl c a b u)).
Proof. unfold bittgl. wf_auto. Qed.
Lemma wf_bittst c a b : wf c -> wf (bittst c a b).
Proof. unfold bittst. wf_auto. Qed.
Lemma wf_execMul c a b : wf c -> wf (execMul c a b).
Proof. unfold execMul. wf_auto. Qed.
Lemma wf_execMulu c a b : wf c -> wf (execMulu c a b).
Proof. unfold execMulu. wf_auto. Qed.
Lemma wf_execDiv c a b : wf c -> wf (execDiv c a b).
Proof. unfold execDiv. wf_auto. Qed.
Lemma wf_execDivu c a b : wf c -> wf (execDivu c a b).
Proof. unfold execDivu. wf_auto. Qed.
Lemma wf_moveFromCE c a b : wf c -> wf (moveFromCE c a b).
Proof. unfold moveFromCE. wf_auto. Qed.
Lemma wf_moveToCE c a b : wf c -> wf (moveToCE c a b).
Proof. unfold moveToCE. wf_auto. Qed.

Hint Resolve wf_add wf_addc wf_sub wf_subc wf_neg wf_bitOp wf_sll wf_srl
  wf_sra wf_ror wf_rol wf_rorc wf_rolc wf_extsb wf_extsh wf_extzb wf_extzh
  wf_bitclr wf_bitset wf_bittgl wf_bittst wf_execMul wf_execMulu wf_execDiv
  wf_execDivu wf_moveFromCE wf_moveToCE : wf.

Context {M : Type} `{MemoryRegion M}.

Lemma wf_alu rD (x : Z * t) : wf (snd x) -> wf (alu rD x).
Proof. unfold alu. eauto with wf. Qed.

Lemma wf_miu_load rd c (m : option M) addr k :
  (forall c v, wf c -> wf (k c v)) ->
  wf c -> wf (fst (miu_load rd c m addr k)).
Proof.
  intros Hk Hc. unfold miu_load. destruct m as [mem |]; [| assumption].
  destruct (rd mem addr). now apply Hk.
Qed.

Lemma wf_miu_store wr c (m : option M) addr v :
  wf c -> wf (fst (miu_store wr c m addr v)).
Proof. unfold miu_store. destruct m; auto. Qed.

Lemma wf_loadstore sel c (mem : M) rD addr :
  wf c -> wf (fst (loadstore sel c mem rD addr)).
Proof.
  intros Hc. unfold loadstore.
  repeat match goal with
         | |- context [match ?x with _ => _ end] => destruct x
         end; cbn [fst]; eauto with wf.
Qed.

Hint Resolve wf_alu wf_miu_store wf_loadstore : wf.

Ltac wf_exec :=
  intros; cbv zeta; cbn [fst snd];
  repeat (wf_split; cbn [fst snd]);
  first [ assumption
        | apply wf_miu_load; [intros; eauto 12 with wf | assumption]
        | eauto 12 with wf ].

Lemma wf_execSpForm c (m : option M) insn :
  wf c -> wf (fst (snd (execSpForm c m insn))).
Proof. unfold execSpForm. wf_exec. Qed.

Lemma wf_execIForm c (m : option M) insn :
  wf c -> wf (fst (snd (execIForm c m insn))).
Proof. unfold execIForm. wf_exec. Qed.

Lemma wf_execJForm c (m : option M) insn :
  wf c -> wf (fst (snd (execJForm c m insn))).
Proof. unfold execJForm. wf_exec. Qed.

Lemma wf_execBForm c (m : option M) insn :
  wf c -> wf (fst (snd (execBForm c m insn))).
Proof. unfold execBForm. wf_exec. Qed.

Lemma wf_execRixForm c (m : option M) insn :
  wf c -> wf (fst (snd (execRixForm c m insn))).
Proof.
  intros Hc. unfold execRixForm. destruct m as [mem |]; [| assumption].
  match goal with
  | |- context [loadstore ?s ?c ?m ?d ?a] =>
      pose proof (wf_loadstore s c m d a Hc) as E;
      destruct (loadstore s c m d a) as [c1 mem1]
  end.
  cbn [fst snd] in *. destruct (_ =? 3); eauto with wf.
Qed.

Lemma wf_execMemoryForm c (m : option M) insn :
  wf c -> wf (fst (snd (execMemoryForm c m insn))).
Proof.
  intros Hc. unfold execMemoryForm. destruct m as [mem |]; [| assumption].
  destruct (_ && _); [| assumption].
  match goal with
  | |- context [loadstore ?s ?c ?m ?d ?a] =>
      pose proof (wf_loadstore s c m d a Hc) as E;
      destruct (loadstore s c m d a) as [c1 mem1]
  end.
  exact E.
Qed.

Lemma wf_exec16 c (m : option M) insn :
  wf c -> wf (fst (snd (exec16 c m insn))).
Proof. unfold exec16. wf_exec. Qed.

Lemma wf_execute f c (m : option M) encoded :
  wf c -> wf (fst (snd (execute f c m encoded))).
Proof.
  intros Hc. destruct f as [[] |]; cbn [execute].
  - now apply wf_execSpForm.
  - now apply wf_execIForm.
  - now apply wf_execJForm.
  - now apply wf_execRixForm.
  - now apply wf_execBForm.
  - now apply wf_execMemoryForm.
  - now apply wf_exec16.
  - assumption.
Qed.

(** Every state [step] produces from a well-formed one is well formed:
    the register banks keep their 32 words, the program counter stays a
    32-bit word and the five flags stay bits. *)
Lemma wf_step c (m : option M) : wf c -> wf (fst (snd (step c m))).
Proof.
  intros Hc. unfold step. destruct (halted c); [assumption |].
  destruct m as [mem |]; [| assumption].
  destruct (readU32 mem (pc c)) as [encoded mem1].
  pose proof (wf_execute (dispatch (band (shr encoded 27) 31)) c
                (Some mem1) encoded Hc) as E.
  destruct (execute _ c (Some mem1) encoded) as [result [c1 m1]].
  cbn [fst snd] in *.
  destruct (negb _); cbn [fst snd]; eauto 8 with wf.
Qed.

(** So is every state [run] passes through. *)
Lemma wf_run n c (m : option M) : wf c -> wf (fst (snd (run n c m))).
Proof.
  revert c m. induction n as [| k IH]; intros c m Hc; cbn [run].
  - assumption.
  - destruct (halted c); [assumption |].
    pose proof (wf_step c m Hc) as E.
    destruct (step c m) as [ok [c' m']]. cbn [fst snd] in E.
    destruct ok; [| assumption].
    specialize (IH c' m' E).
    destruct (run k c' m') as [n cm]. exact IH.
Qed.

End Invariant.

(** ** The arithmetic of the ALU helpers *)

Section ALUFacts.

Import JS CPU Spec.

Lemma shr_word x n : 0 <= n < 32 -> shr x n = u32 x / 2 ^ n.
Proof.
  intros Hn. unfold shr. rewrite shcount_small by lia.
  now rewrite Z.shiftr_div_pow2 by lia.
Qed.

Lemma testbit_div x n :
  0 <= n -> Z.testbit x n = ((x / 2 ^ n) mod 2 =? 1).
Proof.
  intros Hn. destruct (Z.eqb_spec ((x / 2 ^ n) mod 2) 1) as [E | E].
  - now apply Z.testbit_true.
  - apply Z.testbit_false; [assumption |].
    pose proof (Z.mod_pos_bound (x / 2 ^ n) 2 ltac:(lia)). lia.
Qed.

Lemma sign_bit x : band (shr x 31) 1 = of_bool (Z.testbit x 31).
Proof.
  change 1 with (Z.ones 1) at 1.
  rewrite band_ones_r by lia. rewrite shr_word by lia.
  rewrite <- (u32_testbit x 31) by lia.
  rewrite testbit_div by lia.
  change (2 ^ 1) with 2.
  destruct (Z.eqb_spec ((u32 x / 2 ^ 31) mod 2) 1) as [-> | Hne].
  - reflexivity.
  - pose proof (Z.mod_pos_bound (u32 x / 2 ^ 31) 2 ltac:(lia)).
    unfold of_bool. lia.
Qed.

Lemma testbit_31_word x :
  0 <= x < 4294967296 -> Z.testbit x 31 = (2147483648 <=? x).
Proof.
  intros Hx. rewrite testbit_div by lia.
  change (2 ^ 31) with 2147483648.
  assert (x / 2147483648 = 0 \/ x / 2147483648 = 1) as [E | E].
  { assert (0 <= x / 2147483648 < 2).
    { split; [apply Z.div_pos; lia | apply Z.div_lt_upper_bound; lia]. }
    lia. }
  - rewrite E. destruct (Z.leb_spec 2147483648 x); [| reflexivity].
    apply Z.div_small_iff in E; lia.
  - rewrite E. destruct (Z.leb_spec 2147483648 x); [reflexivity |].
    rewrite Z.div_small in E by lia. discriminate.
Qed.

Lemma i32_of_word x :
  0 <= x < 4294967296 ->
  i32 x = if 2147483648 <=? x then x - 4294967296 else x.
Proof.
  intros Hx. unfold i32.
  destruct (Z.leb_spec 2147483648 x).
  - replace (x + 2147483648) with (x - 2147483648 + 1 * 4294967296) by lia.
    rewrite Z.mod_add by lia. rewrite Z.mod_small by lia. lia.
  - rewrite Z.mod_small by lia. lia.
Qed.

Lemma i32_u32 x : i32 (u32 x) = i32 x.
Proof.
  unfold i32, u32.
  rewrite Zplus_mod_idemp_l. reflexivity.
Qed.

Lemma sign_of x : Z.testbit x 31 = (i32 x <? 0).
Proof.
  rewrite <- (u32_testbit x 31) by lia.
  pose proof (u32_range x).
  rewrite testbit_31_word by assumption.
  rewrite <- i32_u32. rewrite i32_of_word by assumption.
  destruct (Z.leb_spec 2147483648 (u32 x)), (Z.ltb_spec (u32 x - 4294967296) 0);
    try reflexivity; try lia.
  all: destruct (Z.ltb_spec (u32 x) 0); try reflexivity; lia.
Qed.

Lemma testbit_band x y m :
  0 <= m < 32 -> Z.testbit (band x y) m = Z.testbit x m && Z.testbit y m.
Proof. intros Hm. unfold band. now rewrite Z.land_spec, !i32_testbit. Qed.

Lemma testbit_bxor x y m :
  0 <= m < 32 -> Z.testbit (bxor x y) m = xorb (Z.testbit x m) (Z.testbit y m).
Proof. intros Hm. unfold bxor. now rewrite Z.lxor_spec, !i32_testbit. Qed.

Lemma testbit_bnot x m :
  0 <= m < 32 -> Z.testbit (bnot x) m = negb (Z.testbit x m).
Proof. intros Hm. unfold bnot. now rewrite Z.lnot_spec, i32_testbit by lia. Qed.

Lemma flagN_updateBasicFlags c res :
  flagN (updateBasicFlags c res) = of_bool (i32 res <? 0).
Proof.
  unfold updateBasicFlags. cbn. rewrite sign_bit.
  rewrite u32_testbit by lia. now rewrite sign_of.
Qed.

Lemma flagZ_updateBasicFlags c res :
  flagZ (updateBasicFlags c res) = of_bool (u32 res =? 0).
Proof. reflexivity. Qed.

Ltac word_cases :=
  repeat match goal with
         | |- context [Z.leb ?x ?y] => destruct (Z.leb_spec x y)
         | |- context [Z.ltb ?x ?y] => destruct (Z.ltb_spec x y)
         | |- context [Z.eqb ?x ?y] => destruct (Z.eqb_spec x y)
         end;
  cbn [andb orb negb xorb of_bool]; try reflexivity; try lia.

(** X1.  [add] with flag update: the result is the sum modulo 2^32, C is
    the carry out of bit 31, V tells that the sum of the operands read as
    signed 32-bit numbers leaves the signed range, N is the sign of the
    result and Z tells that it is zero. *)
Theorem add_sets_carry_and_overflow c a b :
  let x := add c a b true in
  fst x = (u32 a + u32 b) mod 4294967296 /\
  flagC (snd x) = of_bool (4294967296 <=? u32 a + u32 b) /\
  flagV (snd x)
  = of_bool (negb ((-2147483648 <=? i32 a + i32 b)
                   && (i32 a + i32 b <? 2147483648))) /\
  flagN (snd x) = of_bool (i32 (fst x) <? 0) /\
  flagZ (snd x) = of_bool (fst x =? 0).
Proof.
  cbv zeta. unfold add. cbn [fst snd].
  pose proof (u32_range a) as Ha. pose proof (u32_range b) as Hb.
  pose proof (u32_range (u32 a + u32 b)) as Hr.
  assert (Er : u32 (u32 a + u32 b)
               = if 4294967296 <=? u32 a + u32 b
                 then u32 a + u32 b - 4294967296 else u32 a + u32 b).
  { unfold u32 at 1. destruct (Z.leb_spec 4294967296 (u32 a + u32 b)).
    - replace (u32 a + u32 b)
        with (u32 a + u32 b - 4294967296 + 1 * 4294967296) at 1 by lia.
      rewrite Z.mod_add by lia. apply Z.mod_small. lia.
    - apply Z.mod_small. lia. }
  split; [reflexivity |]. split.
  { cbn [flagC with_V with_C]. word_cases. }
  split.
  { cbn [flagV with_V]. rewrite sign_bit.
    rewrite testbit_band, testbit_bnot, !testbit_bxor by lia.
    rewrite !testbit_31_word by assumption.
    rewrite <- (i32_u32 a), <- (i32_u32 b).
    rewrite !i32_of_word by assumption.
    revert Er. destruct (Z.leb_spec 4294967296 (u32 a + u32 b));
      intros ->; word_cases. }
  split.
  { cbn [flagN with_V with_C]. apply flagN_updateBasicFlags. }
  cbn [flagZ with_V with_C]. rewrite flagZ_updateBasicFlags.
  now rewrite u32_idem.
Qed.

Lemma of_bool_1 b : (of_bool b =? 1) = b.
Proof. now destruct b. Qed.

Lemma of_bool_0 b : (of_bool b =? 0) = negb b.
Proof. now destruct b. Qed.

Lemma of_bool_eqb x y : (of_bool x =? of_bool y) = Bool.eqb x y.
Proof. now destruct x, y. Qed.

Lemma sub_flags c a b :
  let c' := snd (sub c a b true) in
  let res := u32 (u32 a - u32 b) in
  flagN c' = of_bool (2147483648 <=? res) /\
  flagZ c' = of_bool (u32 a =? u32 b) /\
  flagC c' = of_bool (u32 b <=? u32 a) /\
  flagV c'
  = of_bool (xorb (2147483648 <=? u32 a) (2147483648 <=? u32 b)
             && negb (xorb (2147483648 <=? res) (2147483648 <=? u32 b))) /\
  res = (if u32 b <=? u32 a then u32 a - u32 b
         else u32 a - u32 b + 4294967296).
Proof.
  cbv zeta. unfold sub. cbn [fst snd].
  pose proof (u32_range a) as Ha. pose proof (u32_range b) as Hb.
  pose proof (u32_range (u32 a - u32 b)) as Hr.
  assert (Er : u32 (u32 a - u32 b)
               = if u32 b <=? u32 a then u32 a - u32 b
                 else u32 a - u32 b + 4294967296).
  { unfold u32 at 1. destruct (Z.leb_spec (u32 b) (u32 a)).
    - apply Z.mod_small. lia.
    - replace (u32 a - u32 b)
        with (u32 a - u32 b + 4294967296 + (-1) * 4294967296) at 1 by lia.
      rewrite Z.mod_add by lia. apply Z.mod_small. lia. }
  repeat split.
  - cbn [flagN with_V with_C]. unfold updateBasicFlags.
    cbn [flagN with_N with_Z]. rewrite sign_bit, u32_testbit by lia.
    now rewrite testbit_31_word by assumption.
  - cbn [flagZ with_V with_C]. rewrite flagZ_updateBasicFlags, u32_idem.
    f_equal. rewrite Er. word_cases.
  - cbn [flagV with_V]. rewrite sign_bit.
    rewrite testbit_band, testbit_bnot, !testbit_bxor by lia.
    now rewrite !testbit_31_word by assumption.
  - exact Er.
Qed.

(** X2.  After [sub(a, b, true)], the subtraction behind [cmp], the
    condition codes decide the comparison of the operands: eq/ne on
    equality, cs/cc/hi/ls on the unsigned order, ge/lt/gt/le on the order
    of the operands read as signed 32-bit numbers. *)
Theorem compare_decides_conditions c a b :
  let c' := snd (sub c a b true) in
  conditional c' 4 = (u32 a =? u32 b) /\
  conditional c' 5 = negb (u32 a =? u32 b) /\
  conditional c' 0 = (u32 b <=? u32 a) /\
  conditional c' 1 = (u32 a <? u32 b) /\
  conditional c' 2 = (u32 b <? u32 a) /\
  conditional c' 3 = (u32 a <=? u32 b) /\
  conditional c' 8 = (i32 b <=? i32 a) /\
  conditional c' 9 = (i32 a <? i32 b) /\
  conditional c' 6 = (i32 b <? i32 a) /\
  conditional c' 7 = (i32 a <=? i32 b).
Proof.
  destruct (sub_flags c a b) as (EN & EZ & EC & EV & Er).
  cbv zeta in *. set (c' := snd (sub c a b true)) in *.
  pose proof (u32_range a) as Ha. pose proof (u32_range b) as Hb.
  change (conditional c' 4) with (flagZ c' =? 1).
  change (conditional c' 5) with (flagZ c' =? 0).
  change (conditional c' 0) with (flagC c' =? 1).
  change (conditional c' 1) with (flagC c' =? 0).
  change (conditional c' 2) with ((flagC c' =? 1) && (flagZ c' =? 0)).
  change (conditional c' 3) with ((flagC c' =? 0) || (flagZ c' =? 1)).
  change (conditional c' 8) with (flagN c' =? flagV c').
  change (conditional c' 9) with (negb (flagN c' =? flagV c')).
  change (conditional c' 6)
    with ((flagN c' =? flagV c') && (flagZ c' =? 0)).
  change (conditional c' 7)
    with (negb (flagN c' =? flagV c') || (flagZ c' =? 1)).
  rewrite EN, EZ, EC, EV, Er.
  rewrite !of_bool_1, !of_bool_0, !of_bool_eqb.
  rewrite <- (i32_u32 a), <- (i32_u32 b).
  rewrite !i32_of_word by assumption.
  clear EN EZ EC EV Er c'.
  destruct (Z.leb_spec (u32 b) (u32 a));
    repeat split; word_cases.
Qed.

End ALUFacts.

Section SignExtend.

Import JS CPU Spec.

Lemma testbit_pow2 k i : 0 <= k -> Z.testbit (2 ^ k) i = (k =? i).
Proof.
  intros Hk. rewrite Z.pow2_bits_eqb by lia. 
  destruct (Z.eqb_spec k i), (Z.eqb_spec i k); try reflexivity; lia.
Qed.

Lemma lxor_pow2 x k :
  0 <= k ->
  Z.lxor x (2 ^ k) = if Z.testbit x k then x - 2 ^ k else x + 2 ^ k.
Proof.
  intros Hk. destruct (Z.testbit x k) eqn:E.
  - rewrite Z.sub_nocarry_ldiff.
    + apply Z.bits_inj'. intros i Hi.
      rewrite Z.lxor_spec, Z.ldiff_spec, testbit_pow2 by lia.
      destruct (Z.eqb_spec k i) as [<- | Hne].
      * rewrite E. reflexivity.
      * now rewrite xorb_false_r, andb_true_r.
    + apply Z.bits_inj'. intros i Hi.
      rewrite Z.ldiff_spec, testbit_pow2, Z.bits_0 by lia.
      destruct (Z.eqb_spec k i) as [<- | Hne]; [now rewrite E |].
      reflexivity.
  - symmetry. apply Z.add_nocarry_lxor.
    apply Z.bits_inj'. intros i Hi.
    rewrite Z.land_spec, testbit_pow2, Z.bits_0 by lia.
    destruct (Z.eqb_spec k i) as [<- | Hne]; [now rewrite E |].
    apply andb_false_r.
Qed.

Lemma testbit_top x b :
  1 <= b -> 0 <= x < 2 ^ b -> Z.testbit x (b - 1) = (2 ^ (b - 1) <=? x).
Proof.
  intros Hb Hx. rewrite testbit_div by lia.
  assert (E2 : 2 ^ b = 2 * 2 ^ (b - 1)).
  { replace b with (1 + (b - 1)) at 1 by lia.
    now rewrite Z.pow_add_r by lia. }
  assert (Hp : 0 < 2 ^ (b - 1)) by (apply Z.pow_pos_nonneg; lia).
  assert (Hq : 0 <= x / 2 ^ (b - 1) < 2).
  { split; [apply Z.div_pos; lia | apply Z.div_lt_upper_bound; lia]. }
  destruct (Z.leb_spec (2 ^ (b - 1)) x).
  - assert (x / 2 ^ (b - 1) = 1) as ->; [| reflexivity].
    assert (x / 2 ^ (b - 1) <> 0); [| lia].
    intros E0. apply Z.div_small_iff in E0; lia.
  - rewrite Z.div_small by lia. reflexivity.
Qed.

Lemma mask_of b x : 1 <= b <= 31 -> band x (shl 1 b - 1) = x mod 2 ^ b.
Proof.
  intros Hb. rewrite <- band_ones_r by lia.
  unfold band. f_equal.
  rewrite shl_1 by lia. rewrite Z.ones_equiv.
  assert (b = 31 \/ b <= 30) as [-> | Hb'] by lia; [reflexivity |].
  assert (2 ^ b <= 2 ^ 30) by (apply Z.pow_le_mono_r; lia).
  assert (0 < 2 ^ b) by (apply Z.pow_pos_nonneg; lia).
  change (2 ^ 30) with 1073741824 in *.
  rewrite (i32_small (2 ^ b)) by lia. f_equal; lia.
Qed.

(** X3.  [signExtend(x, b)] for a field of 1 to 31 bits: read as a signed
    32-bit number, the result is the two's-complement value of the low [b]
    bits of [x]. *)
Theorem signExtend_twos_complement x b :
  1 <= b <= 31 ->
  i32 (signExtend x b) = (x + 2 ^ (b - 1)) mod 2 ^ b - 2 ^ (b - 1).
Proof.
  intros Hb. unfold signExtend.
  destruct (Z.leb_spec 32 b); [lia |].
  rewrite mask_of by lia.
  assert (E2 : 2 ^ b = 2 * 2 ^ (b - 1)).
  { replace b with (1 + (b - 1)) at 1 by lia.
    now rewrite Z.pow_add_r by lia. }
  assert (Hp : 0 < 2 ^ (b - 1)) by (apply Z.pow_pos_nonneg; lia).
  assert (Hh : 2 ^ (b - 1) <= 2 ^ 30) by (apply Z.pow_le_mono_r; lia).
  change (2 ^ 30) with 1073741824 in Hh.
  pose proof (Z.mod_pos_bound x (2 ^ b) ltac:(lia)) as Hx.
  rewrite shl_1 by lia. rewrite (i32_small (2 ^ (b - 1))) by lia.
  unfold bxor. rewrite (i32_small (x mod 2 ^ b)) by lia.
  rewrite (i32_small (2 ^ (b - 1))) by lia.
  rewrite lxor_pow2 by lia. rewrite testbit_top by lia.
  rewrite i32_u32.
  rewrite <- (Zplus_mod_idemp_l x).
  set (x' := x mod 2 ^ b) in *. set (h := 2 ^ (b - 1)) in *.
  destruct (Z.leb_spec h x').
  - rewrite i32_small by lia.
    replace (x' + h) with (x' - h + 1 * 2 ^ b) by lia.
    rewrite Z.mod_add by lia. rewrite Z.mod_small by lia. lia.
  - rewrite i32_small by lia. rewrite Z.mod_small by lia. lia.
Qed.

Lemma signExtend_twos_complement_witness :
  1 <= 12 <= 31 /\ i32 (signExtend 4095 12) = -1.
Proof.
  split; [lia |]. exact (signExtend_twos_complement 4095 12 ltac:(lia)).
Defined.

End SignExtend.

Section Rotate.

Import JS CPU Spec.

Lemma band_31 x : band x 31 = x mod 32.
Proof. exact (band_ones_r x 5 ltac:(lia)). Qed.

Lemma testbit_high_word x m :
  0 <= x < 4294967296 -> 32 <= m -> Z.testbit x m = false.
Proof.
  intros Hx Hm. apply Z.testbit_false; [lia |].
  rewrite Z.div_small; [reflexivity |].
  split; [lia |]. 
  assert (2 ^ 32 <= 2 ^ m) by (apply Z.pow_le_mono_r; lia).
  change (2 ^ 32) with 4294967296 in *. lia.
Qed.

Lemma testbit_shr a s m :
  0 <= s < 32 -> 0 <= m ->
  Z.testbit (shr a s) m = Z.testbit (u32 a) (m + s).
Proof.
  intros Hs Hm. unfold shr. rewrite shcount_small by lia.
  now rewrite Z.shiftr_spec by lia.
Qed.

Lemma rol_bits c a sa u m :
  0 <= m < 32 ->
  Z.testbit (fst (rol c a sa u)) m = Z.testbit (u32 a) ((m - sa) mod 32).
Proof.
  intros Hm. unfold rol. rewrite band_31.
  pose proof (Z.mod_pos_bound sa 32 ltac:(lia)) as Hs.
  pose proof (u32_range a) as Ha.
  assert (Em : (m - sa) mod 32 = (m - sa mod 32) mod 32).
  { now rewrite Zminus_mod_idemp_r. }
  rewrite Em. clear Em. generalize dependent (sa mod 32). intros s Hs.
  destruct (Z.eqb_spec s 0) as [E0 | Hne].
  - cbn [fst]. rewrite E0, Z.sub_0_r. now rewrite Z.mod_small by lia.
  - assert (Er : Z.testbit (u32 (bor (shl (u32 a) s) (shr (u32 a) (32 - s)))) m
                 = Z.testbit (u32 a) ((m - s) mod 32)).
    { assert (0 <= 32 - s < 32) by lia.
      rewrite u32_testbit by lia. rewrite testbit_bor by lia.
      rewrite testbit_shl by lia. rewrite testbit_shr by lia.
      rewrite !u32_idem.
      destruct (Z.leb_spec s m).
      - rewrite andb_true_r.
        rewrite (testbit_high_word (u32 a) (m + (32 - s))) by lia.
        rewrite orb_false_r. now rewrite Z.mod_small by lia.
      - rewrite andb_false_r, orb_false_l.
        replace (m - s) with (m + (32 - s) + (-1) * 32) by lia.
        rewrite Z.mod_add by lia. now rewrite Z.mod_small by lia. }
    destruct u; cbn [fst]; exact Er.
Qed.

Lemma ror_bits c a sa u m :
  0 <= m < 32 ->
  Z.testbit (fst (ror c a sa u)) m = Z.testbit (u32 a) ((m + sa) mod 32).
Proof.
  intros Hm. unfold ror. rewrite band_31.
  pose proof (Z.mod_pos_bound sa 32 ltac:(lia)) as Hs.
  pose proof (u32_range a) as Ha.
  assert (Em : (m + sa) mod 32 = (m + sa mod 32) mod 32).
  { now rewrite Zplus_mod_idemp_r. }
  rewrite Em. clear Em. generalize dependent (sa mod 32). intros s Hs.
  destruct (Z.eqb_spec s 0) as [E0 | Hne].
  - cbn [fst]. rewrite E0, Z.add_0_r. now rewrite Z.mod_small by lia.
  - assert (Er : Z.testbit (u32 (bor (shr (u32 a) s) (shl (u32 a) (32 - s)))) m
                 = Z.testbit (u32 a) ((m + s) mod 32)).
    { assert (0 <= 32 - s < 32) by lia.
      rewrite u32_testbit by lia. rewrite testbit_bor by lia.
      rewrite testbit_shl by lia. rewrite testbit_shr by lia.
      rewrite !u32_idem.
      destruct (Z.leb_spec (32 - s) m).
      - rewrite andb_true_r. rewrite (testbit_high_word (u32 a) (m + s)) by lia.
        rewrite orb_false_l.
        replace (m + s) with (m - (32 - s) + 1 * 32) by lia.
        rewrite Z.mod_add by lia. now rewrite Z.mod_small by lia.
      - rewrite andb_false_r, orb_false_r. now rewrite Z.mod_small by lia. }
    destruct u; cbn [fst]; exact Er.
Qed.

Lemma rol_range c a sa u : 0 <= fst (rol c a sa u) < 4294967296.
Proof.
  unfold rol. destruct (_ =? 0); [apply u32_range |].
  destruct u; apply u32_range.
Qed.

(** X4.  [rol] and [ror] rotate the 32-bit operand by the amount taken
    modulo 32: bit [m] of the result of [rol] is bit [m - sa] of the
    operand, that of [ror] bit [m + sa], the index taken modulo 32; so
    [ror] undoes [rol]. *)
Theorem rotate_left_then_right c a sa u :
  (forall m, 0 <= m < 32 ->
     Z.testbit (fst (rol c a sa u)) m
     = Z.testbit (u32 a) ((m - sa) mod 32)) /\
  (forall m, 0 <= m < 32 ->
     Z.testbit (fst (ror c a sa u)) m
     = Z.testbit (u32 a) ((m + sa) mod 32)) /\
  fst (ror c (fst (rol c a sa u)) sa u) = u32 a.
Proof.
  split; [intros m Hm; now apply rol_bits |].
  split; [intros m Hm; now apply ror_bits |].
  pose proof (rol_range c a sa u) as Hr.
  assert (Hq : 0 <= fst (ror c (fst (rol c a sa u)) sa u) < 4294967296).
  { unfold ror. destruct (_ =? 0); [apply u32_range |].
    destruct u; apply u32_range. }
  pose proof (u32_range a) as Ha.
  apply Z.bits_inj'. intros m Hm.
  destruct (Z.ltb_spec m 32) as [Hlt | Hge].
  - rewrite ror_bits by lia. rewrite (u32_small (fst (rol c a sa u))) by lia.
    pose proof (Z.mod_pos_bound (m + sa) 32 ltac:(lia)).
    rewrite rol_bits by lia. f_equal.
    rewrite Zminus_mod_idemp_l.
    replace (m + sa - sa) with m by lia. now rewrite Z.mod_small by lia.
  - now rewrite !testbit_high_word by lia.
Qed.

End Rotate.

Section MulDiv.

Import JS CPU Spec.

Lemma land_mask32 x : Z.land x 4294967295 = x mod 4294967296.
Proof. exact (Z.land_ones x 32 ltac:(lia)). Qed.

Lemma split64 res :
  u32 (Z.land (Z.shiftr res 32) 4294967295) * 4294967296
  + u32 (Z.land res 4294967295)
  = res mod 18446744073709551616.
Proof.
  rewrite !land_mask32. unfold u32. rewrite !Z.mod_mod by lia.
  rewrite Z.shiftr_div_pow2 by lia. change (2 ^ 32) with 4294967296.
  change 18446744073709551616 with (4294967296 * 4294967296).
  rewrite Z.rem_mul_r by lia. lia.
Qed.

Lemma halves64 res :
  u32 (Z.land res 4294967295) = res mod 4294967296 /\
  u32 (Z.land (Z.shiftr res 32) 4294967295)
  = (res / 4294967296) mod 4294967296.
Proof.
  rewrite !land_mask32. unfold u32. rewrite !Z.mod_mod by lia.
  rewrite Z.shiftr_div_pow2 by lia. now change (2 ^ 32) with 4294967296.
Qed.

(** X5.  The multiplier leaves the 64-bit product in CEH:CEL, the low
    32 bits in CEL and the high 32 bits in CEH, both as unsigned words:
    for [mul] the product of the operands read as signed 32-bit numbers,
    in two's complement (2^64 is added to a negative product); for [mulu]
    the product of the unsigned operands. *)
Theorem multiply_fills_CEH_CEL c a b :
  (let c' := execMul c a b in
   let p := i32 a * i32 b in
   CEL c' = p mod 4294967296 /\
   CEH c' = (p / 4294967296) mod 4294967296 /\
   0 <= CEL c' < 4294967296 /\ 0 <= CEH c' < 4294967296 /\
   CEH c' * 4294967296 + CEL c' = p mod 18446744073709551616 /\
   CEH c' * 4294967296 + CEL c'
   = p + (if p <? 0 then 18446744073709551616 else 0)) /\
  (let c' := execMulu c a b in
   let p := u32 a * u32 b in
   CEL c' = p mod 4294967296 /\
   CEH c' = p / 4294967296 /\
   0 <= CEL c' < 4294967296 /\ 0 <= CEH c' < 4294967296 /\
   CEH c' * 4294967296 + CEL c' = p).
Proof.
  split; cbv zeta.
  - unfold execMul. cbn [CEH CEL with_CEH with_CEL].
    destruct (halves64 (i32 a * i32 b)) as [Hl Hh].
    pose proof (split64 (i32 a * i32 b)) as Hs.
    pose proof (i32_range a). pose proof (i32_range b).
    assert (Hp : - 4611686018427387904 <= i32 a * i32 b
                 <= 4611686018427387904) by nia.
    split; [exact Hl |]. split; [exact Hh |].
    split; [rewrite Hl; apply Z.mod_pos_bound; lia |].
    split; [rewrite Hh; apply Z.mod_pos_bound; lia |].
    split; [exact Hs |]. rewrite Hs.
    destruct (Z.ltb_spec (i32 a * i32 b) 0).
    + rewrite <- (Z.mod_add _ 1) by lia. apply Z.mod_small. lia.
    + rewrite Z.add_0_r. apply Z.mod_small. lia.
  - unfold execMulu. cbn [CEH CEL with_CEH with_CEL].
    destruct (halves64 (u32 a * u32 b)) as [Hl Hh].
    pose proof (split64 (u32 a * u32 b)) as Hs.
    pose proof (u32_range a). pose proof (u32_range b).
    assert (Hp : 0 <= u32 a * u32 b < 18446744073709551616) by nia.
    assert (Hq : 0 <= u32 a * u32 b / 4294967296 < 4294967296).
    { split; [apply Z.div_pos; lia |].
      apply Z.div_lt_upper_bound; lia. }
    rewrite Hh in *. rewrite (Z.mod_small _ _ Hq) in *.
    split; [exact Hl |]. split; [reflexivity |].
    split; [rewrite Hl; apply Z.mod_pos_bound; lia |].
    split; [exact Hq |].
    rewrite Hs. now apply Z.mod_small.
Qed.

(** X6.  The divider: [divu] leaves the quotient of the unsigned operands
    in CEL and the remainder in CEH; [div] divides the operands read as
    signed numbers, truncating towards zero, so that the remainder has the
    sign of the dividend; and a division by zero leaves CEL and CEH as they
    were. *)
Theorem divide_fills_CEL_CEH c a b :
  (u32 b <> 0 ->
   let c' := execDivu c a b in
   u32 a = u32 b * CEL c' + CEH c' /\ 0 <= CEH c' < u32 b) /\
  (i32 b <> 0 ->
   let c' := execDiv c a b in
   CEL c' = u32 (Z.quot (i32 a) (i32 b)) /\
   i32 (CEH c') = Z.rem (i32 a) (i32 b) /\
   i32 a = i32 b * Z.quot (i32 a) (i32 b) + i32 (CEH c') /\
   Z.abs (i32 (CEH c')) < Z.abs (i32 b) /\
   0 <= i32 (CEH c') * i32 a) /\
  (u32 b = 0 -> execDivu c a b = c) /\
  (i32 b = 0 -> execDiv c a b = c).
Proof.
  pose proof (u32_range a) as Ha. pose proof (u32_range b) as Hb.
  pose proof (i32_range a) as Ia. pose proof (i32_range b) as Ib.
  split; [| split; [| split]].
  - intros Hnz. cbv zeta. unfold execDivu.
    destruct (Z.eqb_spec (u32 b) 0); [contradiction |].
    cbn [negb CEH CEL with_CEH with_CEL].
    pose proof (Z.mod_pos_bound (u32 a) (u32 b) ltac:(lia)) as Hm.
    assert (0 <= u32 a / u32 b <= u32 a).
    { split; [apply Z.div_pos; lia |].
      apply Z.div_le_upper_bound; [lia | nia]. }
    rewrite (u32_small (u32 a / u32 b)) by lia.
    rewrite (u32_small (u32 a mod u32 b)) by lia.
    split; [apply Z.div_mod; lia | exact Hm].
  - intros Hnz. cbv zeta. unfold execDiv.
    destruct (Z.eqb_spec (i32 b) 0); [contradiction |].
    cbn [negb CEH CEL with_CEH with_CEL].
    pose proof (Z.rem_bound_abs (i32 a) (i32 b) Hnz) as Hr.
    pose proof (Z.rem_sign_mul (i32 a) (i32 b) Hnz) as Hsg.
    rewrite i32_u32. rewrite (i32_small (Z.rem (i32 a) (i32 b))) by lia.
    split; [reflexivity |]. split; [reflexivity |].
    split; [apply Z.quot_rem'|]. split; [exact Hr | exact Hsg].
  - intros Hz. unfold execDivu. now rewrite Hz.
  - intros Hz. unfold execDiv. now rewrite Hz.
Qed.

Lemma divide_fills_CEL_CEH_witness :
  u32 3 <> 0 /\ i32 (-3) <> 0 /\
  u32 7 = u32 3 * CEL (execDivu CPU.reset 7 3) + CEH (execDivu CPU.reset 7 3) /\
  CEL (execDiv CPU.reset (-7) (-3)) = u32 (Z.quot (i32 (-7)) (i32 (-3))) /\
  i32 (CEH (execDiv CPU.reset (-7) (-3))) = Z.rem (i32 (-7)) (i32 (-3)).
Proof.
  assert (H1 : u32 3 <> 0) by discriminate.
  assert (H2 : i32 (-3) <> 0) by discriminate.
  split; [exact H1 |]. split; [exact H2 |].
  split.
  - exact (proj1 (proj1 (divide_fills_CEL_CEH CPU.reset 7 3) H1)).
  - pose proof (proj1 (proj2 (divide_fills_CEL_CEH CPU.reset (-7) (-3))) H2)
      as H.
    cbv zeta in H. split; [exact (proj1 H) | exact (proj1 (proj2 H))].
Defined.

End MulDiv.

Section BitOps.

Import JS CPU Spec.

Lemma bitset_bits c a i u m :
  0 <= m < 32 ->
  Z.testbit (fst (bitset c a i u)) m = Z.testbit a m || (i mod 32 =? m).
Proof.
  intros Hm. unfold bitset. cbn [fst]. rewrite band_31.
  pose proof (Z.mod_pos_bound i 32 ltac:(lia)).
  rewrite u32_testbit by lia. now rewrite testbit_bor_shl_1 by lia.
Qed.

Lemma bitclr_bits c a i u m :
  0 <= m < 32 ->
  Z.testbit (fst (bitclr c a i u)) m
  = Z.testbit a m && negb (i mod 32 =? m).
Proof.
  intros Hm. unfold bitclr. cbn [fst]. rewrite band_31.
  pose proof (Z.mod_pos_bound i 32 ltac:(lia)).
  rewrite u32_testbit by lia. rewrite testbit_band_bnot by lia.
  now rewrite testbit_shl_1 by lia.
Qed.

Lemma bittgl_bits c a i u m :
  0 <= m < 32 ->
  Z.testbit (fst (bittgl c a i u)) m
  = xorb (Z.testbit a m) (i mod 32 =? m).
Proof.
  intros Hm. unfold bittgl. cbn [fst]. rewrite band_31.
  pose proof (Z.mod_pos_bound i 32 ltac:(lia)).
  rewrite u32_testbit by lia. rewrite testbit_bxor by lia.
  now rewrite testbit_shl_1 by lia.
Qed.

Lemma bittst_flags c a i :
  flagT (bittst c a i) = of_bool (Z.testbit a (i mod 32)) /\
  flagZ (bittst c a i) = of_bool (negb (Z.testbit a (i mod 32))).
Proof.
  unfold bittst. rewrite band_31.
  pose proof (Z.mod_pos_bound i 32 ltac:(lia)).
  cbn [flagT flagZ with_T with_Z]. rewrite band_shl_1_test by lia.
  split; [reflexivity |]. now destruct (Z.testbit a (i mod 32)).
Qed.

(** X7.  The single-bit operations work on bit [bitIdx mod 32]: [bittst]
    sets T to that bit of the operand and Z to its complement; after
    [bitset] the test finds the bit set, after [bitclr] clear; [bitset] and
    [bitclr] leave the other bits alone, and toggling twice gives the
    operand back. *)
Theorem single_bit_operations c a i u :
  flagT (bittst c a i) = of_bool (Z.testbit a (i mod 32)) /\
  flagZ (bittst c a i) = of_bool (negb (Z.testbit a (i mod 32))) /\
  flagT (bittst c (fst (bitset c a i u)) i) = 1 /\
  flagT (bittst c (fst (bitclr c a i u)) i) = 0 /\
  (forall m, 0 <= m < 32 -> m <> i mod 32 ->
     Z.testbit (fst (bitset c a i u)) m = Z.testbit a m /\
     Z.testbit (fst (bitclr c a i u)) m = Z.testbit a m) /\
  fst (bittgl c (fst (bittgl c a i u)) i u) = u32 a.
Proof.
  pose proof (Z.mod_pos_bound i 32 ltac:(lia)) as Hi.
  destruct (bittst_flags c a i) as [ET EZ].
  split; [exact ET |]. split; [exact EZ |].
  split.
  { destruct (bittst_flags c (fst (bitset c a i u)) i) as [-> _].
    rewrite bitset_bits by lia. rewrite Z.eqb_refl, orb_true_r. reflexivity. }
  split.
  { destruct (bittst_flags c (fst (bitclr c a i u)) i) as [-> _].
    rewrite bitclr_bits by lia. rewrite Z.eqb_refl, andb_false_r.
    reflexivity. }
  split.
  { intros m Hm Hne. rewrite bitset_bits, bitclr_bits by lia.
    destruct (Z.eqb_spec (i mod 32) m); [lia |].
    now rewrite orb_false_r, andb_true_r. }
  assert (Hr : forall x, 0 <= fst (bittgl c x i u) < 4294967296).
  { intros x. unfold bittgl. cbn [fst]. apply u32_range. }
  pose proof (u32_range a) as Ha.
  apply Z.bits_inj'. intros m Hm.
  destruct (Z.ltb_spec m 32).
  - rewrite !bittgl_bits by lia. rewrite u32_testbit by lia.
    now destruct (Z.testbit a m), (i mod 32 =? m).
  - rewrite (testbit_high_word _ m (Hr _)) by lia.
    now rewrite testbit_high_word by lia.
Qed.

End BitOps.

(** ** Runs of the CPU *)

Section RunFacts.

Import JS CPU Spec.

Context {M : Type} `{MemoryRegion M}.

Lemma miu_load_connected rd c (mem : M) addr k :
  is_Some (snd (miu_load rd c (Some mem) addr k)).
Proof. unfold miu_load. destruct (rd mem addr). now eexists. Qed.

Lemma miu_store_connected wr c (mem : M) addr v :
  is_Some (snd (miu_store wr c (Some mem) addr v)).
Proof. now eexists. Qed.

Ltac connected :=
  intros; cbn [fst snd];
  repeat (match goal with
          | |- context [if ?b then _ else _] => destruct b
          | |- context [match ?x with _ => _ end] => destruct x
          end; cbn [fst snd]);
  first [ apply miu_load_connected | apply miu_store_connected
        | now eexists ].

Lemma execSpForm_connected c (mem : M) insn :
  is_Some (snd (snd (execSpForm c (Some mem) insn))).
Proof. unfold execSpForm. connected. Qed.

Lemma execIForm_connected c (mem : M) insn :
  is_Some (snd (snd (execIForm c (Some mem) insn))).
Proof. unfold execIForm. connected. Qed.

Lemma execJForm_connected c (mem : M) insn :
  is_Some (snd (snd (execJForm c (Some mem) insn))).
Proof. unfold execJForm. connected. Qed.

Lemma execBForm_connected c (mem : M) insn :
  is_Some (snd (snd (execBForm c (Some mem) insn))).
Proof. unfold execBForm. connected. Qed.

Lemma execRixForm_connected c (mem : M) insn :
  is_Some (snd (snd (execRixForm c (Some mem) insn))).
Proof.
  unfold execRixForm. destruct (loadstore _ _ _ _ _). now eexists.
Qed.

Lemma execMemoryForm_connected c (mem : M) insn :
  is_Some (snd (snd (execMemoryForm c (Some mem) insn))).
Proof.
  unfold execMemoryForm. destruct (_ && _).
  - destruct (loadstore _ _ _ _ _). now eexists.
  - now eexists.
Qed.

Lemma exec16_connected c (mem : M) insn :
  is_Some (snd (snd (exec16 c (Some mem) insn))).
Proof. unfold exec16. connected. Qed.

Lemma execute_connected f c (mem : M) encoded :
  is_Some (snd (snd (execute f c (Some mem) encoded))).
Proof.
  destruct f as [[] |]; cbn [execute].
  - apply execSpForm_connected.
  - apply execIForm_connected.
  - apply execJForm_connected.
  - apply execRixForm_connected.
  - apply execBForm_connected.
  - apply execMemoryForm_connected.
  - apply exec16_connected.
  - now eexists.
Qed.

(** A step of a CPU that is not halted and has its memory succeeds, keeps
    the memory connected and halts nothing. *)
Lemma step_succeeds c (mem : M) :
  halted c = false ->
  exists c' mem',
    step c (Some mem) = (true, (c', Some mem')) /\
    halted c' = false /\
    cycles c' = cycles c + 1 /\
    instructions c' = instructions c + 1.
Proof.
  intros Hh. unfold step. rewrite Hh.
  destruct (readU32 mem (pc c)) as [encoded mem1].
  pose proof (execute_connected (dispatch (band (shr encoded 27) 31)) c
                mem1 encoded) as [mem' Em].
  pose proof (counters_execute (dispatch (band (shr encoded 27) 31)) c
                (Some mem1) encoded) as Ec.
  destruct (execute _ c (Some mem1) encoded) as [result [c1 m1]].
  cbn [fst snd] in *. subst m1.
  unfold counters in Ec. injection Ec as E1 E2 E3.
  eexists _, mem'. split; [reflexivity |].
  destruct (negb _); cbn; rewrite ?E1, ?E2, ?E3, ?Hh; repeat split; lia.
Qed.

(** X8.  [run(maxSteps)] on a CPU that is not halted and has its memory
    interface executes exactly [maxSteps] instructions: it returns
    [maxSteps], the cycle and instruction counters have advanced by that
    number, and the CPU is still not halted, whatever the memory holds. *)
Theorem run_executes_every_step (maxSteps : nat) c (mem : M) :
  halted c = false ->
  exists c' mem',
    run maxSteps c (Some mem) = (Z.of_nat maxSteps, (c', Some mem')) /\
    cycles c' = cycles c + Z.of_nat maxSteps /\
    instructions c' = instructions c + Z.of_nat maxSteps /\
    halted c' = false.
Proof.
  revert c mem. induction maxSteps as [| k IH]; intros c mem Hh.
  - exists c, mem. cbn [run]. repeat split; [lia | lia | exact Hh].
  - cbn [run]. rewrite Hh.
    destruct (step_succeeds c mem Hh) as (c1 & mem1 & Es & Hh1 & Ec & Ei).
    rewrite Es.
    destruct (IH c1 mem1 Hh1) as (c' & mem' & Er & Ec' & Ei' & Hh').
    rewrite Er. exists c', mem'.
    split; [f_equal; lia |]. repeat split; [lia | lia | exact Hh'].
Qed.

End RunFacts.

Section RunWitness.

Import JS CPU.

#[local] Existing Instance ArrayMemoryRegion.region.

Lemma run_executes_every_step_witness :
  halted CPU.reset = false /\
  exists c' mem',
    run 3 CPU.reset (Some (ArrayMemoryRegion.mk ∅ 16 16 true))
    = (Z.of_nat 3, (c', Some mem')) /\
    cycles c' = cycles CPU.reset + Z.of_nat 3 /\
    instructions c' = instructions CPU.reset + Z.of_nat 3 /\
    halted c' = false.
Proof.
  split; [reflexivity |].
  exact (run_executes_every_step 3 CPU.reset
           (ArrayMemoryRegion.mk ∅ 16 16 true) eq_refl).
Defined.

End RunWitness.

(** ** Backing-array regions *)

Section RegionFacts.

Import JS ArrayMemoryRegion.

Lemma byte_set_byte a k v k' :
  byte (set_byte a k v) k' = if Z.eq_dec k k' then v mod 256 else byte a k'.
Proof.
  unfold byte, set_byte. cbn [u8 with_u8].
  destruct (Z.eq_dec k k') as [<- | Hne].
  - now rewrite lookup_insert_eq.
  - now rewrite lookup_insert_ne.
Qed.

Lemma byte_range_set_byte a k v : 0 <= byte (set_byte a k v) k < 256.
Proof.
  rewrite byte_set_byte. destruct (Z.eq_dec k k); [| contradiction].
  apply Z.mod_pos_bound. lia.
Qed.

Lemma bytes_of_word v :
  0 <= v < 4294967296 ->
  v mod 256 + 256 * ((v / 256) mod 256) + 65536 * ((v / 65536) mod 256)
  + 16777216 * ((v / 16777216) mod 256) = v.
Proof.
  intros Hv.
  pose proof (Z.div_mod v 256 ltac:(lia)).
  pose proof (Z.div_mod (v / 256) 256 ltac:(lia)).
  pose proof (Z.div_mod (v / 256 / 256) 256 ltac:(lia)).
  rewrite (Z.div_div v 256 256) in * by lia.
  rewrite (Z.div_div v (256 * 256) 256) in * by lia.
  change (256 * 256) with 65536 in *. change (65536 * 256) with 16777216 in *.
  assert (0 <= v / 16777216 < 256).
  { split; [apply Z.div_pos; lia | apply Z.div_lt_upper_bound; lia]. }
  rewrite (Z.mod_small (v / 16777216) 256) by lia. lia.
Qed.

Lemma word_set_word a i v :
  0 <= v < 4294967296 -> word (set_word a i v) i = v.
Proof.
  intros Hv. unfold word, set_word. rewrite !byte_set_byte.
  repeat match goal with
         | |- context [Z.eq_dec ?x ?y] => destruct (Z.eq_dec x y); try lia
         end.
  now apply bytes_of_word.
Qed.

Lemma word_set_word_ne a i j v : i <> j -> word (set_word a i v) j = word a j.
Proof.
  intros Hne. unfold word, set_word. rewrite !byte_set_byte.
  repeat match goal with
         | |- context [Z.eq_dec ?x ?y] => destruct (Z.eq_dec x y); try lia
         end.
Qed.

Lemma byte_set_word a i v k :
  byte (set_word a i v) k
  = if (4 * i <=? k) && (k <? 4 * i + 4)
    then (v / 2 ^ (8 * (k - 4 * i))) mod 256
    else byte a k.
Proof.
  unfold set_word. rewrite !byte_set_byte.
  destruct (Z.leb_spec (4 * i) k), (Z.ltb_spec k (4 * i + 4)); cbn [andb];
    repeat match goal with
           | |- context [Z.eq_dec ?x ?y] => destruct (Z.eq_dec x y); try lia
           end; try reflexivity.
  - replace (k - 4 * i) with 3 by lia. reflexivity.
  - replace (k - 4 * i) with 2 by lia. reflexivity.
  - replace (k - 4 * i) with 1 by lia. reflexivity.
  - replace (k - 4 * i) with 0 by lia. now rewrite Z.div_1_r.
Qed.

Lemma half_set_half a i v :
  0 <= v < 65536 -> half (set_half a i v) i = v.
Proof.
  intros Hv. unfold half, set_half. rewrite !byte_set_byte.
  repeat match goal with
         | |- context [Z.eq_dec ?x ?y] => destruct (Z.eq_dec x y); try lia
         end.
  pose proof (Z.div_mod v 256 ltac:(lia)).
  assert (0 <= v / 256 < 256).
  { split; [apply Z.div_pos; lia | apply Z.div_lt_upper_bound; lia]. }
  rewrite (Z.mod_small (v / 256) 256) by lia. lia.
Qed.

Lemma band_65535 x : band x 65535 = x mod 65536.
Proof. exact (band_ones_r x 16 ltac:(lia)). Qed.

(** X9.  A value written to a writable region is read back at the same
    offset, whatever the offset and the size of the region: a word as
    [value >>> 0], a halfword as its low 16 bits, a byte as its low 8 bits;
    and once the region has been made read-only it ignores all three
    writes. *)
Theorem region_reads_back_what_was_written a offset value :
  writable a = true ->
  fst (readU32 (writeU32 a offset value) offset) = u32 value /\
  fst (readU16 (writeU16 a offset value) offset) = value mod 65536 /\
  fst (readU8 (writeU8 a offset value) offset) = value mod 256 /\
  writeU32 (makeReadOnly a) offset value = makeReadOnly a /\
  writeU16 (makeReadOnly a) offset value = makeReadOnly a /\
  writeU8 (makeReadOnly a) offset value = makeReadOnly a.
Proof.
  intros Hw.
  split; [| split; [| split; [| repeat split]]];
    unfold readU32, writeU32, readU16, writeU16, readU8, writeU8;
    rewrite Hw; cbn [negb fst].
  - unfold u32_length. cbn [byteLength set_word set_byte with_u8].
    rewrite word_set_word by apply u32_range. apply u32_idem.
  - unfold u16_length. cbn [byteLength set_half set_byte with_u8].
    rewrite half_set_half; [apply band_65535 |].
    rewrite band_65535. apply Z.mod_pos_bound. lia.
  - unfold u8_length. cbn [byteLength set_byte with_u8].
    rewrite byte_set_byte. destruct (Z.eq_dec _ _); [| contradiction].
    rewrite band_255. apply Z.mod_mod. lia.
Qed.

Lemma region_reads_back_what_was_written_witness :
  let a := mk ∅ 12 10 true in
  writable a = true /\
  fst (readU32 (writeU32 a 6 (-1)) 6) = u32 (-1) /\
  fst (readU8 (writeU8 a 9 511) 9) = 511 mod 256.
Proof.
  cbv zeta.
  destruct (region_reads_back_what_was_written (mk ∅ 12 10 true) 6 (-1)
              eq_refl) as (H1 & _).
  destruct (region_reads_back_what_was_written (mk ∅ 12 10 true) 9 511
              eq_refl) as (_ & _ & H3 & _).
  split; [reflexivity |]. split; assumption.
Defined.

End RegionFacts.

Section PowerOfTwo.

Import JS ArrayMemoryRegion.

Lemma testbit_slice x s n m :
  0 <= s -> 0 <= n -> 0 <= m ->
  Z.testbit ((x / 2 ^ s) mod 2 ^ n) m = (m <? n) && Z.testbit x (m + s).
Proof.
  intros Hs Hn Hm. destruct (Z.ltb_spec m n).
  - rewrite Z.mod_pow2_bits_low by lia. cbn [andb].
    now rewrite Z.div_pow2_bits by lia.
  - rewrite Z.mod_pow2_bits_high by lia. reflexivity.
Qed.

Lemma slice_range x s n : 0 <= n -> 0 <= (x / 2 ^ s) mod 2 ^ n < 2 ^ n.
Proof. intros Hn. apply Z.mod_pos_bound. apply Z.pow_pos_nonneg; lia. Qed.

(** [(x >>> s) << s >>> s] keeps the bits of [x] from [s] up. *)
Lemma shr_shl_shr x s :
  0 <= s < 32 -> shr (shl (shr x s) s) s = u32 x / 2 ^ s.
Proof.
  intros Hs. pose proof (u32_range x) as Hx.
  apply Z.bits_inj'. intros m Hm.
  rewrite testbit_shr by lia. rewrite Z.div_pow2_bits by lia.
  destruct (Z.ltb_spec (m + s) 32).
  - rewrite u32_testbit by lia. rewrite testbit_shl by lia.
    replace (m + s - s) with m by lia.
    destruct (Z.leb_spec s (m + s)); [| lia]. rewrite andb_true_r.
    now rewrite testbit_shr by lia.
  - rewrite (testbit_high_word (u32 x)) by lia.
    apply testbit_high_word; [apply u32_range | lia].
Qed.

Section Region.

Variables (a : t) (k : Z).
Hypothesis Hk : 2 <= k <= 31.
Hypothesis Hlen : byteLength a = 2 ^ k.

Lemma pow_split s : 0 <= s <= 2 -> 2 ^ k = 2 ^ s * 2 ^ (k - s).
Proof.
  intros Hs. rewrite <- Z.pow_add_r by lia. f_equal. lia.
Qed.

Lemma mask_of_view s :
  0 <= s <= 2 -> byteLength a / 2 ^ s - 1 = Z.ones (k - s).
Proof.
  intros Hs. rewrite Hlen, (pow_split s) by lia.
  rewrite Z.mul_comm, Z.div_mul by (apply Z.pow_nonzero; lia).
  rewrite Z.ones_equiv. lia.
Qed.

(** The index that an access of [2 ^ s] bytes at [offset] uses: the bits
    of [offset] from [s] up to [k]. *)
Lemma index_of_view s offset :
  0 <= s <= 2 ->
  band (shr (shl (shr offset s) s) s) (byteLength a / 2 ^ s - 1)
  = (u32 offset / 2 ^ s) mod 2 ^ (k - s).
Proof.
  intros Hs. rewrite mask_of_view by lia.
  rewrite band_ones_r by lia. now rewrite shr_shl_shr by lia.
Qed.

Lemma index8 offset :
  band (u32 offset) (u8_length a - 1) = (u32 offset / 2 ^ 0) mod 2 ^ (k - 0).
Proof.
  unfold u8_length. replace (byteLength a - 1) with (Z.ones (k - 0)).
  - rewrite band_ones_r by lia. now rewrite Z.div_1_r.
  - rewrite <- (mask_of_view 0) by lia. now rewrite Z.div_1_r.
Qed.

Lemma index16 offset :
  band (shr (shl (shr offset 1) 1) 1) (u16_length a - 1)
  = (u32 offset / 2 ^ 1) mod 2 ^ (k - 1).
Proof. exact (index_of_view 1 offset ltac:(lia)). Qed.

Lemma index32 offset :
  band (shr (shl (shr offset 2) 2) 2) (u32_length a - 1)
  = (u32 offset / 2 ^ 2) mod 2 ^ (k - 2).
Proof. exact (index_of_view 2 offset ltac:(lia)). Qed.

Lemma slice_wraps s offset n :
  0 <= s <= 2 ->
  (u32 (offset + n * 2 ^ k) / 2 ^ s) mod 2 ^ (k - s)
  = (u32 offset / 2 ^ s) mod 2 ^ (k - s).
Proof.
  intros Hs. apply Z.bits_inj'. intros m Hm.
  rewrite !testbit_slice by lia.
  destruct (Z.ltb_spec m (k - s)); [| reflexivity]. cbn [andb].
  rewrite !u32_testbit by lia.
  rewrite <- (Z.mod_pow2_bits_low (offset + n * 2 ^ k) k) by lia.
  rewrite Z.mod_add by (apply Z.pow_nonzero; lia).
  now rewrite Z.mod_pow2_bits_low by lia.
Qed.

End Region.

(** X10.  In a region whose buffer has a power-of-two length the offset
    wraps around: an access at [offset + n * length] is the access at
    [offset], for reads and writes of every width.  No offset is out of
    bounds. *)
Theorem region_offsets_wrap_around a k offset n value :
  2 <= k <= 31 ->
  byteLength a = 2 ^ k ->
  let offset' := offset + n * byteLength a in
  readU8 a offset' = readU8 a offset /\
  readU16 a offset' = readU16 a offset /\
  readU32 a offset' = readU32 a offset /\
  writeU8 a offset' value = writeU8 a offset value /\
  writeU16 a offset' value = writeU16 a offset value /\
  writeU32 a offset' value = writeU32 a offset value.
Proof.
  intros Hk Hlen. cbv zeta. rewrite Hlen.
  unfold readU8, readU16, readU32, writeU8, writeU16, writeU32.
  rewrite !(index8 a k Hk Hlen), !(index16 a k Hk Hlen),
    !(index32 a k Hk Hlen).
  rewrite !(slice_wraps k Hk) by lia.
  repeat split; reflexivity.
Qed.

Lemma region_offsets_wrap_around_witness :
  let a := mk ∅ 16 16 true in
  2 <= 4 <= 31 /\ byteLength a = 2 ^ 4 /\
  readU32 (writeU32 a 4 7) (4 + 3 * byteLength a) = readU32 (writeU32 a 4 7) 4.
Proof.
  cbv zeta. split; [lia |]. split; [reflexivity |].
  exact (proj1 (proj2 (proj2
    (region_offsets_wrap_around (writeU32 (mk ∅ 16 16 true) 4 7) 4 4 3 0
       ltac:(lia) eq_refl)))).
Defined.

End PowerOfTwo.

Section Views.

Import JS ArrayMemoryRegion.

Lemma split_index q j P s :
  0 < P -> 0 < s -> 0 <= j < s ->
  (s * q + j) mod (s * P) = s * (q mod P) + j.
Proof.
  intros HP Hs Hj. rewrite Z.rem_mul_r by lia.
  replace (s * q + j) with (j + q * s) by lia.
  rewrite Z.mod_add, Z.div_add by lia.
  rewrite (Z.mod_small j s), (Z.div_small j s) by lia.
  rewrite Z.add_0_l. lia.
Qed.

Lemma half_of_bytes v h :
  0 <= h <= 1 ->
  (v / 2 ^ (8 * (2 * h))) mod 256
  + 256 * ((v / 2 ^ (8 * (2 * h + 1))) mod 256)
  = halfOf v h.
Proof.
  intros Hh. unfold halfOf.
  replace (8 * (2 * h + 1)) with (16 * h + 8) by lia.
  replace (8 * (2 * h)) with (16 * h) by lia.
  rewrite Z.pow_add_r by lia. rewrite <- Z.div_div by (try apply Z.pow_pos_nonneg; lia).
  change (2 ^ 8) with 256. change (2 ^ 16) with (256 * 256).
  rewrite Z.rem_mul_r by lia. reflexivity.
Qed.

(** X11.  The three views of a region share one little-endian buffer:
    after a word has been written, a byte read inside that word returns
    the corresponding byte of the value, the least significant first, and a
    halfword read the corresponding half (for a buffer of power-of-two
    length, so that the views agree on where the word lies). *)
Theorem views_share_a_little_endian_buffer a k offset value j :
  2 <= k <= 31 ->
  byteLength a = 2 ^ k ->
  writable a = true ->
  0 <= j <= 3 ->
  let a' := writeU32 a offset value in
  let base := 4 * (u32 offset / 4) in
  fst (readU8 a' (base + j)) = byteOf (u32 value) j /\
  fst (readU16 a' (base + 2 * (j / 2))) = halfOf (u32 value) (j / 2).
Proof.
  intros Hk Hlen Hw Hj. cbv zeta.
  pose proof (u32_range offset) as Ho.
  assert (Hq : 0 <= u32 offset / 4 < 1073741824).
  { split; [apply Z.div_pos; lia | apply Z.div_lt_upper_bound; lia]. }
  assert (HP : 0 < 2 ^ (k - 2)) by (apply Z.pow_pos_nonneg; lia).
  assert (E4 : 2 ^ k = 4 * 2 ^ (k - 2)).
  { change 4 with (2 ^ 2). rewrite <- Z.pow_add_r by lia. f_equal. lia. }
  assert (E2 : 2 ^ (k - 1) = 2 * 2 ^ (k - 2)).
  { change 2 with (2 ^ 1) at 2. rewrite <- Z.pow_add_r by lia. f_equal. lia. }
  assert (Hh : 0 <= j / 2 <= 1).
  { split; [apply Z.div_pos; lia |].
    assert (j / 2 < 2) by (apply Z.div_lt_upper_bound; lia). lia. }
  unfold writeU32. rewrite Hw. cbn [negb].
  rewrite (index32 a k Hk Hlen). change (2 ^ 2) with 4.
  set (q := u32 offset / 4) in *. set (w := q mod 2 ^ (k - 2)).
  set (a' := set_word a w (u32 value)).
  assert (Hlen' : byteLength a' = 2 ^ k) by exact Hlen.
  split.
  - unfold readU8. cbn [fst]. rewrite (index8 a' k Hk Hlen').
    rewrite Z.div_1_r, Z.sub_0_r. rewrite (u32_small (4 * q + j)) by lia.
    rewrite E4, split_index by lia. fold w.
    unfold a'. rewrite byte_set_word.
    destruct (Z.leb_spec (4 * w) (4 * w + j)); [| lia].
    destruct (Z.ltb_spec (4 * w + j) (4 * w + 4)); [| lia].
    cbn [andb]. unfold byteOf. do 3 f_equal. lia.
  - unfold readU16. cbn [fst]. rewrite (index16 a' k Hk Hlen').
    rewrite (u32_small (4 * q + 2 * (j / 2))) by lia.
    change (2 ^ 1) with 2.
    replace (4 * q + 2 * (j / 2)) with ((2 * q + j / 2) * 2) by lia.
    rewrite Z.div_mul by lia. rewrite E2, split_index by lia. fold w.
    unfold half, a'. rewrite !byte_set_word.
    repeat match goal with
           | |- context [Z.leb ?x ?y] => destruct (Z.leb_spec x y); try lia
           | |- context [Z.ltb ?x ?y] => destruct (Z.ltb_spec x y); try lia
           end.
    cbn [andb]. rewrite <- half_of_bytes by lia. f_equal.
    + do 3 f_equal. lia.
    + do 4 f_equal. lia.
Qed.

Lemma views_share_a_little_endian_buffer_witness :
  let a := mk ∅ 16 16 true in
  2 <= 4 <= 31 /\ byteLength a = 2 ^ 4 /\ writable a = true /\ 0 <= 1 <= 3 /\
  fst (readU8 (writeU32 a 8 4660) (4 * (u32 8 / 4) + 1)) = byteOf (u32 4660) 1.
Proof.
  cbv zeta. split; [lia |]. split; [reflexivity |]. split; [reflexivity |].
  split; [lia |].
  exact (proj1 (views_share_a_little_endian_buffer (mk ∅ 16 16 true) 4 8 4660 1
                  ltac:(lia) eq_refl eq_refl ltac:(lia))).
Defined.

End Views.

Section Blocks.

Import JS ArrayMemoryRegion.

Lemma band_bnot_3 x : 0 <= x < 2147483648 -> band x (bnot 3) = 4 * (x / 4).
Proof.
  intros Hx. unfold band, bnot. rewrite (i32_small x) by lia.
  change (i32 3) with (Z.ones 2).
  rewrite (i32_small (Z.lnot (Z.ones 2)))
    by (change (Z.lnot (Z.ones 2)) with (-4); lia).
  change (Z.land x (Z.lnot (Z.ones 2))) with (Z.ldiff x (Z.ones 2)).
  rewrite Z.ldiff_ones_r by lia.
  rewrite Z.shiftl_mul_pow2, Z.shiftr_div_pow2 by lia.
  change (2 ^ 2) with 4. lia.
Qed.

(** The constructor keeps the size it is given and rounds the buffer
    up to the next multiple of four bytes; the new region is writable and
    reads as zero; a size that is not positive is refused (the
    [TypeError]). *)
Theorem constructor_rounds_up_to_words sizeBytes :
  (sizeBytes <= 0 -> create sizeBytes = None) /\
  (0 < sizeBytes <= 2147483644 ->
   exists a,
     create sizeBytes = Some a /\
     size a = sizeBytes /\
     sizeBytes <= byteLength a < sizeBytes + 4 /\
     byteLength a mod 4 = 0 /\
     writable a = true /\
     forall i, byte a i = 0).
Proof.
  split.
  - intros Hs. unfold create. destruct (Z.leb_spec sizeBytes 0); [reflexivity | lia].
  - intros Hs. unfold create. destruct (Z.leb_spec sizeBytes 0); [lia |].
    eexists. split; [reflexivity |]. cbn [size byteLength writable].
    rewrite band_bnot_3 by lia.
    pose proof (Z.div_mod (sizeBytes + 3) 4 ltac:(lia)).
    pose proof (Z.mod_pos_bound (sizeBytes + 3) 4 ltac:(lia)).
    split; [reflexivity |]. split; [lia |].
    split; [now rewrite Z.mul_comm, Z.mod_mul by lia |].
    split; [reflexivity |]. intros i. unfold byte. cbn [u8].
    now rewrite lookup_empty.
Qed.

Lemma constructor_rounds_up_to_words_witness :
  0 < 6 <= 2147483644 /\
  exists a,
    create 6 = Some a /\ size a = 6 /\ 6 <= byteLength a < 6 + 4 /\
    byteLength a mod 4 = 0 /\ writable a = true /\ forall i, byte a i = 0.
Proof.
  split; [lia |].
  exact (proj2 (constructor_rounds_up_to_words 6) ltac:(lia)).
Defined.

Lemma relativeIndex_in len i : 0 <= i <= len -> relativeIndex len i = i.
Proof.
  intros Hi. unfold relativeIndex.
  destruct (Z.ltb_spec i 0); lia.
Qed.

(** X12.  [load] copies the bytes into the buffer at the offset, whether
    or not the region is writable, and [extract] gives them back; the bytes
    outside the range are as before.  Data that does not fit is refused
    (the [RangeError] of the typed array) and nothing is written. *)
Theorem load_then_extract a data offset :
  (offset < 0 \/ byteLength a < offset + Z.of_nat (length data) ->
   load a data offset = None) /\
  (0 <= offset /\ offset + Z.of_nat (length data) <= byteLength a ->
   exists a',
     load a data offset = Some a' /\
     extract a' offset (Z.of_nat (length data))
     = (fun b => b mod 256) <$> data /\
     (forall i, i < offset \/ offset + Z.of_nat (length data) <= i ->
                byte a' i = byte a i) /\
     byteLength a' = byteLength a /\
     writable a' = writable a).
Proof.
  split.
  - intros Hb. unfold load, u8_length.
    destruct (Z.ltb_spec offset 0), (Z.ltb_spec (byteLength a)
                                       (offset + Z.of_nat (length data)));
      try reflexivity; lia.
  - intros [Ho Hl]. unfold load, u8_length.
    destruct (Z.ltb_spec offset 0); [lia |].
    destruct (Z.ltb_spec (byteLength a) (offset + Z.of_nat (length data)));
      [lia |].
    cbn [orb]. eexists. split; [reflexivity |].
    split; [| split; [| split; reflexivity]].
    + unfold extract, u8_length. cbn [byteLength with_u8].
      rewrite !relativeIndex_in by lia.
      replace (offset + Z.of_nat (length data) - offset)
        with (Z.of_nat (length data)) by lia.
      apply list_eq. intros i.
      rewrite !list_lookup_fmap.
      destruct (data !! i) as [b |] eqn:Eb.
      * apply lookup_lt_Some in Eb as Hi.
        rewrite lookup_seqZ_lt by lia. cbn [fmap option_fmap option_map].
        unfold byte. cbn [u8 with_u8]. rewrite copy_lookup.
        destruct (Z.leb_spec offset (offset + Z.of_nat i)); [| lia].
        destruct (Z.ltb_spec (offset + Z.of_nat i)
                    (offset + Z.of_nat (length data))); [| lia].
        cbn [andb].
        replace (offset + Z.of_nat i - offset) with (Z.of_nat i) by lia.
        now rewrite Nat2Z.id, Eb.
      * apply lookup_ge_None in Eb as Hi.
        rewrite lookup_seqZ_ge by lia. reflexivity.
    + intros i Hi. unfold byte. cbn [u8 with_u8]. rewrite copy_lookup.
      destruct (Z.leb_spec offset i), (Z.ltb_spec i (offset + Z.of_nat (length data)));
        try reflexivity; lia.
Qed.

Lemma load_then_extract_witness :
  let a := mk ∅ 8 8 false in
  (0 <= 2 /\ 2 + Z.of_nat (length [17; 290]) <= byteLength a) /\
  exists a',
    load a [17; 290] 2 = Some a' /\
    extract a' 2 (Z.of_nat (length [17; 290]))
    = (fun b => b mod 256) <$> [17; 290] /\
    (forall i, i < 2 \/ 2 + Z.of_nat (length [17; 290]) <= i ->
               byte a' i = byte a i) /\
    byteLength a' = byteLength a /\
    writable a' = writable a.
Proof.
  cbv zeta.
  assert (H : 0 <= 2 /\ 2 + Z.of_nat (length [17; 290]) <= byteLength (mk ∅ 8 8 false))
    by (cbn; lia).
  split; [exact H |].
  exact (proj2 (load_then_extract (mk ∅ 8 8 false) [17; 290] 2) H).
Defined.

End Blocks.

Section Fill.

Import JS ArrayMemoryRegion.

Lemma fill_from_word n : forall a value k i,
  0 <= value < 4294967296 ->
  word (fill_from a value k n) i
  = if (k <=? i) && (i <? k + Z.of_nat n) then value else word a i.
Proof.
  induction n as [| n IH]; intros a value k i Hv.
  - cbn [fill_from]. destruct (Z.leb_spec k i), (Z.ltb_spec i (k + Z.of_nat 0));
      try reflexivity; lia.
  - cbn [fill_from]. rewrite IH by assumption.
    rewrite Nat2Z.inj_succ.
    destruct (Z.eq_dec i k) as [-> | Hne].
    + destruct (Z.leb_spec (k + 1) k); [lia |]. cbn [andb].
      destruct (Z.leb_spec k k); [| lia].
      destruct (Z.ltb_spec k (k + Z.succ (Z.of_nat n))); [| lia].
      cbn [andb]. now apply word_set_word.
    + rewrite word_set_word_ne by lia.
      destruct (Z.leb_spec (k + 1) i), (Z.leb_spec k i),
        (Z.ltb_spec i (k + 1 + Z.of_nat n)),
        (Z.ltb_spec i (k + Z.succ (Z.of_nat n)));
        try reflexivity; lia.
Qed.

Lemma fill_from_flags n : forall a value k,
  byteLength (fill_from a value k n) = byteLength a /\
  writable (fill_from a value k n) = writable a /\
  size (fill_from a value k n) = size a.
Proof.
  induction n as [| n IH]; intros a value k; cbn [fill_from].
  - repeat split.
  - destruct (IH (set_word a k value) value (k + 1)) as (-> & -> & ->).
    repeat split.
Qed.

Lemma u32_fill_word a value start final i :
  0 <= u32_length a ->
  word (u32_fill a value start final) i
  = if (Z.min start (u32_length a) <=? i)
       && (i <? Z.min final (u32_length a))
    then u32 value else word a i.
Proof.
  intros Hl. unfold u32_fill. rewrite fill_from_word by apply u32_range.
  set (first := Z.min start (u32_length a)).
  set (last := Z.min final (u32_length a)).
  destruct (Z.leb_spec first i), (Z.ltb_spec i (first + Z.of_nat (Z.to_nat (last - first)))),
    (Z.ltb_spec i last); try reflexivity; lia.
Qed.

(** X13.  [fill] stores the value in the words from [offset >>> 2] on,
    [size >>> 2] of them (all of the view when no size is given), and
    [clear] stores zero there; the range is cut at the end of the buffer,
    the other words keep their contents, and neither looks at the
    read-only mark. *)
Theorem fill_and_clear_work_on_whole_words a value size offset i :
  let len := u32_length a in
  let start := u32 offset / 4 in
  let count := u32 size / 4 in
  0 <= len ->
  word (fill a value (Some size) offset) i
  = (if (Z.min start len <=? i) && (i <? Z.min (start + count) len)
     then u32 value else word a i) /\
  word (fill a value None offset) i
  = (if (Z.min start len <=? i) && (i <? len)
     then u32 value else word a i) /\
  word (clear a offset size) i
  = (if (Z.min start len <=? i) && (i <? Z.min (start + count) len)
     then 0 else word a i) /\
  writable (clear a offset size) = writable a.
Proof.
  cbv zeta. intros Hl. unfold fill, clear.
  rewrite !u32_fill_word by assumption.
  rewrite !shr_word by lia. change (2 ^ 2) with 4.
  rewrite u32_idem.
  assert (Hs : 0 <= u32 offset / 4)
    by (apply Z.div_pos; [apply u32_range | lia]).
  repeat split.
  - replace (Z.min (u32 offset / 4 + u32_length a) (u32_length a))
      with (u32_length a) by lia.
    reflexivity.
  - unfold u32_fill. destruct (fill_from_flags
      (Z.to_nat (Z.min (u32 offset / 4 + u32 size / 4) (u32_length a)
                 - Z.min (u32 offset / 4) (u32_length a)))
      a (u32 0) (Z.min (u32 offset / 4) (u32_length a))) as (_ & Hw & _).
    exact Hw.
Qed.

Lemma fill_and_clear_work_on_whole_words_witness :
  let a := makeReadOnly (writeU32 (mk ∅ 8 6 true) 4 305419896) in
  0 <= u32_length a /\
  word (clear a 0 (size a)) 0 = 0 /\
  word (clear a 0 (size a)) 1 = word a 1.
Proof.
  cbv zeta.
  set (a := makeReadOnly (writeU32 (mk ∅ 8 6 true) 4 305419896)).
  assert (H : 0 <= u32_length a) by (vm_compute; discriminate).
  split; [exact H |].
  split.
  - exact (proj1 (proj2 (proj2
      (fill_and_clear_work_on_whole_words a 0 (size a) 0 0 H)))).
  - exact (proj1 (proj2 (proj2
      (fill_and_clear_work_on_whole_words a 0 (size a) 0 1 H)))).
Defined.

End Fill.

Section Find.

Import JS ArrayMemoryRegion.

Lemma matchesAt_spec pattern : forall a k,
  matchesAt a pattern k = true
  <-> forall j p, pattern !! j = Some p -> u8_at a (k + Z.of_nat j) = Some p.
Proof.
  induction pattern as [| q rest IH]; intros a k; cbn [matchesAt].
  - split; [intros _ j p Hj; discriminate | reflexivity].
  - destruct (bool_decide (u8_at a k = Some q)) eqn:E.
    + apply bool_decide_eq_true in E. rewrite IH. split.
      * intros Hr [| j] p Hj.
        -- cbn in Hj. injection Hj as <-. now rewrite Z.add_0_r.
        -- cbn in Hj. rewrite Nat2Z.inj_succ.
           replace (k + Z.succ (Z.of_nat j)) with (k + 1 + Z.of_nat j) by lia.
           now apply Hr.
      * intros Hr j p Hj.
        replace (k + 1 + Z.of_nat j) with (k + Z.of_nat (S j)) by lia.
        now apply Hr.
    + apply bool_decide_eq_false in E. split; [discriminate |].
      intros Hr. exfalso. apply E.
      specialize (Hr 0%nat q eq_refl). now rewrite Z.add_0_r in Hr.
Qed.

(** X14.  [findPattern] reports exactly the offsets [i] from
    [startOffset] on at which the pattern matches the buffer byte for byte
    and which lie strictly below [length - pattern.length]; so an
    occurrence that ends with the last byte of the buffer is not
    reported. *)
Theorem findPattern_reports_matches_short_of_the_end a pattern startOffset i :
  let bound := u8_length a - Z.of_nat (length pattern) in
  (In i (findPattern a pattern startOffset)
   <-> startOffset <= i < bound /\
       forall j p, pattern !! j = Some p ->
                   u8_at a (i + Z.of_nat j) = Some p) /\
  ~ In bound (findPattern a pattern startOffset).
Proof.
  cbv zeta. unfold findPattern.
  assert (Hin : forall x,
            In x (seqZ startOffset
                    (u8_length a - Z.of_nat (length pattern) - startOffset))
            <-> startOffset <= x < u8_length a - Z.of_nat (length pattern)).
  { intros x. rewrite <- list_elem_of_In, elem_of_seqZ. lia. }
  split.
  - rewrite filter_In, Hin, matchesAt_spec. reflexivity.
  - rewrite filter_In, Hin. lia.
Qed.

End Find.

(** ** The memory interface unit *)

Section MIUFacts.

Context {R : Type} `{MemoryRegion R}.

Import JS MIU.

Lemma getSegment_range address : 0 <= getSegment address < 256.
Proof.
  unfold getSegment. rewrite band_255. apply Z.mod_pos_bound. lia.
Qed.

Lemma getRegion_insert (m : MIU.t R) s r s' :
  length (segments m) = 256%nat -> 0 <= s < 256 -> 0 <= s' < 256 ->
  getRegion (mk (<[Z.to_nat s := r]> (segments m))) s'
  = if Z.eq_dec s s' then r else getRegion m s'.
Proof.
  intros Hl Hs Hs'. unfold getRegion. cbn [segments].
  destruct (Z.eq_dec s s') as [<- | Hne].
  - rewrite list_lookup_insert_eq by lia. reflexivity.
  - rewrite list_lookup_insert_ne by lia. reflexivity.
Qed.

Lemma length_insert_segments (m : MIU.t R) k r :
  length (segments m) = 256%nat ->
  length (segments (mk (<[k := r]> (segments m)))) = 256%nat.
Proof. intros Hl. cbn [segments]. now rewrite length_insert. Qed.

Lemma length_write (wr : R -> Z -> Z -> R) (m : MIU.t R) address value :
  length (segments m) = 256%nat ->
  length (segments (write wr m address value)) = 256%nat.
Proof.
  intros Hl. unfold write. destruct (getRegion m (getSegment address)).
  - now apply length_insert_segments.
  - exact Hl.
Qed.

Lemma getRegion_write (wr : R -> Z -> Z -> R) (m : MIU.t R) address value s :
  length (segments m) = 256%nat -> 0 <= s < 256 ->
  getRegion (write wr m address value) s
  = if Z.eq_dec (getSegment address) s
    then (fun r => wr r (getOffset address) value)
           <$> getRegion m (getSegment address)
    else getRegion m s.
Proof.
  intros Hl Hs. unfold write.
  destruct (getRegion m (getSegment address)) as [r |] eqn:E.
  - rewrite getRegion_insert by (auto using getSegment_range).
    destruct (Z.eq_dec (getSegment address) s); reflexivity.
  - destruct (Z.eq_dec (getSegment address) s) as [<- | Hne];
      [exact E | reflexivity].
Qed.

Lemma shr_24 x : shr x 24 = u32 x / 16777216.
Proof. rewrite shr_word by lia. reflexivity. Qed.

Lemma band_16777215 x : band x 16777215 = x mod 16777216.
Proof. exact (band_ones_r x 24 ltac:(lia)). Qed.

Lemma lor_mul_pow2 T O n :
  0 <= n -> 0 <= O < 2 ^ n -> Z.lor (T * 2 ^ n) O = T * 2 ^ n + O.
Proof.
  intros Hn HO.
  assert (Hhigh : forall k, n <= k -> Z.testbit O k = false).
  { intros k Hk. rewrite <- (Z.mod_small O (2 ^ n)) by lia.
    apply Z.mod_pow2_bits_high. lia. }
  rewrite <- Z.shiftl_mul_pow2 by lia.
  rewrite <- Z.lxor_lor, Z.add_nocarry_lxor; try reflexivity;
    apply Z.bits_inj'; intros k Hk; rewrite Z.land_spec, Z.bits_0;
    (destruct (Z.ltb_spec k n);
     [rewrite Z.shiftl_spec_low by lia; reflexivity
     | rewrite Hhigh by lia; apply andb_false_r]).
Qed.

Lemma makeAddress_signed segment offset :
  makeAddress segment offset
  = (if segment mod 256 <? 128 then 0 else -4294967296)
    + segment mod 256 * 16777216 + offset mod 16777216.
Proof.
  unfold makeAddress. rewrite band_255, band_16777215.
  change 16777216 with (2 ^ 24).
  pose proof (Z.mod_pos_bound segment 256 ltac:(lia)) as Hs.
  pose proof (Z.mod_pos_bound offset (2 ^ 24) ltac:(lia)) as Ho.
  set (S := segment mod 256) in *. set (O := offset mod 2 ^ 24) in *.
  assert (H24 : 2 ^ 24 = 16777216) by reflexivity.
  unfold bor, shl. rewrite (shcount_small 24) by lia.
  rewrite i32_idem, (i32_small S), (i32_small O) by lia.
  rewrite Z.shiftl_mul_pow2 by lia.
  destruct (Z.ltb_spec S 128).
  - rewrite (i32_small (S * 2 ^ 24)) by lia.
    rewrite lor_mul_pow2 by lia. cbv iota. lia.
  - replace (i32 (S * 2 ^ 24)) with ((S - 256) * 2 ^ 24).
    + rewrite lor_mul_pow2 by lia. cbv iota. lia.
    + rewrite i32_of_word by lia.
      destruct (Z.leb_spec 2147483648 (S * 2 ^ 24)); lia.
Qed.

Lemma makeAddress_word segment offset :
  u32 (makeAddress segment offset)
  = segment mod 256 * 16777216 + offset mod 16777216.
Proof.
  rewrite makeAddress_signed.
  pose proof (Z.mod_pos_bound segment 256 ltac:(lia)) as Hs.
  pose proof (Z.mod_pos_bound offset 16777216 ltac:(lia)) as Ho.
  unfold u32. destruct (segment mod 256 <? 128).
  - apply Z.mod_small. lia.
  - replace (-4294967296 + segment mod 256 * 16777216 + offset mod 16777216)
      with (segment mod 256 * 16777216 + offset mod 16777216
            + (-1) * 4294967296) by lia.
    rewrite Z.mod_add by lia. apply Z.mod_small. lia.
Qed.

Lemma getOffset_u32 address : getOffset address = u32 address mod 16777216.
Proof.
  unfold getOffset. rewrite band_16777215. unfold u32.
  change 4294967296 with (16777216 * 256).
  rewrite Z.rem_mul_r by lia.
  rewrite (Z.mul_comm 16777216), Z.mod_add by lia.
  now rewrite Z.mod_mod by lia.
Qed.

Lemma makeAddress_fields segment offset :
  getSegment (makeAddress segment offset) = segment mod 256 /\
  getOffset (makeAddress segment offset) = offset mod 16777216.
Proof.
  pose proof (makeAddress_word segment offset) as Hw.
  pose proof (Z.mod_pos_bound segment 256 ltac:(lia)) as Hs.
  pose proof (Z.mod_pos_bound offset 16777216 ltac:(lia)) as Ho.
  split.
  - unfold getSegment. rewrite shr_24, Hw, band_255.
    rewrite Z.div_add_l by lia. rewrite (Z.div_small (offset mod 16777216))
      by lia.
    rewrite Z.add_0_r. now apply Z.mod_small.
  - rewrite getOffset_u32, Hw.
    rewrite Z.add_comm, Z.mod_add by lia. now apply Z.mod_small.
Qed.

(** X15.  [makeAddress] and [getSegment]/[getOffset] are inverse on the
    two fields: an address made of a segment and an offset gives back the
    segment modulo 256 and the offset modulo 2^24.  The address itself is a
    signed 32-bit number, negative for the segments from 0x80 on. *)
Theorem makeAddress_getSegment_getOffset segment offset :
  getSegment (makeAddress segment offset) = segment mod 256 /\
  getOffset (makeAddress segment offset) = offset mod 16777216 /\
  makeAddress segment offset
  = (if segment mod 256 <? 128 then 0 else -4294967296)
    + segment mod 256 * 16777216 + offset mod 16777216.
Proof.
  destruct (makeAddress_fields segment offset) as (Hseg & Hoff).
  split; [exact Hseg |]. split; [exact Hoff |].
  apply makeAddress_signed.
Qed.





End MIUFacts.

Section MIUWitness.

Import JS MIU.

#[local] Existing Instance ArrayMemoryRegion.region.


End MIUWitness.

Section MIUBlocks.

Import JS MIU MIUSpec.

#[local] Existing Instance ArrayMemoryRegion.region.


Lemma holds_read (m : MIU.t ArrayMemoryRegion.t) address p :
  holds m address p -> fst (readU8 m address) = p.
Proof.
  intros (r & Hr & _ & Hp). cbn [readU8 region]. unfold read. rewrite Hr.
  cbn [readU8 ArrayMemoryRegion.region].
  unfold ArrayMemoryRegion.readU8 in *. exact Hp.
Qed.

Lemma writeU8_writable r offset p :
  ArrayMemoryRegion.writable (ArrayMemoryRegion.writeU8 r offset p)
  = ArrayMemoryRegion.writable r.
Proof.
  unfold ArrayMemoryRegion.writeU8.
  destruct (ArrayMemoryRegion.writable r) eqn:E; cbn; exact E.
Qed.

Lemma readU8_writeU8 r offset p offset' :
  ArrayMemoryRegion.writable r = true ->
  fst (ArrayMemoryRegion.readU8 (ArrayMemoryRegion.writeU8 r offset p) offset')
  = if Z.eq_dec (band (u32 offset) (ArrayMemoryRegion.u8_length r - 1))
                (band (u32 offset') (ArrayMemoryRegion.u8_length r - 1))
    then p mod 256
    else fst (ArrayMemoryRegion.readU8 r offset').
Proof.
  intros Hw. unfold ArrayMemoryRegion.readU8, ArrayMemoryRegion.writeU8.
  rewrite Hw. cbn [negb fst]. rewrite byte_set_byte, band_255.
  unfold ArrayMemoryRegion.u8_length.
  cbn [ArrayMemoryRegion.byteLength ArrayMemoryRegion.set_byte
       ArrayMemoryRegion.with_u8].
  destruct (Z.eq_dec _ _); [apply Z.mod_mod; lia | reflexivity].
Qed.

Lemma write_mapped (m : MIU.t ArrayMemoryRegion.t) address address' p :
  length (segments m) = 256%nat ->
  mapped m address -> mapped (write writeU8 m address' p) address.
Proof.
  intros Hl (r & Hr & Hw). unfold mapped.
  rewrite getRegion_write by (auto using getSegment_range).
  destruct (Z.eq_dec (getSegment address') (getSegment address)) as [E | _].
  - rewrite E, Hr. cbn [fmap option_fmap option_map]. eexists. split; [reflexivity |].
    cbn [writeU8 ArrayMemoryRegion.region]. now rewrite writeU8_writable.
  - eauto.
Qed.

Lemma write_holds (m : MIU.t ArrayMemoryRegion.t) address p :
  length (segments m) = 256%nat ->
  mapped m address -> holds (write writeU8 m address p) address (p mod 256).
Proof.
  intros Hl (r & Hr & Hw). unfold holds.
  rewrite getRegion_write by (auto using getSegment_range).
  destruct (Z.eq_dec _ _); [| contradiction].
  rewrite Hr. cbn [fmap option_fmap option_map]. eexists. split; [reflexivity |].
  cbn [writeU8 ArrayMemoryRegion.region].
  rewrite writeU8_writable, readU8_writeU8 by assumption.
  destruct (Z.eq_dec _ _); [auto | contradiction].
Qed.

Lemma write_keeps (m : MIU.t ArrayMemoryRegion.t) address address' p :
  length (segments m) = 256%nat ->
  holds m address (p mod 256) ->
  holds (write writeU8 m address' p) address (p mod 256).
Proof.
  intros Hl (r & Hr & Hw & Hp). unfold holds.
  rewrite getRegion_write by (auto using getSegment_range).
  destruct (Z.eq_dec (getSegment address') (getSegment address)) as [E | _].
  - rewrite E, Hr. cbn [fmap option_fmap option_map]. eexists. split; [reflexivity |].
    cbn [writeU8 ArrayMemoryRegion.region].
    rewrite writeU8_writable, readU8_writeU8 by assumption.
    destruct (Z.eq_dec _ _); auto.
  - eauto.
Qed.

Lemma memset_from_length n : forall (m : MIU.t ArrayMemoryRegion.t) address p i,
  length (segments m) = 256%nat ->
  length (segments (memset_from m address p i n)) = 256%nat.
Proof.
  induction n as [| n IH]; intros m address p i Hl; cbn [memset_from].
  - exact Hl.
  - apply IH. now apply length_write.
Qed.

Lemma memset_from_keeps n : forall (m : MIU.t ArrayMemoryRegion.t) address p i a,
  length (segments m) = 256%nat ->
  holds m a (p mod 256) ->
  holds (memset_from m address p i n) a (p mod 256).
Proof.
  induction n as [| n IH]; intros m address p i a Hl Hh; cbn [memset_from].
  - exact Hh.
  - apply IH; [now apply length_write | now apply write_keeps].
Qed.

Lemma memset_from_sets n : forall (m : MIU.t ArrayMemoryRegion.t) address p i0 i,
  length (segments m) = 256%nat ->
  i0 <= i < i0 + Z.of_nat n ->
  mapped m (address + i) ->
  holds (memset_from m address p i0 n) (address + i) (p mod 256).
Proof.
  induction n as [| n IH]; intros m address p i0 i Hl Hi Hm;
    cbn [memset_from]; [lia |].
  destruct (Z.eq_dec i i0) as [-> | Hne].
  - apply memset_from_keeps; [now apply length_write |].
    now apply write_holds.
  - apply IH; [now apply length_write | lia | now apply write_mapped].
Qed.

(** X17.  [memset] stores the low eight bits of the pattern in every byte
    of the range whose slot holds a writable region: after
    [memset(address, pattern, size)] a byte read at [address + i], for
    [0 <= i < size], gives [pattern & 0xFF]. *)
Theorem memset_then_read (m : MIU.t ArrayMemoryRegion.t) address pattern size i r :
  length (segments m) = 256%nat ->
  0 <= i < size ->
  getRegion m (getSegment (address + i)) = Some r ->
  ArrayMemoryRegion.writable r = true ->
  fst (readU8 (memset m address pattern size) (address + i))
  = pattern mod 256.
Proof.
  intros Hl Hi Hr Hw. apply holds_read. unfold memset.
  rewrite band_255.
  rewrite <- (Z.mod_mod pattern 256) at 2 by lia.
  apply memset_from_sets; [assumption | lia | now exists r].
Qed.

Lemma memset_then_read_witness :
  let r := ArrayMemoryRegion.mk ∅ 8 8 true in
  let m := MIU.mk (<[160%nat := Some r]> (segments MIU.create)) in
  length (segments m) = 256%nat /\ 0 <= 2 < 3 /\
  getRegion m (getSegment (2684354560 + 2)) = Some r /\
  fst (readU8 (memset m 2684354560 511 3) (2684354560 + 2)) = 511 mod 256.
Proof.
  cbv zeta.
  set (r := ArrayMemoryRegion.mk ∅ 8 8 true).
  set (m := MIU.mk (<[160%nat := Some r]> (segments MIU.create))).
  assert (Hl : length (segments m) = 256%nat) by reflexivity.
  assert (Hr : getRegion m (getSegment (2684354560 + 2)) = Some r)
    by reflexivity.
  split; [exact Hl |]. split; [lia |]. split; [exact Hr |].
  exact (memset_then_read m 2684354560 511 3 2 r Hl ltac:(lia) Hr eq_refl).
Defined.

End MIUBlocks.

(** ** The interrupt controller: lines and statistics *)

Section INTCLines.

Import JS INTC.

Lemma shr_bit x n :
  0 <= n < 32 -> (band (shr x n) 1 =? 1) = Z.testbit x n.
Proof.
  intros Hn. change 1 with (Z.ones 1) at 1.
  rewrite band_ones_r by lia. rewrite shr_word by lia.
  change (2 ^ 1) with 2. rewrite <- testbit_div by lia.
  now apply u32_testbit.
Qed.


Lemma testbit_clear_line x n m :
  0 <= n < 32 -> 0 <= m < 32 ->
  Z.testbit (band x (bnot (shl 1 n))) m = Z.testbit x m && negb (n =? m).
Proof.
  intros Hn Hm. rewrite testbit_band_bnot by lia.
  now rewrite testbit_shl_1 by lia.
Qed.



(** [enableIRQ(n)] and [disableIRQ(n)] switch line [n] of the mask
    and no other line, and they touch neither the pending lines nor the
    statistics; for a number outside 0..31 they change nothing, and
    [isIRQEnabled] answers false for such a number. *)
Theorem enable_and_disable_switch_one_line (i : INTC.t) (n m : Z) :
  isIRQEnabled (enableIRQ i n) m
  = isIRQEnabled i m || ((n =? m) && ((0 <=? n) && (n <? 32))) /\
  isIRQEnabled (disableIRQ i n) m = isIRQEnabled i m && negb (n =? m) /\
  INT_STATUS (enableIRQ i n) = INT_STATUS i /\
  INT_STATUS (disableIRQ i n) = INT_STATUS i /\
  triggered (enableIRQ i n) = triggered i /\
  triggered (disableIRQ i n) = triggered i.
Proof.
  unfold isIRQEnabled, enableIRQ, disableIRQ.
  destruct ((0 <=? n) && (n <? 32)) eqn:En;
    destruct ((0 <=? m) && (m <? 32)) eqn:Em;
    cbn [INT_STATUS INT_MASK with_MASK triggered];
    rewrite ?andb_true_r, ?andb_false_r, ?orb_false_r;
    repeat split; try reflexivity.
  - apply andb_true_iff in En as [?%Z.leb_le ?%Z.ltb_lt].
    apply andb_true_iff in Em as [?%Z.leb_le ?%Z.ltb_lt].
    rewrite !shr_bit by lia. now apply testbit_bor_shl_1.
  - apply andb_true_iff in En as [?%Z.leb_le ?%Z.ltb_lt].
    apply andb_true_iff in Em as [?%Z.leb_le ?%Z.ltb_lt].
    rewrite !shr_bit by lia. now apply testbit_clear_line.
  - destruct (Z.eqb_spec n m) as [-> |]; [congruence | reflexivity].
  - destruct (Z.eqb_spec n m) as [-> |]; [congruence |].
    now rewrite andb_true_r.
Qed.

Lemma requests_step (st : INTC.t * option CPU.t) n :
  let st' := trigger (fst st) (snd st) n in
  triggered (fst st')
  = triggered (fst st) + of_bool ((0 <=? n) && (n <=? 31)) /\
  processed (fst st') + blocked (fst st')
  = processed (fst st) + blocked (fst st)
    + of_bool ((0 <=? n) && (n <=? 31)) /\
  (snd st = None ->
     snd st' = None /\ processed (fst st') = processed (fst st)).
Proof.
  destruct st as [i cpu]. cbv zeta. cbn [fst snd]. unfold trigger.
  destruct (Z.ltb_spec n 0), (Z.ltb_spec 31 n), (Z.leb_spec 0 n),
    (Z.leb_spec n 31); try lia; cbn [orb andb of_bool fst snd].
  - repeat split; auto; lia.
  - repeat split; auto; lia.
  - destruct cpu as [c |]; [destruct (negb _) |]; cbn; repeat split;
      try lia; try discriminate.
Qed.

Lemma requests_fold (irqs : list Z) : forall st : INTC.t * option CPU.t,
  let st' := fold_left (fun st n => trigger (fst st) (snd st) n) irqs st in
  let accepted :=
    Z.of_nat (length (List.filter (fun n => (0 <=? n) && (n <=? 31)) irqs)) in
  triggered (fst st') = triggered (fst st) + accepted /\
  processed (fst st') + blocked (fst st')
  = processed (fst st) + blocked (fst st) + accepted /\
  (snd st = None ->
     snd st' = None /\ processed (fst st') = processed (fst st)).
Proof.
  induction irqs as [| n irqs IH]; intros st; cbv zeta.
  - cbn. repeat split; try lia; auto.
  - cbn [fold_left List.filter].
    destruct (IH (trigger (fst st) (snd st) n)) as (Ht & Hp & Hn).
    destruct (requests_step st n) as (St & Sp & Sn). cbv zeta in *.
    rewrite Ht, Hp, St, Sp.
    split; [| split].
    + destruct ((0 <=? n) && (n <=? 31)); cbn [of_bool length];
        rewrite ?Nat2Z.inj_succ; lia.
    + destruct ((0 <=? n) && (n <=? 31)); cbn [of_bool length];
        rewrite ?Nat2Z.inj_succ; lia.
    + intros E. destruct (Sn E) as (E1 & E2).
      destruct (Hn E1) as (E3 & E4). split; congruence.
Qed.

(** X20.  Every accepted request is counted once, as processed or as
    blocked: after any sequence of [trigger] calls the three counters have
    grown by the number of requests with a line in 0..31, and
    [triggered = processed + blocked] is kept.  Without a CPU nothing is
    processed. *)
Theorem every_request_is_processed_or_blocked (irqs : list Z) (i : INTC.t)
    (cpu : option CPU.t) :
  let st := fold_left (fun st n => trigger (fst st) (snd st) n) irqs
                      (i, cpu) in
  let accepted :=
    Z.of_nat (length (List.filter (fun n => (0 <=? n) && (n <=? 31)) irqs)) in
  triggered (fst st) = triggered i + accepted /\
  processed (fst st) + blocked (fst st)
  = processed i + blocked i + accepted /\
  (triggered i = processed i + blocked i ->
     triggered (fst st) = processed (fst st) + blocked (fst st)) /\
  (cpu = None -> snd st = None /\ processed (fst st) = processed i).
Proof.
  cbv zeta. destruct (requests_fold irqs (i, cpu)) as (Ht & Hp & Hn).
  cbv zeta in *. cbn [fst snd] in *.
  split; [exact Ht |]. split; [exact Hp |]. split; [lia | exact Hn].
Qed.

End INTCLines.

(** ** The UART: transmission and the receive queue *)

Section UARTQueues.

Import JS UART UARTSpec.

Lemma tx_empty_cleared s n :
  0 <= n < 32 ->
  Z.testbit (band s (bnot STATUS_TX_EMPTY)) n
  = Z.testbit s n && negb (n =? 7).
Proof.
  intros. rewrite testbit_band_bnot by lia. f_equal. f_equal.
  change STATUS_TX_EMPTY with (2 ^ 7). rewrite Z.pow2_bits_eqb by lia.
  apply Z.eqb_sym.
Qed.

Lemma tx_empty_set s : Z.testbit (bor s STATUS_TX_EMPTY) 7 = true.
Proof. rewrite testbit_bor by lia. apply orb_true_r. Qed.

(** One word written to the data register. *)
Lemma write_data (u : UART.t) v :
  let w := writeU32 u 0 v in
  txData w = txData u ++ [v mod 256] /\
  bytesTransmitted w = bytesTransmitted u + 1 /\
  pendingTimeouts w = S (pendingTimeouts u) /\
  buffer w
  = (if (v mod 256 =? 10) || (255 <=? Z.of_nat (length (buffer u)))
     then [] else buffer u ++ [v mod 256]) /\
  framesTransmitted w
  = framesTransmitted u
    + of_bool ((v mod 256 =? 10) || (255 <=? Z.of_nat (length (buffer u)))) /\
  STATUS w = band (STATUS u) (bnot STATUS_TX_EMPTY) /\
  rxQueue w = rxQueue u /\ RX_BUF w = RX_BUF u.
Proof.
  cbv zeta. unfold writeU32. change (band 0 65535) with 0. cbv iota.
  unfold processTX. rewrite band_255.
  cbn [buffer with_buffer with_bytesTransmitted bytesTransmitted].
  rewrite length_app. cbn [length].
  replace (255 <? Z.of_nat (length (buffer u) + 1))
    with (255 <=? Z.of_nat (length (buffer u)))
    by (destruct (Z.leb_spec 255 (Z.of_nat (length (buffer u)))),
          (Z.ltb_spec 255 (Z.of_nat (length (buffer u) + 1)));
        first [reflexivity | lia]).
  destruct ((v mod 256 =? 10) || (255 <=? Z.of_nat (length (buffer u)))).
  - unfold flushToConsole. cbn [buffer with_buffer with_bytesTransmitted].
    destruct (buffer u ++ [v mod 256]) eqn:E.
    + now apply app_eq_nil in E as [_ ?].
    + cbn. repeat split; lia.
  - cbn. repeat split; lia.
Qed.

Lemma transmit_app u values v :
  transmit u (values ++ [v]) = writeU32 (transmit u values) 0 v.
Proof. unfold transmit. now rewrite fold_left_app. Qed.

(** X21.  Every word written to the data register hands its low byte to
    the transmit listener, in order, and counts one transmitted byte.  The
    console buffer never grows beyond 255 characters and is empty after a
    line feed.  The write clears TX-empty, and the pending timer callback
    sets it again. *)
Theorem transmit_passes_every_byte_on (u : UART.t) (values : list Z) :
  (length (buffer u) <= 255)%nat ->
  let u' := transmit u values in
  txData u' = txData u ++ ((fun v => v mod 256) <$> values) /\
  bytesTransmitted u' = bytesTransmitted u + Z.of_nat (length values) /\
  (length (buffer u') <= 255)%nat /\
  (forall v, last values = Some v -> v mod 256 = 10 -> buffer u' = []) /\
  (values <> [] ->
     Z.testbit (STATUS u') 7 = false /\
     Z.testbit (STATUS (txTimeout u')) 7 = true).
Proof.
  intros Hb. cbv zeta.
  induction values as [| v values IH] using rev_ind.
  - cbn. rewrite app_nil_r.
    split; [reflexivity |]. split; [lia |]. split; [exact Hb |].
    split; [intros v Hv; discriminate Hv | intros Hne; now destruct Hne].
  - destruct IH as (Ht & Hn & Hl & _ & _).
    rewrite transmit_app.
    destruct (write_data (transmit u values) v)
      as (Wt & Wn & Wp & Wb & _ & Ws & _).
    cbv zeta in *. rewrite Wt, Wn, Ht, Hn, Wb.
    rewrite fmap_app, length_app, app_assoc. cbn [fmap list_fmap length].
    split; [reflexivity |]. split; [lia |]. split; [| split].
    + destruct (Z.eqb_spec (v mod 256) 10); cbn [orb]; [cbn; lia |].
      destruct (Z.leb_spec 255 (Z.of_nat (length (buffer (transmit u values)))));
        [cbn; lia |].
      rewrite length_app. cbn [length]. lia.
    + intros v' Hv' E. rewrite last_snoc in Hv'. injection Hv' as <-.
      rewrite E. reflexivity.
    + intros _. split.
      * rewrite Ws, tx_empty_cleared by lia. apply andb_false_r.
      * unfold txTimeout. rewrite Wp.
        cbn [STATUS with_STATUS with_pendingTimeouts]. apply tx_empty_set.
Qed.

Lemma transmit_passes_every_byte_on_witness :
  (length (buffer create) <= 255)%nat /\
  txData (transmit create [72; 105; 266])
  = txData create ++ ((fun v => v mod 256) <$> [72; 105; 266]) /\
  buffer (transmit create [72; 105; 266]) = [].
Proof.
  assert (H : (length (buffer create) <= 255)%nat) by (cbn; lia).
  split; [exact H |].
  destruct (transmit_passes_every_byte_on create [72; 105; 266] H)
    as (Ht & _ & _ & Hb & _).
  split; [exact Ht |]. exact (Hb 266 eq_refl eq_refl).
Defined.

Lemma receiveString_app u str b :
  receiveString u (str ++ [b]) = receiveData (receiveString u str) b.
Proof. unfold receiveString. now rewrite fold_left_app. Qed.

Lemma receiveString_queue str : forall u,
  let u' := receiveString u str in
  rxQueue u' = rxQueue u ++ ((fun b => b mod 256) <$> str) /\
  rxData u' = rxData u ++ str /\
  bytesReceived u' = bytesReceived u + Z.of_nat (length str) /\
  (forall b, last str = Some b ->
     RX_BUF u' = b mod 256 /\ Z.testbit (STATUS u') 6 = true).
Proof.
  induction str as [| b str IH] using rev_ind; intros u; cbv zeta.
  - cbn. rewrite !app_nil_r.
    split; [reflexivity |]. split; [reflexivity |]. split; [lia |].
    intros b Hb. discriminate Hb.
  - destruct (IH u) as (Hq & Hd & Hn & _). cbv zeta in *.
    rewrite receiveString_app. unfold receiveData.
    cbn [rxQueue with_rxQueue with_bytesReceived with_STATUS with_RX_BUF
         with_rxData RX_BUF STATUS rxData bytesReceived].
    rewrite Hq, Hd, Hn, band_255, fmap_app, length_app, !app_assoc.
    cbn [fmap list_fmap length].
    split; [reflexivity |]. split; [reflexivity |]. split; [lia |].
    intros b' Hb'. rewrite last_snoc in Hb'. injection Hb' as <-.
    split; [reflexivity |]. rewrite testbit_bor by lia. apply orb_true_r.
Qed.

Lemma drain_queue q : forall (u : UART.t) rest,
  rxQueue u = q ++ rest ->
  drain (length q) u = (q, with_rxQueue u rest).
Proof.
  induction q as [| b q IH]; intros u rest Hq; cbn [drain length].
  - cbn in Hq. subst rest. now destruct u.
  - unfold getNextRXByte. rewrite Hq. cbn [app].
    rewrite (IH (with_rxQueue u (q ++ rest)) rest eq_refl).
    reflexivity.
Qed.

(** X22.  The receive queue is first in, first out: the bytes handed to
    [receiveString] come back from successive calls of [getNextRXByte] in
    the order received, each reduced to eight bits.  Draining does not
    touch the registers: the RX data register still holds the byte received
    last and RX-ready stays set, until a call on the empty queue returns 0
    and clears it. *)
Theorem received_bytes_are_drained_in_order (u : UART.t) (str : list Z) :
  rxQueue u = [] ->
  let u' := receiveString u str in
  let d := drain (length str) u' in
  fst d = (fun b => b mod 256) <$> str /\
  rxQueue (snd d) = [] /\
  RX_BUF (snd d) = RX_BUF u' /\
  STATUS (snd d) = STATUS u' /\
  (forall b, last str = Some b ->
     RX_BUF (snd d) = b mod 256 /\ Z.testbit (STATUS (snd d)) 6 = true) /\
  fst (getNextRXByte (snd d)) = 0 /\
  Z.testbit (STATUS (snd (getNextRXByte (snd d)))) 6 = false.
Proof.
  intros Hq. cbv zeta.
  destruct (receiveString_queue str u) as (Hr & _ & _ & Hl). cbv zeta in *.
  rewrite Hq in Hr. cbn [app] in Hr.
  assert (Hd : drain (length str) (receiveString u str)
               = ((fun b => b mod 256) <$> str,
                  with_rxQueue (receiveString u str) [])).
  { rewrite <- (length_fmap (fun b => b mod 256) str).
    apply drain_queue. now rewrite app_nil_r. }
  rewrite Hd. cbn [fst snd rxQueue with_rxQueue RX_BUF STATUS].
  split; [reflexivity |]. split; [reflexivity |]. split; [reflexivity |].
  split; [reflexivity |]. split; [exact Hl |]. split; [reflexivity |].
  unfold getNextRXByte. cbn [rxQueue with_rxQueue snd STATUS with_STATUS].
  rewrite rx_ready_cleared by lia. apply andb_false_r.
Qed.

Lemma received_bytes_are_drained_in_order_witness :
  rxQueue create = [] /\
  fst (drain (length [72; 361]) (receiveString create [72; 361]))
  = (fun b => b mod 256) <$> [72; 361].
Proof.
  split; [reflexivity |].
  exact (proj1 (received_bytes_are_drained_in_order create [72; 361]
                  eq_refl)).
Defined.

End UARTQueues.

(** ** The control register of a timer channel *)

Section TimerControl.

Import JS Timer.

Lemma of_bool_testbit x k :
  0 <= k -> of_bool (Z.testbit x k) = (x / 2 ^ k) mod 2.
Proof.
  intros Hk. rewrite testbit_div by lia.
  pose proof (Z.mod_pos_bound (x / 2 ^ k) 2 ltac:(lia)).
  destruct (Z.eqb_spec ((x / 2 ^ k) mod 2) 1); unfold of_bool; lia.
Qed.

Lemma bor_field K c :
  0 <= K < 32 -> bor K (shl (band c 7) 5) = K + 32 * (c mod 8).
Proof.
  intros HK. change 7 with (Z.ones 3). rewrite band_ones_r by lia.
  change (2 ^ 3) with 8.
  pose proof (Z.mod_pos_bound c 8 ltac:(lia)) as Hc.
  unfold bor, shl. rewrite (shcount_small 5) by lia.
  rewrite i32_idem, (i32_small K), (i32_small (c mod 8)) by lia.
  rewrite Z.shiftl_mul_pow2 by lia.
  rewrite (i32_small (c mod 8 * 2 ^ 5)) by lia.
  rewrite Z.lor_comm, lor_mul_pow2 by lia. lia.
Qed.

Lemma readCtrl_value x :
  readCtrl x
  = of_bool (enabled x) + 2 * of_bool (countDown x) + 4 * of_bool (repeat x)
    + 8 * of_bool (irqEnabled x) + 16 * of_bool (extClock x)
    + 32 * (clockScale x mod 8).
Proof.
  unfold readCtrl. cbv zeta.
  pose proof (Z.mod_pos_bound (clockScale x) 8 ltac:(lia)) as Hc.
  destruct (enabled x), (countDown x), (repeat x), (irqEnabled x),
    (extClock x); cbn [of_bool];
    match goal with
    | |- u32 (bor ?K _) = _ =>
        let K' := eval vm_compute in K in
        change K with K'; rewrite (bor_field K') by lia
    end; rewrite u32_small by lia; lia.
Qed.

Lemma low_byte_fields v :
  v mod 256
  = v mod 2 + 2 * ((v / 2) mod 2) + 4 * ((v / 4) mod 2)
    + 8 * ((v / 8) mod 2) + 16 * ((v / 16) mod 2) + 32 * ((v / 32) mod 8).
Proof.
  pose proof (Z.div_mod v 2 ltac:(lia)).
  pose proof (Z.div_mod (v / 2) 2 ltac:(lia)).
  pose proof (Z.div_mod (v / 4) 2 ltac:(lia)).
  pose proof (Z.div_mod (v / 8) 2 ltac:(lia)).
  pose proof (Z.div_mod (v / 16) 2 ltac:(lia)).
  pose proof (Z.div_mod (v / 32) 8 ltac:(lia)).
  pose proof (Z.div_mod v 256 ltac:(lia)).
  pose proof (Z.mod_pos_bound v 2 ltac:(lia)).
  pose proof (Z.mod_pos_bound (v / 2) 2 ltac:(lia)).
  pose proof (Z.mod_pos_bound (v / 4) 2 ltac:(lia)).
  pose proof (Z.mod_pos_bound (v / 8) 2 ltac:(lia)).
  pose proof (Z.mod_pos_bound (v / 16) 2 ltac:(lia)).
  pose proof (Z.mod_pos_bound (v / 32) 8 ltac:(lia)).
  pose proof (Z.mod_pos_bound v 256 ltac:(lia)).
  pose proof (Z.div_div v 2 2 ltac:(lia) ltac:(lia)) as E1.
  pose proof (Z.div_div v 4 2 ltac:(lia) ltac:(lia)) as E2.
  pose proof (Z.div_div v 8 2 ltac:(lia) ltac:(lia)) as E3.
  pose proof (Z.div_div v 16 2 ltac:(lia) ltac:(lia)) as E4.
  pose proof (Z.div_div v 32 8 ltac:(lia) ltac:(lia)) as E5.
  change (2 * 2) with 4 in E1. change (4 * 2) with 8 in E2.
  change (8 * 2) with 16 in E3. change (16 * 2) with 32 in E4.
  change (32 * 8) with 256 in E5.
  lia.
Qed.

Lemma u32_div_mod v d m :
  0 < d -> 0 < m -> (d * m | 4294967296) ->
  (u32 v / d) mod m = (v / d) mod m.
Proof.
  intros Hd Hm [q Hq]. unfold u32. rewrite (Z.mod_eq v 4294967296) by lia.
  generalize (v / 4294967296). intros k. rewrite Hq.
  replace (v - q * (d * m) * k) with (v + (- k * q * m) * d) by ring.
  rewrite Z.div_add by lia.
  replace (- k * q * m) with ((- k * q) * m) by ring.
  now rewrite Z.mod_add by lia.
Qed.

Lemma writeCtrl_flags x v :
  let y := writeCtrl x v in
  of_bool (enabled y) = v mod 2 /\
  of_bool (countDown y) = (v / 2) mod 2 /\
  of_bool (repeat y) = (v / 4) mod 2 /\
  of_bool (irqEnabled y) = (v / 8) mod 2 /\
  of_bool (extClock y) = (v / 16) mod 2 /\
  clockScale y = (v / 32) mod 8.
Proof.
  cbv zeta. unfold writeCtrl.
  cbn [enabled countDown repeat irqEnabled extClock clockScale].
  replace (truthy (band (u32 v) 1)) with (Z.testbit (u32 v) 0)
    by (symmetry; exact (band_pow2_test (u32 v) 0 ltac:(lia))).
  replace (truthy (band (u32 v) 2)) with (Z.testbit (u32 v) 1)
    by (symmetry; exact (band_pow2_test (u32 v) 1 ltac:(lia))).
  replace (truthy (band (u32 v) 4)) with (Z.testbit (u32 v) 2)
    by (symmetry; exact (band_pow2_test (u32 v) 2 ltac:(lia))).
  replace (truthy (band (u32 v) 8)) with (Z.testbit (u32 v) 3)
    by (symmetry; exact (band_pow2_test (u32 v) 3 ltac:(lia))).
  replace (truthy (band (u32 v) 16)) with (Z.testbit (u32 v) 4)
    by (symmetry; exact (band_pow2_test (u32 v) 4 ltac:(lia))).
  rewrite !u32_testbit by lia.
  rewrite !of_bool_testbit by lia.
  change (2 ^ 0) with 1. change (2 ^ 1) with 2. change (2 ^ 2) with 4.
  change (2 ^ 3) with 8. change (2 ^ 4) with 16.
  rewrite Z.div_1_r.
  repeat split.
  change 7 with (Z.ones 3). rewrite band_ones_r by lia.
  rewrite shr_word by lia. rewrite u32_idem.
  change (2 ^ 5) with 32. change (2 ^ 3) with 8.
  apply u32_div_mod; try lia. exists 16777216. reflexivity.
Qed.

Lemma u32_mod v m :
  0 < m -> (m | 4294967296) -> u32 v mod m = v mod m.
Proof.
  intros Hm Hd. pose proof (u32_div_mod v 1 m) as E.
  rewrite !Z.div_1_r, Z.mul_1_l in E. apply E; [lia | assumption..].
Qed.

Lemma readCtrl_writeCtrl x v : readCtrl (writeCtrl x v) = v mod 256.
Proof.
  destruct (writeCtrl_flags x v) as (He & Hd & Hr & Hi & Hx & Hc).
  cbv zeta in *.
  pose proof (Z.mod_pos_bound (v / 32) 8 ltac:(lia)) as Hb.
  rewrite readCtrl_value, He, Hd, Hr, Hi, Hx, Hc.
  rewrite (Z.mod_small ((v / 32) mod 8)) by lia.
  symmetry. apply low_byte_fields.
Qed.

(** X23.  The control register reads back the low eight bits of what was
    written, assembled from the mode flags and the clock scale, whatever
    the upper bits were.  [reset] disables the channel but keeps the mode:
    afterwards the register reads as the old low byte with bit 0 cleared,
    although the stored control word is 0. *)
Theorem control_register_reads_back_its_low_byte (x : Timer.t) (v : Z) :
  readCtrl (writeCtrl x v) = v mod 256 /\
  ctrl (writeCtrl x v) = u32 v /\
  readCtrl (reset (writeCtrl x v)) = v mod 256 - v mod 2 /\
  ctrl (reset (writeCtrl x v)) = 0 /\
  enabled (reset (writeCtrl x v)) = false.
Proof.
  destruct (writeCtrl_flags x v) as (He & Hd & Hr & Hi & Hx & Hc).
  cbv zeta in *.
  pose proof (Z.mod_pos_bound (v / 32) 8 ltac:(lia)) as Hb.
  split; [| split; [reflexivity | split; [| split; reflexivity]]].
  - apply readCtrl_writeCtrl.
  - rewrite readCtrl_value.
    cbn [reset enabled countDown repeat irqEnabled extClock clockScale
         of_bool].
    rewrite Hd, Hr, Hi, Hx, Hc.
    rewrite (Z.mod_small ((v / 32) mod 8)) by lia.
    rewrite (low_byte_fields v). lia.
Qed.

End TimerControl.

(** ** Finite case analysis *)

(** A property of every integer of a range, from the list of its
    cases. *)
Lemma each_of (P : Z -> Prop) (lo hi : Z) :
  Forall P (seqZ lo (hi - lo + 1)) -> forall z, lo <= z <= hi -> P z.
Proof.
  intros HF z Hz. rewrite Forall_forall in HF. apply HF.
  apply elem_of_seqZ. lia.
Qed.

Ltac enumerate tac :=
  match goal with
  | |- Forall _ ?l =>
      let l' := eval vm_compute in l in change l with l'
  end;
  repeat (constructor; [cbv beta; tac |]); try constructor.

(** ** The register window of the timer controller *)

Section TimerWindows.

Import JS TimerController.

Lemma window_decode idx reg :
  0 <= idx <= 3 -> 0 <= reg <= 15 ->
  band (shr (band (16 * idx + reg) 65535) 4) 3 = idx /\
  band (band (16 * idx + reg) 65535) 12 = 4 * (reg / 4).
Proof.
  intros Hi. revert reg. apply each_of. revert idx Hi. apply each_of.
  enumerate ltac:(enumerate ltac:(split; reflexivity)).
Qed.

Lemma timer_with_timer tc idx x j :
  0 <= idx <= 2 -> 0 <= j <= 2 ->
  timer (with_timer tc idx x) j = if Z.eq_dec idx j then x else timer tc j.
Proof.
  intros Hi Hj.
  assert (Ei : idx = 0 \/ idx = 1 \/ idx = 2) by lia.
  assert (Ej : j = 0 \/ j = 1 \/ j = 2) by lia.
  destruct Ei as [-> | [-> | ->]], Ej as [-> | [-> | ->]]; reflexivity.
Qed.

Lemma writeU32_channel tc idx reg v :
  0 <= idx <= 2 -> 0 <= reg <= 15 ->
  writeU32 tc (16 * idx + reg) v
  = with_timer tc idx
      (match reg / 4 with
       | 0 => Timer.writeCount (timer tc idx) (u32 v)
       | 1 => Timer.writeCtrl (timer tc idx) (u32 v)
       | 2 => Timer.writeCompare (timer tc idx) (u32 v)
       | _ => Timer.writeStatus (timer tc idx) (u32 v)
       end).
Proof.
  intros Hi Hr. unfold writeU32. cbv zeta.
  destruct (window_decode idx reg) as (-> & ->); [lia | lia |].
  destruct (Z.leb_spec 3 idx); [lia |].
  assert (Eq : reg / 4 = 0 \/ reg / 4 = 1 \/ reg / 4 = 2 \/ reg / 4 = 3).
  { assert (0 <= reg / 4 < 4)
      by (split; [apply Z.div_pos; lia | apply Z.div_lt_upper_bound; lia]).
    lia. }
  destruct Eq as [-> | [-> | [-> | ->]]]; reflexivity.
Qed.

Lemma readU32_channel tc idx reg :
  0 <= idx <= 2 -> 0 <= reg <= 15 ->
  readU32 tc (16 * idx + reg)
  = (match reg / 4 with
     | 0 => Timer.readCount (timer tc idx)
     | 1 => Timer.readCtrl (timer tc idx)
     | 2 => Timer.readCompare (timer tc idx)
     | _ => Timer.readStatus (timer tc idx)
     end, tc).
Proof.
  intros Hi Hr. unfold readU32. cbv zeta.
  destruct (window_decode idx reg) as (-> & ->); [lia | lia |].
  destruct (Z.leb_spec 3 idx); [lia |].
  assert (Eq : reg / 4 = 0 \/ reg / 4 = 1 \/ reg / 4 = 2 \/ reg / 4 = 3).
  { assert (0 <= reg / 4 < 4)
      by (split; [apply Z.div_pos; lia | apply Z.div_lt_upper_bound; lia]).
    lia. }
  destruct Eq as [-> | [-> | [-> | ->]]]; reflexivity.
Qed.

(** X24.  Each of the three channels has its own 16-byte window: a write
    into the window of channel [idx] leaves the other two channels as they
    were; COUNT and CMP read back the word written, CTRL its low byte; and
    the fourth window (0x30 to 0x3F) reads as 0 and ignores writes. *)
Theorem channels_have_separate_windows (tc : TimerController.t)
    (idx reg j v : Z) :
  0 <= idx <= 2 -> 0 <= reg <= 15 -> 0 <= j <= 2 -> j <> idx ->
  timer (writeU32 tc (16 * idx + reg) v) j = timer tc j /\
  fst (readU32 (writeU32 tc (16 * idx) v) (16 * idx)) = u32 v /\
  fst (readU32 (writeU32 tc (16 * idx + 8) v) (16 * idx + 8)) = u32 v /\
  fst (readU32 (writeU32 tc (16 * idx + 4) v) (16 * idx + 4)) = v mod 256 /\
  writeU32 tc (48 + reg) v = tc /\
  fst (readU32 tc (48 + reg)) = 0.
Proof.
  intros Hi Hr Hj Hne.
  assert (Hsame : forall x, timer (with_timer tc idx x) idx = x).
  { intros x. rewrite timer_with_timer by lia.
    destruct (Z.eq_dec idx idx); [reflexivity | contradiction]. }
  repeat split.
  - rewrite writeU32_channel, timer_with_timer by lia.
    destruct (Z.eq_dec idx j); [congruence | reflexivity].
  - replace (16 * idx) with (16 * idx + 0) by lia.
    rewrite writeU32_channel, readU32_channel by lia.
    change (0 / 4) with 0. cbv iota. cbn [fst]. rewrite Hsame.
    unfold Timer.readCount, Timer.writeCount. cbn. now rewrite !u32_idem.
  - rewrite writeU32_channel, readU32_channel by lia.
    change (8 / 4) with 2. cbv iota. cbn [fst]. rewrite Hsame.
    unfold Timer.readCompare, Timer.writeCompare. cbn. now rewrite !u32_idem.
  - rewrite writeU32_channel, readU32_channel by lia.
    change (4 / 4) with 1. cbv iota. cbn [fst]. rewrite Hsame.
    rewrite readCtrl_writeCtrl. apply u32_mod; [lia |].
    exists 16777216. reflexivity.
  - unfold writeU32. cbv zeta.
    replace (48 + reg) with (16 * 3 + reg) by lia.
    destruct (window_decode 3 reg) as (-> & _); [lia | lia |]. reflexivity.
  - unfold readU32. cbv zeta.
    replace (48 + reg) with (16 * 3 + reg) by lia.
    destruct (window_decode 3 reg) as (-> & _); [lia | lia |]. reflexivity.
Qed.

Lemma channels_have_separate_windows_witness :
  0 <= 1 <= 2 /\ 0 <= 4 <= 15 /\ 0 <= 2 <= 2 /\ 2 <> 1 /\
  timer (writeU32 create (16 * 1 + 4) 41) 2 = timer create 2 /\
  fst (readU32 (writeU32 create (16 * 1 + 4) 41) (16 * 1 + 4)) = 41 mod 256.
Proof.
  assert (H1 : 0 <= 1 <= 2) by lia. assert (H2 : 0 <= 4 <= 15) by lia.
  assert (H3 : 0 <= 2 <= 2) by lia. assert (H4 : 2 <> 1) by lia.
  destruct (channels_have_separate_windows create 1 4 2 41 H1 H2 H3 H4)
    as (Ha & _ & _ & Hb & _).
  repeat split; first [lia | assumption].
Defined.

End TimerWindows.

(** ** The registers of the display unit *)

Section VDUFacts.

Import JS VDU.

Lemma i32_unique x y k :
  -2147483648 <= y < 2147483648 -> y = x + k * 4294967296 -> i32 x = y.
Proof.
  intros Hy ->. unfold i32.
  replace (x + 2147483648)
    with (x + k * 4294967296 + 2147483648 + (- k) * 4294967296) by ring.
  rewrite Z.mod_add by lia. rewrite Z.mod_small; lia.
Qed.

(** [(h << 16) | l] for two halfwords is the signed reading of the word
    [h l]. *)
Lemma bor_shl_16 h l :
  0 <= h < 65536 -> 0 <= l < 65536 ->
  bor (shl h 16) l = i32 (h * 65536 + l).
Proof.
  intros Hh Hl. unfold bor, shl. rewrite (shcount_small 16) by lia.
  rewrite i32_idem, (i32_small h), (i32_small l) by lia.
  rewrite Z.shiftl_mul_pow2 by lia. change (2 ^ 16) with 65536.
  destruct (Z.ltb_spec h 32768).
  - rewrite (i32_small (h * 65536)) by lia.
    change 65536 with (2 ^ 16) at 1. rewrite lor_mul_pow2 by lia.
    change (2 ^ 16) with 65536. symmetry. apply i32_small. lia.
  - replace (i32 (h * 65536)) with ((h - 65536) * 2 ^ 16)
      by (symmetry; apply (i32_unique _ _ (-1)); lia).
    rewrite lor_mul_pow2 by lia. symmetry.
    apply (i32_unique _ _ (-1)); lia.
Qed.

(** X25.  The frame-buffer address is assembled from the two 16-bit
    halves written to FB_ADDR_H (offset 4) and FB_ADDR_L (offset 6), in
    either order, as a signed 32-bit number: negative when the high half
    has bit 15 set.  Each half reads back, STAT (offset 2) ignores writes
    and CTRL (offset 0) reads back the word written. *)
Theorem frame_buffer_address_is_assembled_from_halves (v : VDU.t)
    (h l x : Z) :
  let v1 := writeU32 (writeU32 v 4 h) 6 l in
  let v2 := writeU32 (writeU32 v 6 l) 4 h in
  fbAddr v1 = i32 (h mod 65536 * 65536 + l mod 65536) /\
  u32 (fbAddr v1) = h mod 65536 * 65536 + l mod 65536 /\
  (fbAddr v1 < 0 <-> 32768 <= h mod 65536) /\
  fbAddr v2 = fbAddr v1 /\
  fst (readU32 v1 4) = h mod 65536 /\
  fst (readU32 v1 6) = l mod 65536 /\
  writeU32 v 2 x = v /\
  fst (readU32 (writeU32 v 0 x) 0) = u32 x.
Proof.
  cbv zeta.
  pose proof (Z.mod_pos_bound h 65536 ltac:(lia)) as Hh.
  pose proof (Z.mod_pos_bound l 65536 ltac:(lia)) as Hl.
  assert (Eh : band (u32 h) 65535 = h mod 65536).
  { rewrite band_65535. apply u32_mod; [lia |]. exists 65536. reflexivity. }
  assert (El : band (u32 l) 65535 = l mod 65536).
  { rewrite band_65535. apply u32_mod; [lia |]. exists 65536. reflexivity. }
  assert (E1 : fbAddr (writeU32 (writeU32 v 4 h) 6 l)
               = i32 (h mod 65536 * 65536 + l mod 65536)).
  { change (fbAddr (writeU32 (writeU32 v 4 h) 6 l))
      with (bor (shl (band (u32 h) 65535) 16) (band (u32 l) 65535)).
    rewrite Eh, El. now apply bor_shl_16. }
  assert (E2 : fbAddr (writeU32 (writeU32 v 6 l) 4 h)
               = i32 (h mod 65536 * 65536 + l mod 65536)).
  { change (fbAddr (writeU32 (writeU32 v 6 l) 4 h))
      with (bor (shl (band (u32 h) 65535) 16) (band (u32 l) 65535)).
    rewrite Eh, El. now apply bor_shl_16. }
  rewrite E1, E2.
  split; [reflexivity |]. split; [| split; [| split; [reflexivity |]]].
  - rewrite u32_i32. apply u32_small. lia.
  - rewrite i32_of_word by lia.
    destruct (Z.leb_spec 2147483648 (h mod 65536 * 65536 + l mod 65536)); lia.
  - split; [| split; [| split]].
    + change (fst (readU32 (writeU32 (writeU32 v 4 h) 6 l) 4))
        with (u32 (band (u32 h) 65535)).
      rewrite Eh. apply u32_small. lia.
    + change (fst (readU32 (writeU32 (writeU32 v 4 h) 6 l) 6))
        with (u32 (band (u32 l) 65535)).
      rewrite El. apply u32_small. lia.
    + now destruct v.
    + change (fst (readU32 (writeU32 v 0 x) 0)) with (u32 (u32 x)).
      apply u32_idem.
Qed.

End VDUFacts.

(** ** What the handlers of an I/O region leave alone *)

Section IOKeeps.

Context {W A : Type}.

Import JS IOMemoryRegion IOSpec.

Variable obs : W -> A.

Lemma readU32_keeps (io : IOMemoryRegion.t W) offset :
  quiet obs io ->
  handlers (snd (readU32 io offset)) = handlers io /\
  obs (world (snd (readU32 io offset))) = obs (world io).
Proof.
  intros Hq. unfold readU32.
  destruct (handlers io !! wordOffsetOf io offset) as [h |] eqn:Eh;
    [| split; reflexivity].
  destruct (readFn h) as [f |] eqn:Ef; [| split; reflexivity].
  cbn [world record]. destruct (f (world io)) as [v w] eqn:Efw.
  cbn [snd handlers with_world world]. split; [reflexivity |].
  destruct (Hq _ _ Eh) as [Hr _]. specialize (Hr f Ef (world io)).
  now rewrite Efw in Hr.
Qed.

Lemma writeU32_keeps (io : IOMemoryRegion.t W) offset value :
  quiet obs io ->
  handlers (writeU32 io offset value) = handlers io /\
  obs (world (writeU32 io offset value)) = obs (world io).
Proof.
  intros Hq. unfold writeU32.
  destruct (handlers io !! wordOffsetOf io offset) as [h |] eqn:Eh.
  - destruct (writeFn h) as [f |] eqn:Ef.
    + cbn [world record handlers with_world]. split; [reflexivity |].
      destruct (Hq _ _ Eh) as [_ Hw]. apply (Hw f Ef).
    + unfold set_cell. destruct (_ && _); split; reflexivity.
  - unfold set_cell. destruct (_ && _); split; reflexivity.
Qed.

Lemma quiet_handlers (io io' : IOMemoryRegion.t W) :
  handlers io' = handlers io -> quiet obs io -> quiet obs io'.
Proof. intros E Hq k h Hk. rewrite E in Hk. exact (Hq k h Hk). Qed.

Lemma accesses_keep (io : IOMemoryRegion.t W) offset value :
  quiet obs io ->
  obs (world (writeU32 io offset value)) = obs (world io) /\
  obs (world (writeU16 io offset value)) = obs (world io) /\
  obs (world (writeU8 io offset value)) = obs (world io) /\
  obs (world (snd (readU32 io offset))) = obs (world io) /\
  obs (world (snd (readU16 io offset))) = obs (world io) /\
  obs (world (snd (readU8 io offset))) = obs (world io).
Proof.
  intros Hq.
  destruct (readU32_keeps io (band offset (bnot 3)) Hq) as [Hh Ho].
  split; [apply (writeU32_keeps io offset value Hq) |].
  unfold writeU16, writeU8, readU16, readU8.
  destruct (readU32 io (band offset (bnot 3))) as [word io1] eqn:E.
  cbn [snd] in *.
  pose proof (quiet_handlers io io1 Hh Hq) as Hq1.
  repeat split.
  - destruct (writeU32_keeps io1 (band offset (bnot 3))
                (bor (band word (bnot (shl 65535 (band offset 2 * 8))))
                     (shl (band value 65535) (band offset 2 * 8))) Hq1)
      as [_ ->]. exact Ho.
  - destruct (writeU32_keeps io1 (band offset (bnot 3))
                (bor (band word (bnot (shl 255 (band offset 3 * 8))))
                     (shl (band value 255) (band offset 3 * 8))) Hq1)
      as [_ ->]. exact Ho.
  - apply (readU32_keeps io offset Hq).
  - exact Ho.
  - exact Ho.
Qed.

End IOKeeps.

(** ** The handlers of the machine *)

Section MachineMap.

Import JS IOMemoryRegion IOSpec Machine MachineSpec.

Lemma machine_keys :
  (map_to_list (handlers Machine.io)).*1
  = [49159; 32775; 32779; 49155; 32771; 49157; 32773; 32777; 49153; 32769;
     49158; 32774; 32778; 49154; 32770; 49156; 32772; 32776; 49152; 32768;
     1; 0].
Proof. vm_compute. reflexivity. Qed.

Lemma machine_handlers k : handlers Machine.io !! k = table k.
Proof.
  destruct (handlers Machine.io !! k) as [h |] eqn:Hk.
  - assert (Hin : k ∈ (map_to_list (handlers Machine.io)).*1).
    { apply list_elem_of_fmap. exists (k, h). split; [reflexivity |].
      now apply elem_of_map_to_list. }
    rewrite machine_keys in Hin.
    rewrite <- Hk. clear Hk.
    repeat (apply elem_of_cons in Hin as [-> | Hin]; [reflexivity |]).
    now apply elem_of_nil in Hin.
  - assert (Hout : k ∉ (map_to_list (handlers Machine.io)).*1).
    { intros Hin. apply list_elem_of_fmap in Hin as ([k' h] & -> & Hin).
      apply elem_of_map_to_list in Hin. cbn in Hk. congruence. }
    rewrite machine_keys in Hout.
    unfold table.
    repeat match goal with
           | |- context [?a =? ?b] => destruct (Z.eqb_spec a b)
           | |- context [?a <=? ?b] => destruct (Z.leb_spec a b)
           end; cbn [andb]; try reflexivity; exfalso; apply Hout;
      assert (Ek : k = 0 \/ k = 1 \/ k = 32768 \/ k = 32769 \/ k = 32770
                   \/ k = 32771 \/ k = 32772 \/ k = 32773 \/ k = 32774
                   \/ k = 32775 \/ k = 32776 \/ k = 32777 \/ k = 32778
                   \/ k = 32779 \/ k = 49152 \/ k = 49153 \/ k = 49154
                   \/ k = 49155 \/ k = 49156 \/ k = 49157 \/ k = 49158
                   \/ k = 49159) by lia;
      repeat (destruct Ek as [-> | Ek]); subst;
      repeat first [apply list_elem_of_here | apply list_elem_of_further].
Qed.

End MachineMap.

Section MachineFacts.

Import JS IOMemoryRegion IOSpec Machine MachineSpec.

Lemma quiet_machine (io : IOMemoryRegion.t peripherals) :
  handlers io = handlers Machine.io -> quiet sheltered io.
Proof.
  intros E k h Hk. rewrite E, machine_handlers in Hk. unfold table in Hk.
  destruct (Z.eqb_spec k 0); [injection Hk as <-; cbn [readFn writeFn] |].
  { split; intros f [= <-]; intros; reflexivity. }
  destruct (Z.eqb_spec k 1); [injection Hk as <-; cbn [readFn writeFn] |].
  { split; intros f [= <-]; intros; reflexivity. }
  destruct ((32768 <=? k) && (k <=? 32771)).
  { injection Hk as <-. cbn [readFn writeFn]. split; intros f [= <-]; intros.
    - unfold intCRead. destruct (INTC.readU32 _ _). reflexivity.
    - reflexivity. }
  destruct ((32772 <=? k) && (k <=? 32779)) eqn:E2.
  { apply andb_true_iff in E2 as [?%Z.leb_le ?%Z.leb_le].
    injection Hk as <-. cbn [readFn writeFn].
    assert (Ek : k = 32772 \/ k = 32773 \/ k = 32774 \/ k = 32775
                 \/ k = 32776 \/ k = 32777 \/ k = 32778 \/ k = 32779)
      by lia.
    split; intros f [= <-]; intros;
      repeat (destruct Ek as [-> | Ek]); subst; reflexivity. }
  destruct ((49152 <=? k) && (k <=? 49159)); [| discriminate].
  injection Hk as <-. cbn [readFn writeFn]. split; intros f [= <-]; intros.
  - unfold uartRead. destruct (UART.readU32 _ _). reflexivity.
  - reflexivity.
Qed.

Lemma timer_window_word (io : IOMemoryRegion.t peripherals) reg :
  size io = Engine.IO_SIZE -> 0 <= reg <= 15 ->
  wordOffsetOf io (TIMER_BASE + reg) = 32768 + reg / 4.
Proof.
  intros Hs. unfold wordOffsetOf. rewrite Hs. revert reg. apply each_of.
  enumerate ltac:(reflexivity).
Qed.

Lemma vdu_window_word (io : IOMemoryRegion.t peripherals) reg :
  size io = Engine.IO_SIZE -> 0 <= reg <= 7 ->
  wordOffsetOf io (VDU_BASE + reg) = reg / 4.
Proof.
  intros Hs. unfold wordOffsetOf. rewrite Hs. revert reg. apply each_of.
  enumerate ltac:(reflexivity).
Qed.

(** X26.  The interrupt controller is registered over the window of timer
    channel 0: a word access at [TIMER_BASE + reg], for [reg] in 0..15,
    reads and writes the interrupt controller's register at
    [4 * (reg / 4)], and no access through the I/O region, of any width and
    at any offset, changes channel 0. *)
Theorem interrupt_controller_shadows_timer0
    (io : IOMemoryRegion.t peripherals) (reg v : Z) :
  handlers io = handlers Machine.io ->
  size io = Engine.IO_SIZE ->
  0 <= reg <= 15 ->
  world (writeU32 io (TIMER_BASE + reg) v)
  = with_intC (world io)
      (INTC.writeU32 (intC (world io)) (4 * (reg / 4)) (u32 v)) /\
  fst (readU32 io (TIMER_BASE + reg))
  = u32 (fst (INTC.readU32 (intC (world io)) (4 * (reg / 4)))) /\
  forall offset value,
    TimerController.timer0 (timer (world (writeU32 io offset value)))
    = TimerController.timer0 (timer (world io)) /\
    TimerController.timer0 (timer (world (writeU16 io offset value)))
    = TimerController.timer0 (timer (world io)) /\
    TimerController.timer0 (timer (world (writeU8 io offset value)))
    = TimerController.timer0 (timer (world io)) /\
    TimerController.timer0 (timer (world (snd (readU32 io offset))))
    = TimerController.timer0 (timer (world io)) /\
    TimerController.timer0 (timer (world (snd (readU16 io offset))))
    = TimerController.timer0 (timer (world io)) /\
    TimerController.timer0 (timer (world (snd (readU8 io offset))))
    = TimerController.timer0 (timer (world io)).
Proof.
  intros Hh Hs Hr.
  assert (Hq : 0 <= reg / 4 <= 3).
  { split; [apply Z.div_pos; lia |].
    assert (reg / 4 < 4) by (apply Z.div_lt_upper_bound; lia). lia. }
  assert (Hl : handlers io !! wordOffsetOf io (TIMER_BASE + reg)
               = Some (mkHandler (Some (intCRead (4 * (reg / 4))))
                                 (Some (intCWrite (4 * (reg / 4)))))).
  { rewrite timer_window_word, Hh, machine_handlers by assumption.
    unfold table.
    destruct (Z.eqb_spec (32768 + reg / 4) 0); [lia |].
    destruct (Z.eqb_spec (32768 + reg / 4) 1); [lia |].
    destruct (Z.leb_spec 32768 (32768 + reg / 4)); [| lia].
    destruct (Z.leb_spec (32768 + reg / 4) 32771); [| lia].
    cbn [andb]. do 4 f_equal; lia. }
  split; [| split].
  - unfold writeU32. rewrite Hl. reflexivity.
  - unfold readU32. rewrite Hl. cbn [readFn record world].
    unfold intCRead. destruct (INTC.readU32 _ _). reflexivity.
  - intros offset value.
    destruct (accesses_keep sheltered io offset value (quiet_machine io Hh))
      as (H1 & H2 & H3 & H4 & H5 & H6).
    unfold sheltered in *.
    repeat split; congruence.
Qed.

Lemma interrupt_controller_shadows_timer0_witness :
  handlers Machine.io = handlers Machine.io /\
  size Machine.io = Engine.IO_SIZE /\ 0 <= 4 <= 15 /\
  world (writeU32 Machine.io (TIMER_BASE + 4) 41)
  = with_intC (world Machine.io)
      (INTC.writeU32 (intC (world Machine.io)) (4 * (4 / 4)) (u32 41)).
Proof.
  assert (Hs : size Machine.io = Engine.IO_SIZE) by reflexivity.
  split; [reflexivity |]. split; [exact Hs |]. split; [lia |].
  exact (proj1 (interrupt_controller_shadows_timer0 Machine.io 4 41 eq_refl
                  Hs ltac:(lia))).
Defined.

(** X27.  The display unit's closures are registered two to a word, and
    the later one stays: a word access at [VDU_BASE + reg] reaches STAT for
    [reg] in 0..3 (a write there changes nothing) and FB_ADDR_L for [reg]
    in 4..7.  No access through the I/O region, of any width and at any
    offset, changes CTRL or FB_ADDR_H. *)
Theorem display_control_is_out_of_reach
    (io : IOMemoryRegion.t peripherals) (reg v : Z) :
  handlers io = handlers Machine.io ->
  size io = Engine.IO_SIZE ->
  0 <= reg <= 7 ->
  vdu (world (writeU32 io (VDU_BASE + reg) v))
  = (if reg <? 4 then vdu (world io)
     else VDU.writeU32 (vdu (world io)) 6 (u32 v)) /\
  fst (readU32 io (VDU_BASE + reg))
  = (if reg <? 4 then u32 (VDU.status (vdu (world io)))
     else u32 (VDU.fbAddrLow (vdu (world io)))) /\
  forall offset value,
    let unchanged (io' : IOMemoryRegion.t peripherals) :=
      VDU.ctrl (vdu (world io')) = VDU.ctrl (vdu (world io)) /\
      VDU.fbAddrHigh (vdu (world io')) = VDU.fbAddrHigh (vdu (world io)) in
    unchanged (writeU32 io offset value) /\
    unchanged (writeU16 io offset value) /\
    unchanged (writeU8 io offset value) /\
    unchanged (snd (readU32 io offset)) /\
    unchanged (snd (readU16 io offset)) /\
    unchanged (snd (readU8 io offset)).
Proof.
  intros Hh Hs Hr.
  assert (Hl : handlers io !! wordOffsetOf io (VDU_BASE + reg)
               = Some (if reg <? 4
                       then mkHandler (Some (vduRead 2)) (Some (vduWrite 2))
                       else mkHandler (Some (vduRead 6)) (Some (vduWrite 6)))).
  { rewrite vdu_window_word, Hh, machine_handlers by assumption.
    destruct (Z.ltb_spec reg 4).
    - replace (reg / 4) with 0
        by (symmetry; apply Z.div_small; lia). reflexivity.
    - replace (reg / 4) with 1
        by (apply (Z.div_unique reg 4 1 (reg - 4)); lia).
      reflexivity. }
  split; [| split].
  - unfold writeU32. rewrite Hl. destruct (reg <? 4); reflexivity.
  - unfold readU32. rewrite Hl.
    destruct (reg <? 4); cbn [readFn record world].
    + change (vduRead 2 (world io))
        with (u32 (VDU.status (vdu (world io))),
              with_vdu (world io) (vdu (world io))).
      cbn [fst]. apply u32_idem.
    + change (vduRead 6 (world io))
        with (u32 (VDU.fbAddrLow (vdu (world io))),
              with_vdu (world io) (vdu (world io))).
      cbn [fst]. apply u32_idem.
  - intros offset value. cbv zeta.
    destruct (accesses_keep sheltered io offset value (quiet_machine io Hh))
      as (H1 & H2 & H3 & H4 & H5 & H6).
    unfold sheltered in *.
    repeat split; congruence.
Qed.

Lemma display_control_is_out_of_reach_witness :
  handlers Machine.io = handlers Machine.io /\
  size Machine.io = Engine.IO_SIZE /\ 0 <= 0 <= 7 /\
  vdu (world (writeU32 Machine.io (VDU_BASE + 0) 0)) = vdu (world Machine.io).
Proof.
  assert (Hs : size Machine.io = Engine.IO_SIZE) by reflexivity.
  split; [reflexivity |]. split; [exact Hs |]. split; [lia |].
  exact (proj1 (display_control_is_out_of_reach Machine.io 0 0 eq_refl Hs
                  ltac:(lia))).
Defined.

End MachineFacts.

(** ** The engine: what is in flash after a load and after a reset *)

Section EngineFacts.

Import JS Engine.

#[local] Existing Instance MIU.region.
#[local] Existing Instance Engine.region.

Context {W : Type}.
Variable io : IOMemoryRegion.t W.

(** The memory map after a load: the flash segment holds a region of
    [FLASH_SIZE] bytes with the image at its start and zeros behind it. *)
Lemma loadROM_flash (e : Engine.t W) (file : list Z) :
  Z.of_nat (length file) <= FLASH_SIZE ->
  exists m fl,
    miu (loadROM (Some io) e file) = Some m /\
    MIU.getRegion m SEGMENT_FLASH = Some (ArrayRegion fl) /\
    ArrayMemoryRegion.byteLength fl = FLASH_SIZE /\
    forall i,
      ArrayMemoryRegion.byte fl i
      = if (0 <=? i) && (i <? Z.of_nat (length file))
        then default 0 ((fun b => b mod 256) <$> file !! Z.to_nat i)
        else 0.
Proof.
  intros Hlen.
  destruct (setupHardware_ok io (with_state (pause e) LOADING))
    as (m & dram & fl & Es & Efl & Em).
  assert (Hfl : MIU.getRegion m SEGMENT_FLASH = Some (ArrayRegion fl)).
  { unfold MIU.getRegion. rewrite Em.
    rewrite list_lookup_insert_eq; [reflexivity |].
    rewrite !length_insert, length_replicate. unfold SEGMENT_FLASH. lia. }
  assert (Hcr : ArrayMemoryRegion.byteLength fl = FLASH_SIZE
                /\ ArrayMemoryRegion.u8 fl = ∅).
  { unfold ArrayMemoryRegion.create in Efl. cbn in Efl.
    injection Efl as <-. split; reflexivity. }
  destruct Hcr as [Hbl Hu8].
  set (e1 := with_miu (resetCPU (with_state (pause e) LOADING)) (Some m))
    in *.
  set (fl' := ArrayMemoryRegion.with_u8 fl
                (ArrayMemoryRegion.copy (ArrayMemoryRegion.u8 fl) file 0)).
  set (m' := MIU.mk (<[Z.to_nat SEGMENT_FLASH := Some (ArrayRegion fl')]>
                       (MIU.segments m))).
  assert (El : loadFlash e1 file = Some (with_miu e1 (Some m'))).
  { apply loadFlash_ok; [reflexivity | | lia].
    unfold flash, e1. cbn [miu with_miu]. now rewrite Hfl. }
  assert (Hl' : (Z.to_nat SEGMENT_FLASH < length (MIU.segments m'))%nat).
  { unfold m'. cbn [MIU.segments]. rewrite length_insert, Em.
    rewrite !length_insert, length_replicate. unfold SEGMENT_FLASH. lia. }
  assert (Hfl' : MIU.getRegion m' SEGMENT_FLASH = Some (ArrayRegion fl')).
  { unfold MIU.getRegion, m'. cbn [MIU.segments].
    rewrite list_lookup_insert_eq; [reflexivity |].
    rewrite Em, !length_insert, length_replicate. unfold SEGMENT_FLASH. lia. }
  assert (Hseg : MIU.getSegment (bootAddrOf file) = SEGMENT_FLASH)
    by (destruct (bootAddrOf_cases file) as [-> | ->]; reflexivity).
  set (e2 := with_cpu (with_romLoaded (with_miu e1 (Some m')) true)
               (CPU.with_pc (cpu (with_romLoaded (with_miu e1 (Some m')) true))
                  (bootAddrOf file))).
  pose proof (fetch_flash e2 m' fl' (bootAddrOf file) eq_refl Hfl' Hseg) as Ef.
  assert (E : loadROM (Some io) e file
              = with_state
                  (with_miu e2
                     (Some (MIU.mk
                              (<[Z.to_nat SEGMENT_FLASH :=
                                   Some (ArrayRegion fl')]>
                                 (MIU.segments m')))))
                  PAUSED).
  { unfold loadROM. rewrite needsSwap_never, Es. fold e1. rewrite El.
    fold e2. rewrite Ef. now rewrite finalOP_in_range. }
  rewrite E. cbn [miu with_state with_miu].
  eexists _, fl'. split; [reflexivity |]. split; [| split].
  - unfold MIU.getRegion. cbn [MIU.segments].
    rewrite list_lookup_insert_eq by exact Hl'.
    reflexivity.
  - exact Hbl.
  - intros i. unfold ArrayMemoryRegion.byte, fl'.
    cbn [ArrayMemoryRegion.u8 ArrayMemoryRegion.with_u8].
    rewrite copy_lookup, Hu8, Z.add_0_l, Z.sub_0_r.
    destruct ((0 <=? i) && (i <? Z.of_nat (length file))); [reflexivity |].
    now rewrite lookup_empty.
Qed.

Lemma flash_address k :
  0 <= k < 2097152 ->
  MIU.getSegment (BOOT_ADDRESS_DEFAULT + 4 * k) = SEGMENT_FLASH /\
  MIU.getOffset (BOOT_ADDRESS_DEFAULT + 4 * k) = 4 * k.
Proof.
  intros Hk.
  assert (Hu : u32 (BOOT_ADDRESS_DEFAULT + 4 * k)
               = 158 * 16777216 + 4 * k)
    by (apply u32_small; unfold BOOT_ADDRESS_DEFAULT; lia).
  split.
  - unfold MIU.getSegment. rewrite shr_24, band_255, Hu.
    rewrite Z.div_add_l, (Z.div_small (4 * k)) by lia. reflexivity.
  - rewrite getOffset_u32, Hu.
    rewrite Z.add_comm, Z.mod_add by lia. apply Z.mod_small. lia.
Qed.

(** X28.  After [loadROM] the image is what the CPU fetches: the word at
    [0x9E000000 + 4k] is made of the image bytes [4k .. 4k+3], the first
    one lowest, each reduced to eight bits. *)
Theorem rom_words_are_fetched_little_endian (e : Engine.t W)
    (file : list Z) (k b0 b1 b2 b3 : Z) :
  Z.of_nat (length file) <= FLASH_SIZE ->
  0 <= k ->
  file !! Z.to_nat (4 * k) = Some b0 ->
  file !! Z.to_nat (4 * k + 1) = Some b1 ->
  file !! Z.to_nat (4 * k + 2) = Some b2 ->
  file !! Z.to_nat (4 * k + 3) = Some b3 ->
  fst <$> fetch (loadROM (Some io) e file) (BOOT_ADDRESS_DEFAULT + 4 * k)
  = Some (b0 mod 256 + 256 * (b1 mod 256) + 65536 * (b2 mod 256)
          + 16777216 * (b3 mod 256)).
Proof.
  intros Hlen Hk H0 H1 H2 H3.
  destruct (loadROM_flash e file Hlen) as (m & fl & Hm & Hfl & Hbl & Hb).
  apply lookup_lt_Some in H3 as Hi.
  assert (Hk' : 0 <= k < 2097152) by (unfold FLASH_SIZE in Hlen; lia).
  destruct (flash_address k Hk') as (Hseg & Hoff).
  rewrite (fetch_flash _ m fl _ Hm Hfl Hseg). cbn [fmap option_fmap option_map fst].
  f_equal. rewrite Hoff. unfold ArrayMemoryRegion.readU32. cbn [fst].
  rewrite (index32 fl 23) by (rewrite ?Hbl; first [lia | reflexivity]).
  rewrite (u32_small (4 * k)) by lia.
  change (2 ^ 2) with 4. rewrite (Z.mul_comm 4 k), Z.div_mul by lia.
  rewrite Z.mod_small by (change (2 ^ (23 - 2)) with 2097152; lia).
  unfold ArrayMemoryRegion.word. rewrite !Hb.
  repeat match goal with
         | |- context [(0 <=? ?x) && (?x <? ?y)] =>
             destruct (Z.leb_spec 0 x); [| lia];
             destruct (Z.ltb_spec x y); [| lia]; cbn [andb]
         end.
  rewrite H0, H1, H2, H3. cbn [fmap option_fmap option_map default].
  pose proof (Z.mod_pos_bound b0 256 ltac:(lia)).
  pose proof (Z.mod_pos_bound b1 256 ltac:(lia)).
  pose proof (Z.mod_pos_bound b2 256 ltac:(lia)).
  pose proof (Z.mod_pos_bound b3 256 ltac:(lia)).
  apply u32_small. lia.
Qed.

(** X29.  [reset] builds the memory map anew and does not load the image
    again: once a ROM is loaded, a reset leaves a flash region in which
    every byte is 0, with the CPU in its reset state at the default boot
    address 0x9E000000 -- also for an image that carries the boot magic --
    while the engine still counts the ROM as loaded. *)
Theorem reset_erases_the_rom (e : Engine.t W) :
  romLoaded e = true ->
  exists e' fl,
    reset (Some io) e = Some e' /\
    cpu e' = CPU.with_pc CPU.reset BOOT_ADDRESS_DEFAULT /\
    romLoaded e' = true /\
    cyclesExecuted e' = 0 /\
    flash e' = Some fl /\
    (forall i, ArrayMemoryRegion.byte fl i = 0) /\
    forall k, 0 <= k < 2097152 ->
      fst <$> fetch e' (BOOT_ADDRESS_DEFAULT + 4 * k) = Some 0.
Proof.
  intros Hr. unfold reset.
  assert (Hp : romLoaded (pause e) = true)
    by (unfold pause; destruct (state e); exact Hr).
  rewrite Hp.
  destruct (setupHardware_ok io (pause e)) as (m & dram & fl & Es & Efl & Em).
  rewrite Es. cbn [mbind option_bind].
  assert (Hfl : MIU.getRegion m SEGMENT_FLASH = Some (ArrayRegion fl)).
  { unfold MIU.getRegion. rewrite Em.
    rewrite list_lookup_insert_eq; [reflexivity |].
    rewrite !length_insert, length_replicate. unfold SEGMENT_FLASH. lia. }
  assert (Hcr : fl = ArrayMemoryRegion.mk ∅ FLASH_SIZE FLASH_SIZE true).
  { unfold ArrayMemoryRegion.create in Efl. cbn in Efl.
    now injection Efl as <-. }
  assert (Hf : flash (with_miu (resetCPU (pause e)) (Some m)) = Some fl).
  { unfold flash. cbn [miu with_miu]. now rewrite Hfl. }
  rewrite Hf.
  assert (Hz : forall i, ArrayMemoryRegion.byte fl i = 0).
  { intros i. rewrite Hcr. unfold ArrayMemoryRegion.byte.
    cbn [ArrayMemoryRegion.u8]. now rewrite lookup_empty. }
  assert (Hw : forall offset, fst (ArrayMemoryRegion.readU32 fl offset) = 0).
  { intros offset. unfold ArrayMemoryRegion.readU32. cbn [fst].
    unfold ArrayMemoryRegion.word. now rewrite !Hz. }
  rewrite Hw. change (0 =? BOOT_MAGIC) with false. cbv iota.
  eexists _, fl. split; [reflexivity |].
  split; [reflexivity |]. split; [exact Hp |]. split; [reflexivity |].
  split; [exact Hf |]. split; [exact Hz |].
  intros k Hk. destruct (flash_address k Hk) as (Hseg & Hoff).
  erewrite fetch_flash; [| reflexivity | exact Hfl | exact Hseg].
  cbn [fmap option_fmap option_map fst]. now rewrite Hw.
Qed.

End EngineFacts.

Section EngineWitness.

Import JS Engine.

#[local] Existing Instance MIU.region.
#[local] Existing Instance Engine.region.

Lemma rom_words_are_fetched_little_endian_witness :
  Z.of_nat (length Boot.cmp_mfsr) <= FLASH_SIZE /\ 0 <= 1 /\
  fst <$> fetch (loadROM (Some (IOMemoryRegion.create IO_SIZE tt))
                   Engine.create Boot.cmp_mfsr)
            (BOOT_ADDRESS_DEFAULT + 4 * 1)
  = Some (80 mod 256 + 256 * (0 mod 256) + 65536 * (64 mod 256)
          + 16777216 * (0 mod 256)).
Proof.
  assert (H : Z.of_nat (length Boot.cmp_mfsr) <= FLASH_SIZE)
    by (vm_compute; discriminate).
  split; [exact H |]. split; [lia |].
  exact (rom_words_are_fetched_little_endian
           (IOMemoryRegion.create IO_SIZE tt) Engine.create Boot.cmp_mfsr
           1 80 0 64 0 H ltac:(lia) eq_refl eq_refl eq_refl eq_refl).
Defined.

Lemma reset_erases_the_rom_witness :
  romLoaded (Boot.boot Boot.cmp_mfsr) = true /\
  exists e' fl,
    reset Boot.io (Boot.boot Boot.cmp_mfsr) = Some e' /\
    flash e' = Some fl /\
    forall i, ArrayMemoryRegion.byte fl i = 0.
Proof.
  assert (H : romLoaded (Boot.boot Boot.cmp_mfsr) = true)
    by (vm_compute; reflexivity).
  split; [exact H |].
  destruct (reset_erases_the_rom (IOMemoryRegion.create IO_SIZE tt)
              (Boot.boot Boot.cmp_mfsr) H)
    as (e' & fl & He & _ & _ & _ & Hf & Hz & _).
  exists e', fl. repeat split; assumption.
Defined.

End EngineWitness.

(** ** The plain registers of an I/O region *)

Section IOPlain.

Context {W : Type}.

Import JS IOMemoryRegion.

Lemma band_mask_range x m :
  0 <= m < 2147483648 -> 0 <= band x m <= m.
Proof.
  intros Hm. unfold band. rewrite (i32_small m) by lia.
  apply Z.ldiff_le; [lia |].
  apply Z.bits_inj'. intros k Hk.
  rewrite Z.ldiff_spec, Z.land_spec, Z.bits_0.
  destruct (Z.testbit m k); [apply andb_false_r |].
  now rewrite andb_false_r.
Qed.

Lemma wordOffsetOf_range (io : IOMemoryRegion.t W) offset :
  4 <= size io < 4294967296 ->
  0 <= wordOffsetOf io offset < shr (size io) 2.
Proof.
  intros Hs. unfold wordOffsetOf.
  assert (Hq : 1 <= shr (size io) 2 <= 1073741824).
  { rewrite shr_word, u32_small by lia. change (2 ^ 2) with 4.
    split; [apply Z.div_le_lower_bound; lia |].
    apply Z.div_le_upper_bound; lia. }
  pose proof (band_mask_range (shr offset 2) (shr (size io) 2 - 1)
                ltac:(lia)).
  lia.
Qed.

Lemma lane_byte w offset :
  0 <= w < 4294967296 ->
  band (shr w (band offset 3 * 8)) 255 = byteOf w (offset mod 4).
Proof.
  intros Hw. rewrite band_3, band_255.
  pose proof (Z.mod_pos_bound offset 4 ltac:(lia)).
  rewrite shr_word, u32_small by lia.
  unfold byteOf. change (2 ^ 8) with 256. do 3 f_equal. lia.
Qed.

Lemma lane_half w offset :
  0 <= w < 4294967296 ->
  band (shr w (band offset 2 * 8)) 65535 = halfOf w ((offset / 2) mod 2).
Proof.
  intros Hw. rewrite band_2, band_65535.
  pose proof (Z.mod_pos_bound (offset / 2) 2 ltac:(lia)).
  rewrite shr_word, u32_small by lia.
  unfold halfOf. change (2 ^ 16) with 65536. do 3 f_equal. lia.
Qed.

Lemma plain_read (io : IOMemoryRegion.t W) offset :
  handlers io !! wordOffsetOf io offset = None ->
  readU32 io offset = (u32 (cell io (wordOffsetOf io offset)), io).
Proof. intros Hh. unfold readU32. now rewrite Hh. Qed.

Lemma plain_write (io : IOMemoryRegion.t W) offset value :
  4 <= size io < 4294967296 ->
  handlers io !! wordOffsetOf io offset = None ->
  writeU32 io offset value
  = with_registers io
      (<[wordOffsetOf io offset := u32 value]> (registers io)).
Proof.
  intros Hs Hh. unfold writeU32. rewrite Hh. unfold set_cell.
  pose proof (wordOffsetOf_range io offset Hs).
  destruct (Z.leb_spec 0 (wordOffsetOf io offset)); [| lia].
  destruct (Z.ltb_spec (wordOffsetOf io offset) (shr (size io) 2)); [| lia].
  cbn [andb]. now rewrite u32_idem.
Qed.

(** X30.  A word of the region without a handler is a plain 32-bit
    register: it reads back the word written, a byte or halfword write
    replaces only its own lane and reads back, the other registers keep
    their contents, and no closure of a peripheral is called.  After
    [unregisterHandler] the word is such a register again. *)
Theorem plain_registers_hold_their_words (io : IOMemoryRegion.t W)
    (offset value : Z) :
  4 <= size io < 4294967296 ->
  handlers io !! wordOffsetOf io offset = None ->
  fst (readU32 (writeU32 io offset value) offset) = u32 value /\
  fst (readU8 (writeU8 io offset value) offset) = value mod 256 /\
  fst (readU16 (writeU16 io offset value) offset) = value mod 65536 /\
  (forall j, 0 <= j <= 3 -> j <> offset mod 4 ->
     byteOf (fst (readU32 (writeU8 io offset value) offset)) j
     = byteOf (fst (readU32 io offset)) j) /\
  (forall j, 0 <= j <= 1 -> j <> (offset / 2) mod 2 ->
     halfOf (fst (readU32 (writeU16 io offset value) offset)) j
     = halfOf (fst (readU32 io offset)) j) /\
  (forall other, wordOffsetOf io other <> wordOffsetOf io offset ->
     handlers io !! wordOffsetOf io other = None ->
     fst (readU32 (writeU32 io offset value) other)
     = fst (readU32 io other) /\
     fst (readU32 (writeU8 io offset value) other)
     = fst (readU32 io other) /\
     fst (readU32 (writeU16 io offset value) other)
     = fst (readU32 io other)) /\
  world (writeU32 io offset value) = world io /\
  world (writeU8 io offset value) = world io /\
  world (writeU16 io offset value) = world io /\
  calls (writeU32 io offset value) = calls io /\
  calls (writeU8 io offset value) = calls io /\
  calls (writeU16 io offset value) = calls io /\
  handlers (unregisterHandler io offset)
    !! wordOffsetOf (unregisterHandler io offset) offset = None.
Proof.
  intros Hs Hh.
  assert (Ha : handlers io !! wordOffsetOf io (band offset (bnot 3)) = None)
    by now rewrite wordOffsetOf_align.
  assert (Hsub : forall v,
            readU32 (writeU32 io (band offset (bnot 3)) v) offset
            = (u32 v,
               writeU32 io (band offset (bnot 3)) v)).
  { intros v. rewrite plain_write by assumption.
    rewrite wordOffsetOf_align.
    unfold readU32, wordOffsetOf. cbn [handlers size with_registers].
    fold (wordOffsetOf io offset). rewrite Hh.
    unfold cell. cbn [registers with_registers].
    rewrite lookup_insert_eq. cbn [from_option id]. now rewrite u32_idem. }
  split; [| split; [| split; [| split; [| split; [| split; [| split;
    [| split; [| split; [| split; [| split; [| split]]]]]]]]]]].
  - rewrite plain_write by assumption.
    unfold readU32, wordOffsetOf. cbn [handlers size with_registers].
    fold (wordOffsetOf io offset). rewrite Hh.
    unfold cell. cbn [registers with_registers fst].
    rewrite lookup_insert_eq. cbn [from_option id]. apply u32_idem.
  - unfold readU8, writeU8. rewrite (plain_read io _ Ha).
    rewrite wordOffsetOf_align.
    set (old := u32 (cell io (wordOffsetOf io offset))).
    set (m := bor (band old (bnot (shl 255 (band offset 3 * 8))))
                  (shl (band value 255) (band offset 3 * 8))).
    assert (Hw : wordOffsetOf (writeU32 io (band offset (bnot 3)) m)
                   (band offset (bnot 3))
                 = wordOffsetOf io offset).
    { rewrite plain_write by assumption. unfold wordOffsetOf.
      cbn [size with_registers]. now rewrite shr_align4. }
    rewrite plain_read by (rewrite Hw; rewrite plain_write by assumption;
                           exact Hh).
    rewrite Hw. cbn [fst].
    rewrite plain_write by assumption. rewrite wordOffsetOf_align.
    unfold cell. cbn [registers with_registers].
    rewrite lookup_insert_eq. cbn [from_option id]. rewrite u32_idem.
    rewrite lane_byte by apply u32_range.
    pose proof (Z.mod_pos_bound offset 4 ltac:(lia)).
    unfold m. rewrite merge_byte by lia. now rewrite Z.eqb_refl.
  - unfold readU16, writeU16. rewrite (plain_read io _ Ha).
    rewrite wordOffsetOf_align.
    set (old := u32 (cell io (wordOffsetOf io offset))).
    set (m := bor (band old (bnot (shl 65535 (band offset 2 * 8))))
                  (shl (band value 65535) (band offset 2 * 8))).
    assert (Hw : wordOffsetOf (writeU32 io (band offset (bnot 3)) m)
                   (band offset (bnot 3))
                 = wordOffsetOf io offset).
    { rewrite plain_write by assumption. unfold wordOffsetOf.
      cbn [size with_registers]. now rewrite shr_align4. }
    rewrite plain_read by (rewrite Hw; rewrite plain_write by assumption;
                           exact Hh).
    rewrite Hw. cbn [fst].
    rewrite plain_write by assumption. rewrite wordOffsetOf_align.
    unfold cell. cbn [registers with_registers].
    rewrite lookup_insert_eq. cbn [from_option id]. rewrite u32_idem.
    rewrite lane_half by apply u32_range.
    pose proof (Z.mod_pos_bound (offset / 2) 2 ltac:(lia)).
    unfold m. rewrite merge_half by lia. now rewrite Z.eqb_refl.
  - intros j Hj Hne. unfold writeU8. rewrite (plain_read io _ Ha).
    rewrite wordOffsetOf_align. rewrite Hsub. cbn [fst].
    rewrite (plain_read io offset Hh). cbn [fst].
    rewrite merge_byte by lia.
    destruct (Z.eqb_spec j (offset mod 4)); [contradiction | reflexivity].
  - intros j Hj Hne. unfold writeU16. rewrite (plain_read io _ Ha).
    rewrite wordOffsetOf_align. rewrite Hsub. cbn [fst].
    rewrite (plain_read io offset Hh). cbn [fst].
    rewrite merge_half by lia.
    destruct (Z.eqb_spec j ((offset / 2) mod 2));
      [contradiction | reflexivity].
  - intros other Hne Ho.
    assert (Hoth : forall off v,
              wordOffsetOf io off = wordOffsetOf io offset ->
              fst (readU32 (writeU32 io off v) other)
              = fst (readU32 io other)).
    { intros off v Eo.
      rewrite plain_write by (try rewrite Eo; assumption). rewrite Eo.
      unfold readU32 at 1. unfold wordOffsetOf at 1.
      cbn [handlers size with_registers]. fold (wordOffsetOf io other).
      rewrite Ho. rewrite (plain_read io other Ho). cbn [fst].
      unfold cell. cbn [registers with_registers].
      now rewrite lookup_insert_ne by (intros E; apply Hne; now symmetry). }
    split; [now apply Hoth |]. split.
    + unfold writeU8. rewrite (plain_read io _ Ha).
      apply Hoth, wordOffsetOf_align.
    + unfold writeU16. rewrite (plain_read io _ Ha).
      apply Hoth, wordOffsetOf_align.
  - now rewrite plain_write by assumption.
  - unfold writeU8. rewrite (plain_read io _ Ha).
    now rewrite plain_write by assumption.
  - unfold writeU16. rewrite (plain_read io _ Ha).
    now rewrite plain_write by assumption.
  - now rewrite plain_write by assumption.
  - unfold writeU8. rewrite (plain_read io _ Ha).
    now rewrite plain_write by assumption.
  - unfold writeU16. rewrite (plain_read io _ Ha).
    now rewrite plain_write by assumption.
  - unfold unregisterHandler, wordOffsetOf. cbn [handlers size with_handlers].
    apply lookup_delete_eq.
Qed.

End IOPlain.

Section IOPlainWitness.

Import JS IOMemoryRegion.

Lemma plain_registers_hold_their_words_witness :
  4 <= size (create 64 tt) < 4294967296 /\
  handlers (create 64 tt) !! wordOffsetOf (create 64 tt) 9 = None /\
  fst (readU8 (writeU8 (create 64 tt) 9 511) 9) = 511 mod 256.
Proof.
  assert (H1 : 4 <= size (create 64 tt) < 4294967296) by (cbn; lia).
  assert (H2 : handlers (create 64 tt) !! wordOffsetOf (create 64 tt) 9
               = None) by reflexivity.
  split; [exact H1 |]. split; [exact H2 |].
  exact (proj1 (proj2 (plain_registers_hold_their_words (create 64 tt) 9 511
                         H1 H2))).
Defined.

End IOPlainWitness.

(** ** The timer controller counts the interrupts of its channels *)

Section ControllerTick.

Import JS Timer ControllerSpec.

Lemma compares_app a b : compares (a ++ b) = compares a + compares b.
Proof.
  unfold compares. rewrite List.filter_app, length_app. lia.
Qed.

Lemma compares_nil : compares [] = 0.
Proof. reflexivity. Qed.

Lemma scale_positive s : 0 <= s <= 30 -> 0 < shl 1 s.
Proof.
  intros Hs. rewrite shl_1 by lia.
  assert (0 < 2 ^ s <= 2 ^ 30)
    by (split; [lia | apply Z.pow_le_mono_r; lia]).
  rewrite i32_small; lia.
Qed.

(** What a part of a tick may do to a channel: the callback and the
    clock scale stay, events are appended, and every compare event is
    counted as an interrupt. *)
Ltac events evs :=
  repeat (split; [first [reflexivity | assumption] |]);
  exists evs; rewrite ?app_nil_r;
  split; [reflexivity | first [reflexivity | rewrite ?compares_nil; cbn; lia]].

Lemma arithmetic_events x :
  let y := arithmetic x in
  onCompare y = onCompare x /\
  clockScale y = clockScale x /\
  cyclesUntilTick y = cyclesUntilTick x /\
  interrupts y = interrupts x /\
  exists evs, emitted y = emitted x ++ evs /\ compares evs = 0.
Proof.
  cbv zeta. unfold arithmetic, callOnOverflow.
  destruct (countDown x).
  - destruct (count x =? 0).
    + cbn [onOverflow with_stat with_overflows].
      destruct (onOverflow x);
        cbn [repeat with_emitted with_stat with_overflows];
        destruct (repeat x); cbn;
        first [events [Overflow] | events (@nil event)].
    + cbn. events (@nil event).
  - cbn [count with_count]. destruct (u32 (count x + 1) =? 0).
    + cbn [onOverflow with_stat with_overflows with_count].
      destruct (onOverflow x); cbn;
        first [events [Overflow] | events (@nil event)].
    + cbn. events (@nil event).
Qed.

Lemma compareCheck_events x d :
  onCompare x = true ->
  let y := fst (compareCheck x d) in
  onCompare y = true /\
  clockScale y = clockScale x /\
  cyclesUntilTick y = cyclesUntilTick x /\
  exists evs,
    emitted y = emitted x ++ evs /\
    interrupts y = interrupts x + compares evs.
Proof.
  intros Hc. cbv zeta. unfold compareCheck, callOnCompare.
  destruct (count x =? cmp x); cbn [fst].
  - cbn [irqEnabled with_stat with_compares].
    destruct (irqEnabled x).
    + cbn [onCompare with_interrupts with_stat with_compares]. rewrite Hc.
      cbn [repeat with_emitted with_interrupts with_stat with_compares].
      destruct (repeat x); cbn; rewrite ?Hc; events [Compare].
    + cbn [repeat with_stat with_compares].
      destruct (repeat x); cbn; rewrite ?Hc; events (@nil event).
  - events (@nil event).
Qed.

Lemma logicalTick_events scale x d :
  onCompare x = true ->
  let y := fst (logicalTick scale x d) in
  onCompare y = true /\
  clockScale y = clockScale x /\
  cyclesUntilTick y = cyclesUntilTick x - scale /\
  exists evs,
    emitted y = emitted x ++ evs /\
    interrupts y = interrupts x + compares evs.
Proof.
  intros Hc. cbv zeta. unfold logicalTick. cbv zeta.
  set (x1 := with_ticks (with_cyclesUntilTick x (cyclesUntilTick x - scale))
               (ticks (with_cyclesUntilTick x (cyclesUntilTick x - scale))
                + 1)).
  destruct (arithmetic_events x1) as (Ao & As & Ac & Ai & ea & Ae & An).
  cbv zeta in *.
  assert (Hc1 : onCompare (arithmetic x1) = true) by (rewrite Ao; exact Hc).
  destruct (compareCheck_events (arithmetic x1) d Hc1)
    as (Co & Cs & Cc & ec & Ce & Cn).
  cbv zeta in *.
  split; [exact Co |]. split; [rewrite Cs, As; reflexivity |].
  split; [rewrite Cc, Ac; reflexivity |].
  exists (ea ++ ec). rewrite Ce, Ae, Cn, Ai, compares_app, An, app_assoc.
  split; [reflexivity | rewrite ?compares_nil; cbn; lia].
Qed.

Lemma tickLoop_events scale fuel : forall x d,
  0 < scale ->
  onCompare x = true ->
  cyclesUntilTick x <= Z.of_nat fuel ->
  exists x' d',
    tickLoop fuel scale x d = Some (x', d') /\
    onCompare x' = true /\
    clockScale x' = clockScale x /\
    exists evs,
      emitted x' = emitted x ++ evs /\
      interrupts x' = interrupts x + compares evs.
Proof.
  induction fuel as [| k IH]; intros x d Hs Hc Hf.
  - cbn [tickLoop]. destruct (Z.leb_spec scale (cyclesUntilTick x)); [lia |].
    exists x, d. repeat split; try assumption.
    exists []. rewrite app_nil_r. split; [reflexivity | rewrite ?compares_nil; cbn; lia].
  - cbn [tickLoop]. destruct (Z.leb_spec scale (cyclesUntilTick x)).
    + destruct (logicalTick_events scale x d Hc)
        as (Lo & Ls & Lc & e1 & Le & Ln).
      cbv zeta in *.
      destruct (logicalTick scale x d) as [y dy]. cbn [fst] in *.
      destruct (IH y dy Hs Lo ltac:(lia))
        as (x' & d' & Et & Ho & Hsc & e2 & He & Hn).
      exists x', d'. split; [exact Et |]. split; [exact Ho |].
      split; [congruence |].
      exists (e1 ++ e2). rewrite He, Le, Hn, Ln, compares_app, app_assoc.
      split; [reflexivity | lia].
    + exists x, d. repeat split; try assumption.
      exists []. rewrite app_nil_r. split; [reflexivity | rewrite ?compares_nil; cbn; lia].
Qed.

(** [tick] of a connected channel returns, and counts an interrupt for
    every compare callback it makes. *)
Lemma tick_events x cycles :
  connected x ->
  exists fired x',
    tick x cycles = Some (fired, x') /\
    connected x' /\
    exists evs,
      emitted x' = emitted x ++ evs /\
      interrupts x' = interrupts x + compares evs.
Proof.
  intros [Hc Hs]. unfold tick. destruct (enabled x); cbn [negb].
  - set (x1 := with_cyclesUntilTick x (cyclesUntilTick x + cycles)).
    destruct (tickLoop_events (shl 1 (clockScale x))
                (Z.to_nat (cyclesUntilTick x1)) x1 false
                (scale_positive _ Hs) Hc ltac:(lia))
      as (x' & d' & Et & Ho & Hsc & evs & He & Hn).
    rewrite Et. eexists _, x'. split; [reflexivity |].
    split; [split; [exact Ho | now rewrite Hsc] |].
    exists evs. split; assumption.
  - eexists _, _. split; [reflexivity |].
    split; [split; assumption |].
    exists []. rewrite app_nil_r. split; [reflexivity | rewrite ?compares_nil; cbn; lia].
Qed.

End ControllerTick.

Section ControllerAccounts.

Import JS TimerController ControllerSpec.

Lemma compares_nonneg evs : 0 <= compares evs.
Proof. unfold compares. lia. Qed.

Lemma compares_cons e evs :
  compares (e :: evs)
  = (match e with Timer.Compare => 1 | Timer.Overflow => 0 end)
    + compares evs.
Proof.
  change (e :: evs) with ([e] ++ evs). rewrite compares_app.
  now destruct e.
Qed.

(** The callbacks of a channel: one call of [handleTimerInterrupt] with
    the channel's number for every compare event, each counting one
    interrupt and, with [onInterrupt] installed, passing the number on. *)
Lemma deliver_exact idx evs : forall tc,
  let tc' := deliver tc idx evs in
  totalInterrupts tc' = totalInterrupts tc + compares evs /\
  timer0 tc' = timer0 tc /\ timer1 tc' = timer1 tc /\
  timer2 tc' = timer2 tc /\
  totalTicks tc' = totalTicks tc /\
  onInterrupt tc' = onInterrupt tc /\
  raised tc'
  = raised tc
    ++ (if onInterrupt tc
        then replicate (Z.to_nat (compares evs)) idx else []).
Proof.
  induction evs as [| e evs IH]; intros tc; cbv zeta.
  - cbn [deliver fold_left]. rewrite compares_nil.
    repeat split; try lia.
    destruct (onInterrupt tc); cbn; now rewrite app_nil_r.
  - change (deliver tc idx (e :: evs))
      with (deliver (match e with
                     | Timer.Compare => handleTimerInterrupt tc idx
                     | Timer.Overflow => tc
                     end) idx evs).
    rewrite compares_cons. pose proof (compares_nonneg evs) as Hn.
    destruct e.
    + destruct (IH (handleTimerInterrupt tc idx))
        as (H1 & H2 & H3 & H4 & H5 & H6 & H7).
      cbv zeta in *. rewrite H1, H2, H3, H4, H5, H6, H7.
      unfold handleTimerInterrupt.
      cbn [onInterrupt with_totalInterrupts totalInterrupts].
      replace (Z.to_nat (1 + compares evs))
        with (S (Z.to_nat (compares evs))) by lia.
      destruct (onInterrupt tc) eqn:Eo;
        cbn [totalInterrupts with_raised with_totalInterrupts timer0 timer1
             timer2 totalTicks onInterrupt raised replicate];
        rewrite ?Eo;
        (split; [lia |]); do 5 (split; [reflexivity |]).
      * now rewrite <- app_assoc.
      * reflexivity.
    + destruct (IH tc) as (H1 & H2 & H3 & H4 & H5 & H6 & H7).
      cbv zeta in *. rewrite H1, H2, H3, H4, H5, H6, H7.
      rewrite Z.add_0_l. repeat split.
Qed.

(** One channel of the controller's [tick]: the channel's own [tick] runs,
    and its compare callbacks reach the controller. *)
Lemma tickTimer_exact tc idx cycles :
  0 <= idx <= 2 ->
  connected (timer tc idx) ->
  exists fired x' tc',
    Timer.tick (timer tc idx) cycles = Some (fired, x') /\
    tickTimer tc idx cycles = Some (fired, tc') /\
    connected x' /\
    timer tc' idx = x' /\
    (forall j, 0 <= j <= 2 -> j <> idx -> timer tc' j = timer tc j) /\
    totalTicks tc' = totalTicks tc /\
    onInterrupt tc' = onInterrupt tc /\
    0 <= Timer.interrupts x' - Timer.interrupts (timer tc idx) /\
    totalInterrupts tc'
    = totalInterrupts tc
      + (Timer.interrupts x' - Timer.interrupts (timer tc idx)) /\
    raised tc'
    = raised tc
      ++ (if onInterrupt tc
          then replicate
                 (Z.to_nat (Timer.interrupts x'
                            - Timer.interrupts (timer tc idx))) idx
          else []).
Proof.
  intros Hi Hc. unfold tickTimer.
  destruct (tick_events (timer tc idx) cycles Hc)
    as (fired & x' & Et & Hc' & evs & He & Hn).
  rewrite Et, He, drop_app_length.
  destruct (deliver_exact idx evs (with_timer tc idx x'))
    as (H1 & H2 & H3 & H4 & H5 & H6 & H7).
  cbv zeta in *.
  assert (Ht : forall j, 0 <= j <= 2 ->
            timer (deliver (with_timer tc idx x') idx evs) j
            = timer (with_timer tc idx x') j).
  { intros j Hj. assert (Ej : j = 0 \/ j = 1 \/ j = 2) by lia.
    destruct Ej as [-> | [-> | ->]]; cbn [timer]; assumption. }
  assert (Hk : totalInterrupts (with_timer tc idx x') = totalInterrupts tc
               /\ totalTicks (with_timer tc idx x') = totalTicks tc
               /\ onInterrupt (with_timer tc idx x') = onInterrupt tc
               /\ raised (with_timer tc idx x') = raised tc).
  { assert (Ei : idx = 0 \/ idx = 1 \/ idx = 2) by lia.
    destruct Ei as [-> | [-> | ->]]; repeat split. }
  destruct Hk as (K1 & K2 & K3 & K4).
  pose proof (compares_nonneg evs) as Hnn.
  exists fired, x', (deliver (with_timer tc idx x') idx evs).
  replace (Timer.interrupts x' - Timer.interrupts (timer tc idx))
    with (compares evs) by lia.
  split; [reflexivity |]. split; [reflexivity |]. split; [exact Hc' |].
  split.
  { rewrite Ht, timer_with_timer by lia.
    destruct (Z.eq_dec idx idx); [reflexivity | contradiction]. }
  split.
  { intros j Hj Hne. rewrite Ht, timer_with_timer by lia.
    destruct (Z.eq_dec idx j); [congruence | reflexivity]. }
  rewrite H1, H5, H6, H7, K1, K2, K3, K4.
  repeat split; first [lia | reflexivity].
Qed.

(** X19.  [tick] of the controller returns, having run the [tick] of each
    of the three channels, in order, on the channel as it was: the
    channels afterwards are what their own [tick] leaves, and the result
    says whether any of them has fired.  The cycles are added to
    [totalTicks]; every interrupt a channel counts is counted once in
    [totalInterrupts], and with [onInterrupt] installed the callback is
    called once for each, with the number of the channel, channel 0
    first. *)
Theorem controller_counts_channel_interrupts (tc : TimerController.t)
    (cycles : Z) :
  connected (timer0 tc) -> connected (timer1 tc) -> connected (timer2 tc) ->
  exists f0 f1 f2 x0 x1 x2 tc',
    Timer.tick (timer0 tc) cycles = Some (f0, x0) /\
    Timer.tick (timer1 tc) cycles = Some (f1, x1) /\
    Timer.tick (timer2 tc) cycles = Some (f2, x2) /\
    tick tc cycles = Some (f0 || f1 || f2, tc') /\
    timer0 tc' = x0 /\ timer1 tc' = x1 /\ timer2 tc' = x2 /\
    connected x0 /\ connected x1 /\ connected x2 /\
    onInterrupt tc' = onInterrupt tc /\
    totalTicks tc' = totalTicks tc + cycles /\
    let n0 := Timer.interrupts x0 - Timer.interrupts (timer0 tc) in
    let n1 := Timer.interrupts x1 - Timer.interrupts (timer1 tc) in
    let n2 := Timer.interrupts x2 - Timer.interrupts (timer2 tc) in
    0 <= n0 /\ 0 <= n1 /\ 0 <= n2 /\
    totalInterrupts tc' = totalInterrupts tc + n0 + n1 + n2 /\
    totalInterrupts tc' - totalInterrupts tc
    = channelInterrupts tc' - channelInterrupts tc /\
    raised tc'
    = raised tc
      ++ (if onInterrupt tc
          then replicate (Z.to_nat n0) 0 ++ replicate (Z.to_nat n1) 1
               ++ replicate (Z.to_nat n2) 2
          else []).
Proof.
  intros C0 C1 C2. unfold tick.
  set (tc0 := with_totalTicks tc (totalTicks tc + cycles)).
  destruct (tickTimer_exact tc0 0 cycles ltac:(lia) C0)
    as (f0 & x0 & t1 & X0 & E0 & D0 & M0 & K0 & T0 & O0 & N0 & I0 & R0).
  assert (C1' : connected (timer t1 1))
    by (rewrite K0 by lia; exact C1).
  destruct (tickTimer_exact t1 1 cycles ltac:(lia) C1')
    as (f1 & x1 & t2 & X1 & E1 & D1 & M1 & K1 & T1 & O1 & N1 & I1 & R1).
  assert (C2' : connected (timer t2 2))
    by (rewrite K1, K0 by lia; exact C2).
  destruct (tickTimer_exact t2 2 cycles ltac:(lia) C2')
    as (f2 & x2 & t3 & X2 & E2 & D2 & M2 & K2 & T2 & O2 & N2 & I2 & R2).
  rewrite E0. cbn [mbind option_bind]. rewrite E1. cbn [mbind option_bind].
  rewrite E2. cbn [mbind option_bind].
  pose proof (K2 0 ltac:(lia) ltac:(lia)) as A20.
  pose proof (K2 1 ltac:(lia) ltac:(lia)) as A21.
  pose proof (K1 0 ltac:(lia) ltac:(lia)) as A10.
  pose proof (K1 2 ltac:(lia) ltac:(lia)) as A12.
  pose proof (K0 1 ltac:(lia) ltac:(lia)) as A01.
  pose proof (K0 2 ltac:(lia) ltac:(lia)) as A02.
  rewrite A01 in X1, N1, I1, R1. rewrite A12, A02 in X2, N2, I2, R2.
  rewrite O1, O0 in R2. rewrite O0 in R1.
  cbn [timer] in *.
  change (onInterrupt tc0) with (onInterrupt tc) in *.
  change (totalInterrupts tc0) with (totalInterrupts tc) in *.
  change (raised tc0) with (raised tc) in *.
  change (timer0 tc0) with (timer0 tc) in *.
  change (timer1 tc0) with (timer1 tc) in *.
  change (timer2 tc0) with (timer2 tc) in *.
  change (totalTicks tc0) with (totalTicks tc + cycles) in *.
  exists f0, f1, f2, x0, x1, x2, t3.
  split; [exact X0 |]. split; [exact X1 |]. split; [exact X2 |].
  split; [reflexivity |].
  split; [rewrite A20, A10; exact M0 |].
  split; [rewrite A21; exact M1 |].
  split; [exact M2 |].
  split; [exact D0 |]. split; [exact D1 |]. split; [exact D2 |].
  split; [rewrite O2, O1, O0; reflexivity |].
  split; [rewrite T2, T1, T0; reflexivity |].
  cbv zeta.
  split; [exact N0 |]. split; [exact N1 |]. split; [exact N2 |].
  split; [lia |].
  split.
  { unfold channelInterrupts. rewrite A20, A10, A21, M0, M1, M2. lia. }
  rewrite R2, R1, R0.
  destruct (onInterrupt tc); [| now rewrite !app_nil_r].
  now rewrite <- !app_assoc.
Qed.

End ControllerAccounts.

Section ControllerWitness.

Import JS TimerController ControllerSpec.

(** Channel 1 enabled with interrupts and compare value 3, the others
    idle. *)
Lemma controller_counts_channel_interrupts_witness :
  let tc := writeU32 (writeU32 (with_onInterrupt create true) 24 3) 20 41 in
  connected (timer0 tc) /\ connected (timer1 tc) /\ connected (timer2 tc) /\
  exists f0 f1 f2 x0 x1 x2 tc',
    Timer.tick (timer1 tc) 6 = Some (f1, x1) /\
    tick tc 6 = Some (f0 || f1 || f2, tc') /\
    timer0 tc' = x0 /\ timer1 tc' = x1 /\ timer2 tc' = x2.
Proof.
  cbv zeta.
  set (tc := writeU32 (writeU32 (with_onInterrupt create true) 24 3) 20 41).
  assert (C0 : connected (timer0 tc))
    by (split; [reflexivity | vm_compute; split; discriminate]).
  assert (C1 : connected (timer1 tc))
    by (split; [reflexivity | vm_compute; split; discriminate]).
  assert (C2 : connected (timer2 tc))
    by (split; [reflexivity | vm_compute; split; discriminate]).
  split; [exact C0 |]. split; [exact C1 |]. split; [exact C2 |].
  destruct (controller_counts_channel_interrupts tc 6 C0 C1 C2)
    as (f0 & f1 & f2 & x0 & x1 & x2 & tc' & _ & X1 & _ & Et & M0 & M1 & M2
        & _).
  exists f0, f1, f2, x0, x1, x2, tc'.
  repeat (split; [assumption |]). assumption.
Defined.

End ControllerWitness.
